(** * Automated-Data-Collector: cleaning, de-duplication, extraction and
      the collection loop

    A shallow embedding of
      - [src/core/data_processor.py]  (clean_data_entry, remove_duplicates,
                                       the validators, validate_data),
      - [src/utils/data_extraction.py] (EmailExtractor, DataExtractor.clean_text),
      - [src/core/data_collection.py]  (DataProcessor worker, DataCollectorThread),
      - [src/core/web_scraping.py]     (is_valid_result_link, is_landing_page,
                                       parse_serp_links),
      - [src/utils/network.py]         (ProxyManager),
      - [src/ui/main_window.py]        (add_real_time_data, refresh_table,
                                       clean_data, validate_data, test_proxies).

    Python [str] values are modelled by [string]; a character is a code
    point below 256 (the Latin-1 part of Unicode), and the character
    classes below are Python's own classes restricted to that range.
    Python [int] is [Z], a [dict] with string keys is a [gmap string value],
    a [set] is a [gset]. *)

From Stdlib Require Import ZArith Ascii String List Bool Lia Sorted.
From stdpp Require Import base option list strings gmap.

Local Open Scope string_scope.

(** ** Python string primitives *)

Module PyStr.

Definition code (c : ascii) : nat := nat_of_ascii c.

Definition between (lo hi : nat) (c : ascii) : bool :=
  (lo <=? code c)%nat && (code c <=? hi)%nat.

(** [str.isspace] on one character; [strip], [split] and the regex class
    [\s] all use it: TAB..CR, FS..US, space, NEL and NBSP. *)
Definition is_space (c : ascii) : bool :=
  between 9 13 c || between 28 32 c || (code c =? 133)%nat || (code c =? 160)%nat.

(** [\d] of [re] on [str] patterns: the decimal digits. *)
Definition is_decimal (c : ascii) : bool := between 48 57 c.

(** [str.isdigit]: the decimal digits and the superscripts 2, 3 and 1. *)
Definition is_digit (c : ascii) : bool :=
  is_decimal c || (code c =? 178)%nat || (code c =? 179)%nat || (code c =? 185)%nat.

Definition is_upper_az (c : ascii) : bool := between 65 90 c.
Definition is_lower_az (c : ascii) : bool := between 97 122 c.
Definition is_alpha_az (c : ascii) : bool := is_upper_az c || is_lower_az c.

(** [str.lower] on one character: A-Z and the Latin-1 capitals (all of
    0xC0..0xDE but the multiplication sign) move up by 32. *)
Definition lower_char (c : ascii) : ascii :=
  if is_upper_az c || (between 192 222 c && negb (code c =? 215)%nat)
  then ascii_of_nat (code c + 32) else c.

Fixpoint lower (s : string) : string :=
  match s with
  | EmptyString => EmptyString
  | String c s' => String (lower_char c) (lower s')
  end.

(** [s.lstrip()], [s.rstrip()] and [s.strip()]. *)
Fixpoint lstrip (s : string) : string :=
  match s with
  | EmptyString => EmptyString
  | String c s' => if is_space c then lstrip s' else s
  end.

Fixpoint rstrip (s : string) : string :=
  match s with
  | EmptyString => EmptyString
  | String c s' =>
      match rstrip s' with
      | EmptyString => if is_space c then EmptyString else String c EmptyString
      | r => String c r
      end
  end.

Definition strip (s : string) : string := lstrip (rstrip s).

(** [s.split()] with no argument: the maximal runs of non-space characters.
    [w] is the word being read, kept in reading order. *)
Fixpoint split_go (w : string) (s : string) : list string :=
  match s with
  | EmptyString => match w with EmptyString => [] | _ => [w] end
  | String c s' =>
      if is_space c
      then match w with
           | EmptyString => split_go EmptyString s'
           | _ => w :: split_go EmptyString s'
           end
      else split_go (w ++ String c EmptyString) s'
  end.

Definition split (s : string) : list string := split_go EmptyString s.

(** [s.split(sep)] for a one-character separator: empty pieces are kept. *)
Fixpoint split_on_go (sep : ascii) (w : string) (s : string) : list string :=
  match s with
  | EmptyString => [w]
  | String c s' =>
      if Ascii.eqb c sep
      then w :: split_on_go sep EmptyString s'
      else split_on_go sep (w ++ String c EmptyString) s'
  end.

Definition split_on (sep : ascii) (s : string) : list string :=
  split_on_go sep EmptyString s.

(** [sep.join(ws)]. *)
Fixpoint join (sep : string) (ws : list string) : string :=
  match ws with
  | [] => EmptyString
  | [w] => w
  | w :: ws' => w ++ sep ++ join sep ws'
  end.

Fixpoint filter_chars (p : ascii -> bool) (s : string) : string :=
  match s with
  | EmptyString => EmptyString
  | String c s' => if p c then String c (filter_chars p s') else filter_chars p s'
  end.

Fixpoint any_char (p : ascii -> bool) (s : string) : bool :=
  match s with
  | EmptyString => false
  | String c s' => p c || any_char p s'
  end.

(** [s[n:]]. *)
Fixpoint slice_from (n : nat) (s : string) : string :=
  match n, s with
  | O, _ => s
  | S n', String _ s' => slice_from n' s'
  | S _, EmptyString => EmptyString
  end.

(** [s[-n:]] for [n > 0]. *)
Definition last_n (n : nat) (s : string) : string :=
  slice_from (String.length s - n) s.

(** [s.startswith(p)]. *)
Definition startswith (s p : string) : bool := String.prefix p s.

(** [s.replace(old, new)] for a non-empty [old]: left to right, without
    overlap. [skip] counts the characters of an occurrence already replaced. *)
Fixpoint replace_go (old new : string) (skip : nat) (s : string) : string :=
  match s with
  | EmptyString => EmptyString
  | String c s' =>
      match skip with
      | S k => replace_go old new k s'
      | O => if String.prefix old s
             then new ++ replace_go old new (String.length old - 1) s'
             else String c (replace_go old new 0 s')
      end
  end.

Definition replace (old new s : string) : string := replace_go old new 0 s.

(** [sub in s]. *)
Fixpoint contains (sub s : string) : bool :=
  String.prefix sub s ||
  match s with
  | EmptyString => false
  | String _ s' => contains sub s'
  end.

End PyStr.

Import PyStr.

(** ** Python values and dictionaries *)

Inductive value :=
| VStr (s : string)
| VNone
| VInt (z : Z)
| VBool (b : bool).

#[global] Instance value_eq_dec : EqDecision value.
Proof. solve_decision. Defined.

(** [v == s] for a string literal [s]. *)
Definition eq_str (v : value) (s : string) : bool :=
  match v with VStr t => String.eqb t s | _ => false end.

(** Truth value of [v] in a condition. *)
Definition truthy (v : value) : bool :=
  match v with
  | VStr s => negb (String.eqb s "")
  | VNone => false
  | VInt z => negb (z =? 0)%Z
  | VBool b => b
  end.

(** The receiver of a [str] method call: anything but a [str] raises
    (AttributeError), which the option monad records as [None]. *)
Definition as_str (v : value) : option string :=
  match v with VStr s => Some s | _ => None end.

Abbreviation dict := (gmap string value).

(** [d.get(k, default)] and [d.get(k)]. *)
Definition get (d : dict) (k : string) (dflt : value) : value :=
  default dflt (d !! k).

Definition get_none (d : dict) (k : string) : value := get d k VNone.

Definition NA : string := "N/A".

(** ** [core/data_processor.py]: cleaning one entry *)

Module DataProcessor.

(** name and address: strip, then collapse inner runs of spaces. *)
Definition clean_spaced (v : value) : option value :=
  if eq_str v NA then Some v
  else s ← as_str v; Some (VStr (join " " (split (strip s)))).

(** [re.sub(r'[^\d+]', '', phone)]. *)
Definition phone_chars (s : string) : string :=
  filter_chars (fun c => is_decimal c || Ascii.eqb c "+") s.

(** The string part of [clean_phone]: the country code in front of a
    number of 10 characters or more that has no '+'. *)
Definition with_country_code (s : string) : string :=
  let phone := phone_chars s in
  if negb (String.eqb phone "") && negb (startswith phone "+")
     && (10 <=? String.length phone)%nat
  then if (String.length phone =? 10)%nat
       then "+234" ++ last_n 10 phone
       else "+234" ++ phone
  else phone.

Definition clean_phone (v : value) : option value :=
  if eq_str v NA then Some v
  else s ← as_str v; Some (VStr (with_country_code s)).

Definition clean_email (v : value) : option value :=
  if eq_str v NA then Some v
  else s ← as_str v; Some (VStr (lower (strip s))).

Definition has_scheme (s : string) : bool :=
  startswith s "http://" || startswith s "https://".

Definition clean_website (v : value) : option value :=
  if eq_str v NA then Some v
  else
    s ← as_str v;
    let website := strip s in
    Some (VStr (if has_scheme website then website else "https://" ++ website)).

Definition clean_instagram (v : value) : option value :=
  if eq_str v NA then Some v
  else
    s ← as_str v;
    let instagram := strip s in
    Some (VStr
      (if has_scheme instagram then instagram
       else if startswith instagram "@"
            then "https://instagram.com/" ++ slice_from 1 instagram
            else "https://instagram.com/" ++ instagram)).

(** The remaining fields: stripped when they are strings, kept otherwise. *)
Definition clean_other (v : value) : value :=
  match v with
  | VStr s => if String.eqb s NA then v else VStr (strip s)
  | _ => v
  end.

Definition other_fields : list string :=
  ["country"; "state"; "location"; "hours"; "products_services"; "image_path"].

Definition clean_data_entry (data : dict) : option dict :=
  name ← clean_spaced (get data "name" (VStr NA));
  phone ← clean_phone (get data "phone" (VStr NA));
  email ← clean_email (get data "email" (VStr NA));
  website ← clean_website (get data "website" (VStr NA));
  instagram ← clean_instagram (get data "instagram" (VStr NA));
  address ← clean_spaced (get data "address" (VStr NA));
  let cleaned : dict :=
    <["address" := address]> (<["instagram" := instagram]> (<["website" := website]>
    (<["email" := email]> (<["phone" := phone]> (<["name" := name]> ∅))))) in
  Some (foldl (fun (cleaned : dict) field =>
                 <[field := clean_other (get data field (VStr NA))]> cleaned)
              cleaned other_fields).

(** The key of an entry in [remove_duplicates]. *)
Definition unique_key (item : dict) : option (string * string) :=
  name ← as_str (get item "name" (VStr ""));
  address ← as_str (get item "address" (VStr ""));
  Some (lower (strip name), lower (strip address)).

Fixpoint remove_duplicates_go (unique_entries : gset (string * string))
    (data : list dict) : option (list dict) :=
  match data with
  | [] => Some []
  | item :: rest =>
      key ← unique_key item;
      if decide (key ∈ unique_entries)
      then remove_duplicates_go unique_entries rest
      else cleaned_data ← remove_duplicates_go ({[key]} ∪ unique_entries) rest;
           Some (item :: cleaned_data)
  end.

Definition remove_duplicates (data : list dict) : option (list dict) :=
  remove_duplicates_go ∅ data.

End DataProcessor.

(** ** A backtracking matcher for the regular expressions of the source

    Only the constructs the source's patterns use.  [match_re r prev s k]
    tries [r] at the front of [s], [prev] being the character just before
    it, and hands what is left to the continuation [k]; alternatives are
    tried in Python's order (a greedy star first tries one more round). *)

Module Regex.

Inductive regex :=
| Class (p : ascii -> bool)      (* one character of a class *)
| WordBoundary                   (* \b *)
| Start                          (* ^ *)
| Finish                         (* $ *)
| Seq (r1 r2 : regex)
| Star (r : regex).              (* r*, greedy *)

Definition Plus (r : regex) : regex := Seq r (Star r).

Fixpoint seq_of (rs : list regex) : regex :=
  match rs with
  | [] => Star (Class (fun _ => false))
  | [r] => r
  | r :: rs' => Seq r (seq_of rs')
  end.

(** [\w] on [str]: alphanumeric characters and the underscore. *)
Definition is_word (c : ascii) : bool :=
  is_alpha_az c || is_decimal c || Ascii.eqb c "_"
  || (code c =? 170)%nat || (code c =? 178)%nat || (code c =? 179)%nat
  || (code c =? 181)%nat || (code c =? 185)%nat || (code c =? 186)%nat
  || between 188 190 c || between 192 214 c || between 216 246 c
  || between 248 255 c.

Definition is_word_opt (c : option ascii) : bool :=
  match c with Some c => is_word c | None => false end.

Definition head (s : string) : option ascii :=
  match s with String c _ => Some c | EmptyString => None end.

Fixpoint match_re {R : Type} (r : regex) (prev : option ascii) (s : string)
    (k : option ascii -> string -> option R) {struct r} : option R :=
  match r with
  | Class p =>
      match s with
      | String c s' => if p c then k (Some c) s' else None
      | EmptyString => None
      end
  | WordBoundary =>
      if xorb (is_word_opt prev) (is_word_opt (head s)) then k prev s else None
  | Start => match prev with None => k prev s | Some _ => None end
  | Finish =>
      if String.eqb s "" || String.eqb s (String "010" "") then k prev s else None
  | Seq r1 r2 => match_re r1 prev s (fun prev' s' => match_re r2 prev' s' k)
  | Star r1 =>
      (fix rounds (n : nat) (prev : option ascii) (s : string) : option R :=
         match n with
         | O => k prev s
         | S n' =>
             match match_re r1 prev s (fun prev' s' =>
                     if (String.length s' <? String.length s)%nat
                     then rounds n' prev' s' else None) with
             | Some x => Some x
             | None => k prev s
             end
         end) (String.length s) prev s
  end.

(** The match of [r] starting exactly here: what is left after it. *)
Definition match_here (r : regex) (prev : option ascii) (s : string) : option string :=
  match_re r prev s (fun _ rest => Some rest).

(** [s[:n]]. *)
Fixpoint slice_to (n : nat) (s : string) : string :=
  match n, s with
  | S n', String c s' => String c (slice_to n' s')
  | _, _ => EmptyString
  end.

(** [re.findall(r, s)] for a pattern without groups: the matched pieces,
    leftmost first, without overlap.  [skip] counts the characters still
    covered by the last match. *)
Fixpoint findall_go (r : regex) (skip : nat) (prev : option ascii) (s : string)
    : list string :=
  match s with
  | EmptyString =>
      match skip, match_here r prev s with
      | O, Some _ => [EmptyString]
      | _, _ => []
      end
  | String c s' =>
      match skip with
      | S k => findall_go r k (Some c) s'
      | O =>
          match match_here r prev s with
          | Some rest =>
              let n := (String.length s - String.length rest)%nat in
              slice_to n s :: findall_go r (n - 1) (Some c) s'
          | None => findall_go r 0 (Some c) s'
          end
      end
  end.

Definition findall (r : regex) (s : string) : list string := findall_go r 0 None s.

(** [re.match(r, s) is not None]. *)
Definition matches (r : regex) (s : string) : bool :=
  match match_here r None s with Some _ => true | None => false end.

(** Pattern atoms.  Under [re.IGNORECASE] a literal letter matches both of
    its cases; the classes of the source already list both. *)
Definition lit (c : ascii) : regex := Class (Ascii.eqb c).
Definition lit_i (c : ascii) : regex :=
  Class (fun x => Ascii.eqb (lower_char x) (lower_char c)).
Definition space_star : regex := Star (Class is_space).

Definition one_of (cs : string) (c : ascii) : bool := any_char (Ascii.eqb c) cs.

End Regex.

(** ** [utils/data_extraction.py]: EmailExtractor *)

Module EmailExtractor.
Import Regex.

(** [[A-Za-z0-9._%+-]] *)
Definition local_class (c : ascii) : bool :=
  is_alpha_az c || is_decimal c || one_of "._%+-" c.
(** [[A-Za-z0-9.-]] *)
Definition domain_class (c : ascii) : bool :=
  is_alpha_az c || is_decimal c || one_of ".-" c.
(** [[A-Z|a-z]]: the bar is a member of the class. *)
Definition tld_class (c : ascii) : bool := is_alpha_az c || Ascii.eqb c "|".

(** [[A-Za-z0-9.-]+\.[A-Z|a-z]{2,}\b], the tail shared by the five patterns. *)
Definition domain_tail : regex :=
  seq_of [Plus (Class domain_class); lit "."; Class tld_class; Class tld_class;
          Star (Class tld_class); WordBoundary].

(** [\b[A-Za-z0-9._%+-]+], their common head. *)
Definition local_head : regex := Seq WordBoundary (Plus (Class local_class)).

(** [self.email_patterns], compiled with [re.IGNORECASE]. *)
Definition email_patterns : list regex :=
  [ (* \b[A-Za-z0-9._%+-]+@[A-Za-z0-9.-]+\.[A-Z|a-z]{2,}\b *)
    seq_of [local_head; lit "@"; domain_tail];
    (* \b[A-Za-z0-9._%+-]+\s*@\s*[A-Za-z0-9.-]+\.[A-Z|a-z]{2,}\b *)
    seq_of [local_head; space_star; lit "@"; space_star; domain_tail];
    (* \b[A-Za-z0-9._%+-]+\s*\[\s*@\s*\]\s*[A-Za-z0-9.-]+\.[A-Z|a-z]{2,}\b *)
    seq_of [local_head; space_star; lit "["; space_star; lit "@"; space_star;
            lit "]"; space_star; domain_tail];
    (* \b[A-Za-z0-9._%+-]+\(at\)[A-Za-z0-9.-]+\.[A-Z|a-z]{2,}\b *)
    seq_of [local_head; lit "("; lit_i "a"; lit_i "t"; lit ")"; domain_tail];
    (* \b[A-Za-z0-9._%+-]+\s*\(a\)\s*[A-Za-z0-9.-]+\.[A-Z|a-z]{2,}\b *)
    seq_of [local_head; space_star; lit "("; lit_i "a"; lit ")"; space_star;
            domain_tail] ].

(** [validate_email]: [^[a-zA-Z0-9._%+-]+@[a-zA-Z0-9.-]+\.[a-zA-Z]{2,}$]. *)
Definition validate_email (email : string) : bool :=
  matches (seq_of [Start; Plus (Class local_class); lit "@";
                   Plus (Class domain_class); lit ".";
                   Class is_alpha_az; Class is_alpha_az; Star (Class is_alpha_az);
                   Finish]) email.

(** The clean-up of one match in [extract_emails]. *)
Definition clean_match (email : string) : string :=
  replace "(a)" "@" (replace "(at)" "@" (replace "]" "" (replace "[" ""
    (replace " " "" email)))).

(** [emails.add(e)]; the set is kept as a duplicate-free list in order of
    first insertion (Python leaves the order of [list(emails)] open). *)
Definition set_add (e : string) (emails : list string) : list string :=
  if bool_decide (e ∈ emails) then emails else emails ++ [e].

(** The two nested loops over patterns and matches on one page text. *)
Definition scan_text (text : string) (emails : list string) : list string :=
  foldl (fun emails pattern =>
           foldl (fun emails email =>
                    let clean_email := clean_match email in
                    if validate_email clean_email
                    then set_add (lower clean_email) emails else emails)
                 emails (findall pattern text))
        emails email_patterns.

Definition contact_keywords : list string :=
  ["contact"; "about"; "team"; "staff"; "reach"; "connect"].

Definition is_contact_page (text : string) : bool :=
  existsb (fun keyword => contains keyword text) contact_keywords.

(** What the session and the HTML parser give for one URL: [None] when the
    request raises or the status is not 200, else the page's text and its
    anchors [(href, link text)]. *)
Record page := { text : string; links : list (string * string) }.

Section Crawl.
Variable fetch : string -> option page.
Variable urljoin : string -> string -> string.

(** The links of one page that are queued. *)
Definition contact_links (current_url : string) (visited_urls : list string)
    (p : page) : list string :=
  omap (fun '(href, link_text) =>
          if negb (String.eqb href "") && negb (startswith href "mailto:")
             && negb (startswith href "tel:")
          then let absolute_url := urljoin current_url href in
               if is_contact_page (lower link_text)
                  && negb (bool_decide (absolute_url ∈ visited_urls))
               then Some absolute_url else None
          else None)
       (links p).

(** The [for _ in range(max_pages)] loop. *)
Fixpoint crawl (max_pages : nat) (emails visited_urls urls_to_visit : list string)
    : list string :=
  match max_pages with
  | O => emails
  | S n =>
      match urls_to_visit with
      | [] => emails
      | current_url :: urls_to_visit =>
          if bool_decide (current_url ∈ visited_urls)
          then crawl n emails visited_urls urls_to_visit
          else
            let visited_urls := current_url :: visited_urls in
            match fetch current_url with
            | None => crawl n emails visited_urls urls_to_visit
            | Some p =>
                crawl n (scan_text (text p) emails) visited_urls
                      (urls_to_visit ++ contact_links current_url visited_urls p)
            end
      end
  end.

Definition extract_emails (url : string) (max_pages : nat) : list string :=
  match crawl max_pages [] [] [url] with
  | [] => [NA]
  | emails => emails
  end.
End Crawl.

End EmailExtractor.

(** ** [core/data_collection.py]: the worker for one search result
    (class [DataProcessor(QRunnable)]) *)

Module EntryWorker.

(** What Selenium shows of one result element.  [find sel] is the text of
    [find_element(By.CSS_SELECTOR, sel)] and [elem_text] the text of the
    element itself; [None] stands for a raised exception.  [click n] and
    [js_click n] tell whether the n-th attempt to click succeeds. *)
Record result_element := {
  find : string -> option string;
  elem_text : option string;
  click : nat -> bool;
  js_click : nat -> bool }.

(** What the detail view shows after the click; [None] stands for a raised
    exception, and an attribute read is [Some None] when the element is
    there without the attribute.  [h1_headline] and [h1_any] are the texts of
    the two headline lookups, [phone_label] and [address_label] the
    aria-labels of the copy buttons, [tel_href], [website_link] and
    [other_link] the hrefs of the links, [body_medium] the texts of the
    [div.fontBodyMedium] elements; [site_emails] is what the e-mail
    extractor returns for the website, [found_instagram] what
    [extract_instagram] returns, and the last three fields are the values
    the steps for hours, image and products end with. *)
Record detail_page := {
  h1_headline : option string;
  h1_any : option string;
  phone_label : option (option string);
  tel_href : option (option string);
  website_link : option (option string);
  other_link : option (option string);
  site_emails : option (list string);
  found_instagram : option string;
  address_label : option (option string);
  body_medium : option (list string);
  found_hours : string;
  found_image_path : string;
  found_products_services : string }.

Record entry_info := { info_name : string; info_address : string }.

Definition name_selectors : list string :=
  ["div.fontHeadlineSmall"; "div.fontBodyMedium"; "h3"; "a";
   "div[role='article'] > div > div > div > div > div";
   "div[jsaction*='mouseover'] > div > div > div"].

Definition address_selectors : list string :=
  ["div.fontBodyMedium:last-child";
   "div[role='article'] > div > div > div > div > div:last-child";
   "div[jsaction*='mouseover'] > div > div > div:last-child"].

(** [[line.strip() for line in text.split('\n') if line.strip()]] *)
Definition nonempty_lines (text : string) : list string :=
  omap (fun line => let l := strip line in
                    if String.eqb l "" then None else Some l)
       (split_on "010" text).

(** The first selector whose stripped text is accepted by [ok]. *)
Fixpoint first_selector (e : result_element) (ok : string -> bool)
    (selectors : list string) : option string :=
  match selectors with
  | [] => None
  | selector :: rest =>
      match find e selector with
      | Some t => let t := strip t in
                  if ok t then Some t else first_selector e ok rest
      | None => first_selector e ok rest
      end
  end.

(** The filter of the free-text fallback before the click. *)
Definition address_like (line : string) : bool :=
  any_char is_digit line || (3 <? length (split line))%nat.

(** The filter of the free-text fallback on the detail view. *)
Definition address_text_ok (text : string) : bool :=
  negb (String.eqb text "") && any_char is_digit text
  && (3 <? length (split text))%nat.

(** The two free-text fallbacks of [extract_info_from_result], on the text
    of the whole element. *)
Definition name_from_text (e : result_element) (name : string) : string :=
  match elem_text e with
  | Some text =>
      let text := strip text in
      if negb (String.eqb text "") && negb (String.eqb text "Results")
      then match nonempty_lines text with
           | first_line :: _ => first_line
           | [] => name
           end
      else name
  | None => name
  end.

Definition address_from_text (e : result_element) (name address : string) : string :=
  match elem_text e with
  | Some text =>
      let text := strip text in
      if negb (String.eqb text "") && negb (String.eqb text "Results")
         && negb (String.eqb text name)
      then let lines := nonempty_lines text in
           if (1 <? length lines)%nat
           then match List.find address_like (tail lines) with
                | Some line => line
                | None => address
                end
           else address
      else address
  | None => address
  end.

Definition extract_info_from_result (e : result_element) : entry_info :=
  let name :=
    default "Unknown"
      (first_selector e (fun t => negb (String.eqb t "") && negb (String.eqb t "Results"))
                      name_selectors) in
  let name := if String.eqb name "Unknown" then name_from_text e name else name in
  let address :=
    default NA
      (first_selector e (fun t => negb (String.eqb t "") && negb (String.eqb t name))
                      address_selectors) in
  let address :=
    if String.eqb address NA then address_from_text e name address else address in
  {| info_name := name; info_address := address |}.

(** The address step of [extract_data]. *)
Definition extract_address (p : detail_page) : value :=
  match address_label p with
  | Some (Some address) =>
      if negb (String.eqb address "") && contains "Copy address" address
      then VStr (replace "Copy address " "" address)
      else if String.eqb address "" then VStr NA else VStr address
  | Some None => VStr NA
  | None =>
      match body_medium p with
      | Some texts =>
          match List.find address_text_ok (map strip texts) with
          | Some text => VStr text
          | None => VStr NA
          end
      | None => VStr NA
      end
  end.

Definition opt_value (o : option string) : value :=
  match o with Some s => VStr s | None => VNone end.

Definition extract_name (p : detail_page) : value :=
  match h1_headline p with
  | Some t => VStr t
  | None => match h1_any p with Some t => VStr t | None => VStr NA end
  end.

Definition extract_phone (p : detail_page) : value :=
  match phone_label p with
  | Some (Some phone) =>
      if negb (String.eqb phone "") && contains "Copy phone number" phone
      then VStr (replace "Copy phone number " "" phone)
      else if String.eqb phone "" then VStr NA else VStr phone
  | Some None => VStr NA
  | None =>
      match tel_href p with
      | Some (Some href) => VStr (replace "tel:" "" href)
      | _ => VStr NA
      end
  end.

Definition extract_website (p : detail_page) : value :=
  match website_link p with
  | Some href => opt_value href
  | None => match other_link p with
            | Some href => opt_value href
            | None => VStr NA
            end
  end.

(** [extract_data]: [None] when the function gives up on the whole page
    (here: the e-mail harvest raises, the one step outside a local [try]). *)
Definition extract_data (p : detail_page) : option dict :=
  let website := extract_website p in
  email ←
    (if truthy website && negb (eq_str website NA)
     then emails ← site_emails p;
          Some (match emails with e :: _ => VStr e | [] => VStr NA end)
     else Some (VStr NA));
  let instagram :=
    match found_instagram p with Some i => VStr i | None => VStr NA end in
  Some (<["products_services" := VStr (found_products_services p)]>
       (<["image_path" := VStr (found_image_path p)]>
       (<["hours" := VStr (found_hours p)]>
       (<["address" := extract_address p]>
       (<["instagram" := instagram]>
       (<["email" := email]>
       (<["website" := website]>
       (<["phone" := extract_phone p]>
       (<["name" := extract_name p]> (∅ : dict)))))))))).

(** The three attempts to open the entry: a regular click, else a click by
    script; the third failure raises. *)
Fixpoint open_entry (e : result_element) (attempt remaining : nat) : bool :=
  match remaining with
  | O => true
  | S r => if click e attempt || js_click e attempt then true
           else match r with O => false | _ => open_entry e (S attempt) r end
  end.

(** The three outcome signals of a worker; the texts of the messages are
    kept as their parts. *)
Inductive worker_signal :=
| data_ready (data : dict)
| skipped (entry : Z) (business_name business_address : value)
| error (entry : Z).

(** The name and the address read before the click stand in for the
    placeholders of the detail view. *)
Definition with_seed (entry_name entry_address : value) (data : dict) : dict :=
  let name := get_none data "name" in
  let data : dict :=
    if eq_str name NA || eq_str name "Results" || negb (truthy name)
    then <["name" := entry_name]> data else data in
  let address := get_none data "address" in
  if eq_str address NA || negb (truthy address)
  then <["address" := entry_address]> data else data.

(** The check at the end of [run]: skip the entry or hand it over. *)
Definition report (skip_missing_social : bool) (index : Z)
    (entry_name entry_address : value) (data : dict) : worker_signal :=
  if skip_missing_social && eq_str (get_none data "website") NA
     && eq_str (get_none data "instagram") NA
  then skipped (index + 1) (get data "name" entry_name)
               (get data "address" entry_address)
  else data_ready data.

Definition run (skip_missing_social : bool) (index : Z)
    (e : result_element) (p : detail_page) : worker_signal :=
  let info := extract_info_from_result e in
  let entry_name := VStr (info_name info) in
  let entry_address := VStr (info_address info) in
  if open_entry e 0 3 then
    match extract_data p with
    | Some data =>
        report skip_missing_social index entry_name entry_address
               (with_seed entry_name entry_address data)
    | None => error (index + 1)
    end
  else error (index + 1).

End EntryWorker.

(** ** [core/data_collection.py]: DataCollectorThread *)

Module DataCollectorThread.
Import EntryWorker.

(** The texts passed to [status_updated], by kind. *)
Inductive status :=
| Initializing | UsingApi | ApiCompleted | InitializingDriver | Navigating
| WaitingForResults | FoundResults | StartingCollection
| ConnectionLost | ConnectionRestored
| LoadingMore | NoMoreResults | NoAdditionalResults
| ProcessingBatch (batch_size : Z)
| Processed (processed_count collected_count : Z)
| RotatingIp
| ErrorProcessingBatch
| WorkerError (entry : Z)
| OnlyCollected (collected_count num_entries : Z)
| ConsiderDisablingSkip
| CollectedViaApi (collected_count num_entries : Z).

(** The signals of the thread, in the order of emission. *)
Inductive signal :=
| status_updated (s : status)
| progress_updated
| real_time_update (data : dict)
| data_collected (data : dict)
| entry_skipped (entry : Z) (business_name business_address : value)
| proxy_rotated (ok : bool)
| connection_status_changed (is_connected : bool)
| error_occurred
| finished.

(** One place of the Places API with what the requests about it return:
    [details] is the answer of [get_place_details] (empty on failure),
    [weekday_text] the serialized opening hours, [first_email] the first
    address harvested from the website, [photo_path] the downloaded image. *)
Record place := {
  place_id : option string;
  details : dict;
  formatted_address : value;
  weekday_text : string;
  first_email : string;
  photo_path : option string }.

Record candidate := { element : result_element; page : detail_page }.

(** Where the thread stands in [run]. *)
Inductive phase :=
| AtStart
| InApi (places : list place) (collected_count : Z)
| AtLoopTop
| WaitingForConnection
| Exited.

Record collector := {
  (* arguments of the constructor *)
  search_query : string;
  location : string;
  state : string;
  country : string;
  num_entries : Z;
  api_key : bool;
  proxy_manager : bool;
  skip_missing_social : bool;
  (* attributes *)
  is_running : bool;
  is_paused : bool;
  request_count : Z;
  collected_count : Z;
  skipped_count : Z;
  processed_count : Z;
  max_to_process : Z;
  internet_connected : bool;
  (* the local variable of [run] and its position *)
  consecutive_errors : Z;
  position : phase;
  (* everything emitted so far *)
  signals : list signal }.

Definition init (search_query location state country : string) (num_entries : Z)
    (api_key proxy_manager skip_missing_social : bool) : collector :=
  {| search_query := search_query; location := location; state := state;
     country := country; num_entries := num_entries; api_key := api_key;
     proxy_manager := proxy_manager; skip_missing_social := skip_missing_social;
     is_running := true; is_paused := false; request_count := 0;
     collected_count := 0; skipped_count := 0; processed_count := 0;
     max_to_process := num_entries * 5; internet_connected := true;
     consecutive_errors := 0; position := AtStart; signals := [] |}.

Definition emit (s : signal) (c : collector) : collector :=
  {| search_query := search_query c; location := location c; state := state c;
     country := country c; num_entries := num_entries c; api_key := api_key c;
     proxy_manager := proxy_manager c; skip_missing_social := skip_missing_social c;
     is_running := is_running c; is_paused := is_paused c;
     request_count := request_count c; collected_count := collected_count c;
     skipped_count := skipped_count c; processed_count := processed_count c;
     max_to_process := max_to_process c; internet_connected := internet_connected c;
     consecutive_errors := consecutive_errors c; position := position c;
     signals := signals c ++ [s] |}.

Definition goto (p : phase) (c : collector) : collector :=
  {| search_query := search_query c; location := location c; state := state c;
     country := country c; num_entries := num_entries c; api_key := api_key c;
     proxy_manager := proxy_manager c; skip_missing_social := skip_missing_social c;
     is_running := is_running c; is_paused := is_paused c;
     request_count := request_count c; collected_count := collected_count c;
     skipped_count := skipped_count c; processed_count := processed_count c;
     max_to_process := max_to_process c; internet_connected := internet_connected c;
     consecutive_errors := consecutive_errors c; position := p;
     signals := signals c |}.

Definition set_is_running (b : bool) (c : collector) : collector :=
  {| search_query := search_query c; location := location c; state := state c;
     country := country c; num_entries := num_entries c; api_key := api_key c;
     proxy_manager := proxy_manager c; skip_missing_social := skip_missing_social c;
     is_running := b; is_paused := is_paused c;
     request_count := request_count c; collected_count := collected_count c;
     skipped_count := skipped_count c; processed_count := processed_count c;
     max_to_process := max_to_process c; internet_connected := internet_connected c;
     consecutive_errors := consecutive_errors c; position := position c;
     signals := signals c |}.

Definition set_is_paused (b : bool) (c : collector) : collector :=
  {| search_query := search_query c; location := location c; state := state c;
     country := country c; num_entries := num_entries c; api_key := api_key c;
     proxy_manager := proxy_manager c; skip_missing_social := skip_missing_social c;
     is_running := is_running c; is_paused := b;
     request_count := request_count c; collected_count := collected_count c;
     skipped_count := skipped_count c; processed_count := processed_count c;
     max_to_process := max_to_process c; internet_connected := internet_connected c;
     consecutive_errors := consecutive_errors c; position := position c;
     signals := signals c |}.

Definition set_internet_connected (b : bool) (c : collector) : collector :=
  {| search_query := search_query c; location := location c; state := state c;
     country := country c; num_entries := num_entries c; api_key := api_key c;
     proxy_manager := proxy_manager c; skip_missing_social := skip_missing_social c;
     is_running := is_running c; is_paused := is_paused c;
     request_count := request_count c; collected_count := collected_count c;
     skipped_count := skipped_count c; processed_count := processed_count c;
     max_to_process := max_to_process c; internet_connected := b;
     consecutive_errors := consecutive_errors c; position := position c;
     signals := signals c |}.

Definition add_counts (requests collected skipped processed errors : Z)
    (c : collector) : collector :=
  {| search_query := search_query c; location := location c; state := state c;
     country := country c; num_entries := num_entries c; api_key := api_key c;
     proxy_manager := proxy_manager c; skip_missing_social := skip_missing_social c;
     is_running := is_running c; is_paused := is_paused c;
     request_count := request_count c + requests;
     collected_count := collected_count c + collected;
     skipped_count := skipped_count c + skipped;
     processed_count := processed_count c + processed;
     max_to_process := max_to_process c; internet_connected := internet_connected c;
     consecutive_errors := consecutive_errors c + errors; position := position c;
     signals := signals c |}.

(** [rate_limit]: the request is counted (the sleep is not modelled). *)
Definition rate_limit (c : collector) : collector := add_counts 1 0 0 0 0 c.

(** The four keys every record gets from the run. *)
Definition tag (c : collector) (data : dict) : dict :=
  <["search_query" := VStr (search_query c)]> (<["state" := VStr (state c)]>
  (<["location" := VStr (location c)]> (<["country" := VStr (country c)]> data))).

Definition handle_data_ready (data : dict) (c : collector) : collector :=
  let data := tag c data in
  let c := emit (real_time_update data) c in
  let c := emit (data_collected data) c in
  let c := add_counts 0 1 0 0 0 c in
  emit progress_updated c.

(** [handle_worker_error]: the message of the worker goes out as a status. *)
Definition handle_worker_error (entry : Z) (c : collector) : collector :=
  emit (status_updated (WorkerError entry)) c.

Definition handle_entry_skipped (entry : Z) (name address : value)
    (c : collector) : collector :=
  emit (entry_skipped entry name address) (add_counts 0 0 1 0 0 c).

Definition set_connection_status (is_connected : bool) (c : collector) : collector :=
  emit (connection_status_changed is_connected) (set_internet_connected is_connected c).

Definition stop (c : collector) : collector := set_is_running false c.

(** The slot a worker's signal is connected to. *)
Definition deliver (s : worker_signal) (c : collector) : collector :=
  match s with
  | data_ready data => handle_data_ready data c
  | skipped entry name address => handle_entry_skipped entry name address c
  | error entry => handle_worker_error entry c
  end.

(** The record built in [collect_via_api] from a place and its details. *)
Definition api_record (c : collector) (pl : place) (det : dict) : dict :=
  let website := get det "website" (VStr NA) in
  <["image_path" := VStr (default NA (photo_path pl))]>
  (<["products_services" := VStr NA]>
  (<["hours" := VStr (weekday_text pl)]>
  (<["address" := formatted_address pl]>
  (<["instagram" := VStr NA]>
  (<["email" := if eq_str website NA then VStr NA else VStr (first_email pl)]>
  (<["website" := website]>
  (<["phone" := get det "formatted_phone_number" (VStr NA)]>
  (<["name" := get det "name" (VStr NA)]>
  (tag c ∅))))))))).

(** One step of the loop of [collect_via_api], on the next place. *)
Definition api_place (pl : place) (collected_count : Z) (c : collector)
    : collector * Z :=
  match place_id pl with
  | None => (c, collected_count)
  | Some id =>
      if String.eqb id "" then (c, collected_count) else
      let det := details pl in
      if bool_decide (det = ∅) then (c, collected_count) else
      let data := api_record c pl det in
      if skip_missing_social c && eq_str (get_none data "website") NA
         && eq_str (get_none data "instagram") NA
      then (emit (entry_skipped (collected_count + 1)
                    (get data "name" (VStr "Unknown"))
                    (get data "address" (VStr NA)))
              (add_counts 0 0 1 0 0 c), collected_count)
      else
        let c := emit (real_time_update data) c in
        let c := emit (data_collected data) c in
        let collected_count := (collected_count + 1)%Z in
        let c := emit progress_updated c in
        (emit (status_updated (CollectedViaApi collected_count (num_entries c))) c,
         collected_count)
  end.

(** What the browser and the network show during one step of the thread.
    [api_places] is the answer of [search_places]; [driver_ready] tells
    whether the driver starts and a result selector is found;
    [results] and [results_again] are the two calls of [find_elements]
    ([None]: the call raises); [load_more] is the answer of
    [load_more_results], [rotated] the one of [rotate_ip]. *)
Record observation := {
  api_places : list place;
  driver_ready : bool;
  results : option (list candidate);
  load_more : bool;
  results_again : option (list candidate);
  rotated : bool }.

(** The statements after the loop. *)
Definition after_loop (c : collector) : collector :=
  let c :=
    if (collected_count c <? num_entries c)%Z then
      let c := emit (status_updated (OnlyCollected (collected_count c) (num_entries c))) c in
      if skip_missing_social c then emit (status_updated ConsiderDisablingSkip) c else c
    else c in
  goto Exited (emit finished c).

(** The workers of one batch, started on [results[processed_count + i]] for
    [i < batch_size]; their signals are delivered in this order before the
    batch is counted.  The slots are run at once here: in the application
    they are queued to the thread that owns the collector and the wait for
    the workers is limited to 30 seconds, so the counters that the slots
    update can lag behind the loop; what is proved below of [exec] is stated
    of runs in which every signal is delivered within its batch. *)
Definition run_batch (batch : list candidate) (c : collector) : collector :=
  fst (foldl (fun '(c, result_index) cand =>
                (deliver (EntryWorker.run (skip_missing_social c) result_index
                            (element cand) (page cand)) c,
                 (result_index + 1)%Z))
             (c, processed_count c) batch).

Definition dispatch (o : observation) (found : list candidate) (c : collector)
    : collector :=
  let batch_size :=
    Z.min 4 (Z.min (Z.of_nat (length found) - processed_count c)
                   (max_to_process c - processed_count c)) in
  if (batch_size <=? 0)%Z then after_loop c else
  let c := emit (status_updated (ProcessingBatch batch_size)) c in
  let batch := take (Z.to_nat batch_size) (drop (Z.to_nat (processed_count c)) found) in
  let c := run_batch batch c in
  let c := add_counts 0 0 0 batch_size 0 c in
  let c := emit progress_updated c in
  let c := emit (status_updated (Processed (processed_count c) (collected_count c))) c in
  if proxy_manager c && (processed_count c mod 10 =? 0)%Z then
    let c := emit (status_updated RotatingIp) c in
    emit (proxy_rotated (rotated o)) c
  else c.

(** The [except] branch of the loop body. *)
Definition batch_failed (c : collector) : collector :=
  add_counts 0 0 0 0 1 (emit (status_updated ErrorProcessingBatch) c).

(** The [try] block of the loop body. *)
Definition loop_body (o : observation) (c : collector) : collector :=
  let c := rate_limit c in
  match results o with
  | None => batch_failed c
  | Some found =>
      if (processed_count c >=? Z.of_nat (length found))%Z then
        let c := emit (status_updated LoadingMore) c in
        if negb (load_more o)
        then after_loop (emit (status_updated NoMoreResults) c)
        else
          match results_again o with
          | None => batch_failed c
          | Some found =>
              if (processed_count c >=? Z.of_nat (length found))%Z
              then after_loop (emit (status_updated NoAdditionalResults) c)
              else dispatch o found c
          end
      else dispatch o found c
  end.

(** The condition of the [while]. *)
Definition loop_condition (c : collector) : bool :=
  (collected_count c <? num_entries c)%Z
  && (processed_count c <? max_to_process c)%Z
  && is_running c && (consecutive_errors c <? 3)%Z.

(** The start of the scraping path, up to the loop. *)
Definition start_scraping (o : observation) (c : collector) : collector :=
  let c := emit (status_updated InitializingDriver) c in
  if driver_ready o then
    let c := emit (status_updated Navigating) c in
    let c := emit (status_updated WaitingForResults) c in
    let c := emit (status_updated FoundResults) c in
    goto AtLoopTop (emit (status_updated StartingCollection) c)
  else goto Exited (emit error_occurred c).

Definition api_done (c : collector) : collector :=
  goto Exited (emit finished (emit (status_updated ApiCompleted) c)).

(** One step of the thread: the start of [run], one place of the API loop,
    one pass through the [while] (its test and its body), or one poll of
    the wait for the connection. *)
Definition thread_step (o : observation) (c : collector) : collector :=
  match position c with
  | AtStart =>
      let c := emit (status_updated Initializing) c in
      if api_key c then
        let c := emit (status_updated UsingApi) c in
        match api_places o with
        | [] => start_scraping o c
        | places => goto (InApi places 0) c
        end
      else start_scraping o c
  | InApi places collected =>
      match places with
      | [] => api_done c
      | pl :: rest =>
          if negb (is_running c) || (collected >=? num_entries c)%Z
          then api_done c
          else let '(c, collected) := api_place pl collected c in
               goto (InApi rest collected) c
      end
  | AtLoopTop =>
      if loop_condition c then
        if negb (internet_connected c) then
          let c := emit (status_updated ConnectionLost) c in
          goto WaitingForConnection (set_is_paused true c)
        else loop_body o c
      else after_loop c
  | WaitingForConnection =>
      if negb (internet_connected c) && is_running c then c
      else if negb (is_running c) then after_loop c
      else
        let c := emit (status_updated ConnectionRestored) c in
        goto AtLoopTop (set_is_paused false c)
  | Exited => c
  end.

(** The thread runs next to the window, which may change the connection
    status or ask it to stop between any two of its steps. *)
Inductive event :=
| thread (o : observation)
| connection (is_connected : bool)
| stop_requested.

Definition step (c : collector) (e : event) : collector :=
  match e with
  | thread o => thread_step o c
  | connection is_connected => set_connection_status is_connected c
  | stop_requested => stop c
  end.

Definition exec (c : collector) (events : list event) : collector :=
  foldl step c events.

(** The records handed to the window so far. *)
Definition emitted (c : collector) : list dict :=
  omap (fun s => match s with data_collected data => Some data | _ => None end)
       (signals c).

End DataCollectorThread.

(** ** [ui/main_window.py]: the slot that receives the records *)

Module MainWindow.

Record window := {
  unique_entries : gset (string * string);
  collected_data : list dict }.

Definition new_window : window := {| unique_entries := ∅; collected_data := [] |}.

(** [add_real_time_data]; [None] when the cleaning raises. *)
Definition add_real_time_data (data : dict) (w : window) : option window :=
  cleaned_data ← DataProcessor.clean_data_entry data;
  unique_key ← DataProcessor.unique_key cleaned_data;
  if decide (unique_key ∈ unique_entries w) then Some w
  else Some {| unique_entries := {[unique_key]} ∪ unique_entries w;
               collected_data := collected_data w ++ [cleaned_data] |}.

(** The slot called on each record of a stream; a call that raises adds
    nothing to the window.  Where an exception in a slot ends the
    application, the window holds what [receive] gives for the records
    before it. *)
Definition receive (w : window) (stream : list dict) : window :=
  foldl (fun w data => default w (add_real_time_data data w)) w stream.

End MainWindow.

(** ** Concrete inputs used by the examples below *)

Module Inputs.
Import EntryWorker DataCollectorThread.

(** A site whose only page reads [jane (at) shop.com]. *)
Definition spaced_at_site (url : string) : option EmailExtractor.page :=
  Some {| EmailExtractor.text := "jane (at) shop.com"; EmailExtractor.links := [] |}.

(** A result element found by no selector, with the given text. *)
Definition plain_element (text : string) : result_element :=
  {| find := fun _ => None; elem_text := Some text;
     click := fun _ => true; js_click := fun _ => true |}.

Definition newline : string := String "010" "".

(** A result element that shows its name, and the detail view of a shop
    with an address and, possibly, a website. *)
Definition shop_element (name : string) : result_element :=
  {| find := fun selector =>
       if String.eqb selector "div.fontHeadlineSmall" then Some name else None;
     elem_text := Some name; click := fun _ => true; js_click := fun _ => true |}.

Definition shop_page (name address : string) (site : option string) : detail_page :=
  {| h1_headline := Some name; h1_any := None; phone_label := None; tel_href := None;
     website_link := option_map Some site; other_link := None; site_emails := Some [];
     found_instagram := None;
     address_label := Some (Some ("Copy address " ++ address));
     body_medium := None; found_hours := NA; found_image_path := NA;
     found_products_services := NA |}.

Definition shop (name address : string) (site : option string) : candidate :=
  {| element := shop_element name; page := shop_page name address site |}.

(** What the thread sees in one step: the browser is ready, the result
    list is [found] ([None]: the lookup raises), nothing more can be loaded. *)
Definition sees (found : option (list candidate)) : observation :=
  {| api_places := []; driver_ready := true; results := found; load_more := false;
     results_again := None; rotated := false |}.

Definition four_shops : list candidate :=
  [shop "A" "1 Main St" (Some "http://a.example");
   shop "B" "2 Main St" (Some "http://b.example");
   shop "C" "3 Main St" (Some "http://c.example");
   shop "D" "4 Main St" (Some "http://d.example")].

Definition eight_shops : list candidate :=
  (four_shops ++
   [shop "E" "5 Main St" None; shop "F" "6 Main St" None;
    shop "G" "7 Main St" None; shop "H" "8 Main St" None])%list.

(** The same shop listed twice. *)
Definition twin_shops : list candidate :=
  [shop "Cafe  Luna" "1 Main St" None; shop "cafe luna" "1  Main St" None].

Definition scraper (num_entries : Z) (skip_missing_social : bool) : collector :=
  init "cafe" "Lagos" "Lagos" "Nigeria" num_entries false false skip_missing_social.

(** Four places of the API, each with a website, and a run that takes the
    API path over them. *)
Definition api_shop (name site : string) : place :=
  {| place_id := Some name;
     details := <["website" := VStr site]> (<["name" := VStr name]> ∅);
     formatted_address := VStr "1 Main St"; weekday_text := "[]";
     first_email := NA; photo_path := None |}.

Definition four_places : list place :=
  [api_shop "A" "http://a.example"; api_shop "B" "http://b.example";
   api_shop "C" "http://c.example"; api_shop "D" "http://d.example"].

Definition api_events : list event :=
  let o := {| api_places := four_places; driver_ready := true; results := None;
              load_more := false; results_again := None; rotated := false |} in
  [thread o; thread o; thread o; thread o].

Definition twin_events : list event :=
  [thread (sees (Some twin_shops)); thread (sees (Some twin_shops))].

(** A run over eight shops, the last four without website. *)
Definition skipping_events : list event :=
  [thread (sees (Some eight_shops)); thread (sees (Some eight_shops));
   thread (sees (Some eight_shops))].



(** An entry with a phone of ten digits. *)
Definition lagos_entry : dict :=
  <["phone" := VStr "803 123 4567"]> (<["name" := VStr " Cafe   Luna "]> ∅).

(** Three entries; the third repeats the first up to case and outer spaces. *)
Definition three_entries : list dict :=
  [ <["address" := VStr "1 Main St"]> (<["name" := VStr "Cafe Luna"]> ∅);
    <["address" := VStr "2 Main St"]> (<["name" := VStr "Bar Sol"]> ∅);
    <["address" := VStr "1 main st "]> (<["name" := VStr " cafe luna"]> ∅) ].

Definition three_keys : list (string * string) :=
  [("cafe luna", "1 main st"); ("bar sol", "2 main st"); ("cafe luna", "1 main st")].

(** A result element whose text is a name and the line [Suite 5]. *)
Definition suite_element : result_element :=
  plain_element ("Cafe" ++ newline ++ "Suite 5").

(** A result element whose text is a name, a rating and an address, and a
    detail view without address button that shows the same two lines. *)
Definition rated_element : result_element :=
  plain_element ("Cafe" ++ newline ++ "4.5 stars" ++ newline
                 ++ "12 Allen Avenue Ikeja Lagos").

Definition rated_page : detail_page :=
  {| h1_headline := Some "Cafe"; h1_any := None; phone_label := None;
     tel_href := None; website_link := None; other_link := None;
     site_emails := Some []; found_instagram := None; address_label := None;
     body_medium := Some ["4.5 stars"; "12 Allen Avenue Ikeja Lagos"];
     found_hours := NA; found_image_path := NA; found_products_services := NA |}.

(** Result elements with a digit in the first line only, and with a second
    line of five words without digit. *)
Definition numbered_name_element : result_element :=
  plain_element ("Cafe 24" ++ newline ++ "Open now").

Definition wordy_element : result_element :=
  plain_element ("Cafe" ++ newline ++ "Open every day until late").

(** A detail view without address button. *)
Definition allen_page : detail_page :=
  {| h1_headline := Some "Cafe Luna"; h1_any := None; phone_label := None;
     tel_href := None; website_link := None; other_link := None;
     site_emails := Some []; found_instagram := None; address_label := None;
     body_medium := Some ["Open 24 hours"; " 12 Allen Avenue Ikeja Lagos "];
     found_hours := NA; found_image_path := NA; found_products_services := NA |}.

(** A run of five passes in which the first, the third and the fifth
    lookup of the results raise and the two others succeed. *)
Definition alternating_events : list event :=
  [thread (sees None);
   thread (sees None); thread (sees (Some four_shops));
   thread (sees None); thread (sees (Some eight_shops));
   thread (sees None);
   thread (sees (Some eight_shops))].

(** The batches of a run in order: [true] for a batch that was dispatched,
    [false] for one that failed. *)
Definition batch_log (c : collector) : list bool :=
  omap (fun s => match s with
                 | status_updated ErrorProcessingBatch => Some false
                 | status_updated (ProcessingBatch _) => Some true
                 | _ => None
                 end) (signals c).

End Inputs.

(** ** Notions used to state the properties *)

Module Notions.
Import DataCollectorThread.

(** Words: non-empty and free of spaces. *)
Definition spaceless (w : string) : Prop := any_char is_space w = false.
Definition word (w : string) : Prop := w <> "" /\ spaceless w.

(** The dictionary built by [clean_data_entry] from the cleaned fields. *)
Definition cleaned_of (name phone email website instagram address
    country state location hours products_services image_path : value) : dict :=
  <["image_path" := image_path]> (<["products_services" := products_services]>
  (<["hours" := hours]> (<["location" := location]> (<["state" := state]>
  (<["country" := country]>
  (<["address" := address]> (<["instagram" := instagram]> (<["website" := website]>
  (<["email" := email]> (<["phone" := phone]> (<["name" := name]> ∅))))))))))).

(** The field [k] of [data] is a string, or [data] has no such field. *)
Definition str_or_absent (data : dict) (k : string) : Prop :=
  match data !! k with Some v => is_Some (as_str v) | None => True end.

(** A record with a website or an Instagram address. *)
Definition complete (data : dict) : Prop :=
  get_none data "website" <> VStr NA \/ get_none data "instagram" <> VStr NA.

(** The way from a state of the collector to a later one: the
    configuration is kept, no counter goes down, no signal is withdrawn, the
    attempt budget stays respected, and, when entries without website and
    Instagram are to be skipped, every record emitted on the way is complete. *)
Definition grows (c c' : collector) : Prop :=
  num_entries c' = num_entries c /\
  max_to_process c' = max_to_process c /\
  skip_missing_social c' = skip_missing_social c /\
  (collected_count c <= collected_count c')%Z /\
  (processed_count c <= processed_count c')%Z /\
  (skipped_count c <= skipped_count c')%Z /\
  (consecutive_errors c <= consecutive_errors c')%Z /\
  signals c `prefix_of` signals c' /\
  ((processed_count c <= max_to_process c)%Z ->
   (processed_count c' <= max_to_process c')%Z) /\
  (skip_missing_social c = true ->
   forall data, data ∈ emitted c' -> data ∈ emitted c \/ complete data).

(** The key under which the window files a record: the key of its cleaned
    form, the lowercased name and address with their spaces collapsed. *)
Definition dedup_key (data : dict) : option (string * string) :=
  DataProcessor.clean_data_entry data ≫= DataProcessor.unique_key.

(** The records kept by the window are filed under [keys]: pairwise
    different, and all registered in [unique_entries]. *)
Definition tidy (w : MainWindow.window) (keys : list (string * string)) : Prop :=
  Forall2 (fun data key => DataProcessor.unique_key data = Some key)
          (MainWindow.collected_data w) keys /\
  NoDup keys /\
  (forall key, key ∈ keys <-> key ∈ MainWindow.unique_entries w).



End Notions.

Import Notions.

(** ** More of [re]: substitution *)

Module RegexOps.
Import Regex.

(** [re.sub(r, repl, s)] for a replacement without group references: the
    matches are found as by [findall]; an empty match puts [repl] in front
    of the character it stands before. *)
Fixpoint sub_go (r : regex) (repl : string) (skip : nat) (prev : option ascii)
    (s : string) : string :=
  match s with
  | EmptyString =>
      match skip, match_here r prev s with
      | O, Some _ => repl
      | _, _ => EmptyString
      end
  | String c s' =>
      match skip with
      | S k => sub_go r repl k (Some c) s'
      | O =>
          match match_here r prev s with
          | Some rest =>
              match (String.length s - String.length rest)%nat with
              | O => repl ++ String c (sub_go r repl 0 (Some c) s')
              | S n => repl ++ sub_go r repl n (Some c) s'
              end
          | None => String c (sub_go r repl 0 (Some c) s')
          end
      end
  end.

Definition sub (r : regex) (repl s : string) : string := sub_go r repl 0 None s.

End RegexOps.

(** ** What a regular expression matches

    [denotes r prev w rest]: [r] matches the text [w] when [prev] is the
    character before it and [rest] the text after it. *)

Module RegexSemantics.
Import Regex.

(** The character before the position reached by reading [w]. *)
Fixpoint after (prev : option ascii) (w : string) : option ascii :=
  match w with
  | EmptyString => prev
  | String c w' => after (Some c) w'
  end.

Inductive denotes : regex -> option ascii -> string -> string -> Prop :=
| denotes_class p prev c rest :
    p c = true -> denotes (Class p) prev (String c "") rest
| denotes_boundary prev rest :
    xorb (is_word_opt prev) (is_word_opt (head rest)) = true ->
    denotes WordBoundary prev "" rest
| denotes_start rest : denotes Start None "" rest
| denotes_finish prev rest :
    rest = "" \/ rest = String "010" "" -> denotes Finish prev "" rest
| denotes_seq r1 r2 prev w1 w2 rest :
    denotes r1 prev w1 (w2 ++ rest) -> denotes r2 (after prev w1) w2 rest ->
    denotes (Seq r1 r2) prev (w1 ++ w2) rest
| denotes_star_stop r prev rest : denotes (Star r) prev "" rest
| denotes_star_round r prev w1 w2 rest :
    w1 <> "" -> denotes r prev w1 (w2 ++ rest) ->
    denotes (Star r) (after prev w1) w2 rest ->
    denotes (Star r) prev (w1 ++ w2) rest.

(** Every character of [s] is in the class [p]. *)
Fixpoint all_chars (p : ascii -> bool) (s : string) : bool :=
  match s with
  | EmptyString => true
  | String c s' => p c && all_chars p s'
  end.

End RegexSemantics.

(** ** The shape of an e-mail address *)

Module EmailShape.
Import Regex RegexSemantics EmailExtractor.

(** [local@domain.tld], possibly followed by one newline. *)
Definition email_shaped (s : string) : Prop :=
  exists l d t nl,
    s = l ++ "@" ++ d ++ "." ++ t ++ nl /\
    l <> "" /\ all_chars local_class l = true /\
    d <> "" /\ all_chars domain_class d = true /\
    (2 <= String.length t)%nat /\ all_chars is_alpha_az t = true /\
    (nl = "" \/ nl = String "010" "").

(** What is known of the addresses gathered so far. *)
Definition harvested (emails : list string) : Prop :=
  NoDup emails /\
  Forall (fun e => validate_email e = true /\ lower e = e) emails.

End EmailShape.

(** ** [utils/data_extraction.py]: DataExtractor *)

Module DataExtractor.
Import Regex RegexOps.

(** [\s+] *)
Definition spaces : regex := Plus (Class is_space).

(** [clean_text]: [re.sub(r"\s+", " ", s or "").strip()]; [None] stands for
    the TypeError of [re.sub] on a true value that is not a string. *)
Definition clean_text (s : value) : option string :=
  text ← as_str (if truthy s then s else VStr "");
  Some (strip (sub spaces " " text)).

End DataExtractor.

(** ** [core/data_processor.py]: validation *)

Module Validation.
Import DataProcessor.

(** The marker written over a field that fails its validation. *)
Definition INVALID : string := "N/A (Invalid)".

(** [validate_email_address]: [None] stands for the TypeError of [re.match]
    on a value that is not a string. *)
Definition validate_email_address (email : value) : option bool :=
  if negb (truthy email) || eq_str email NA then Some false
  else s ← as_str email; Some (EmailExtractor.validate_email s).

Section Validators.
(** What [phonenumbers] says of a string (parsed without region, then
    checked; [false] when parsing raises) and whether a HEAD request to an
    address is answered with a status below 400 ([false] when it raises). *)
Variable phone_valid : string -> bool.
Variable site_reachable : string -> bool.

(** [validate_phone_number] and [validate_website_url]: any exception is
    caught and gives [False]. *)
Definition validate_phone_number (phone : value) : bool :=
  if truthy phone && negb (eq_str phone NA)
  then match phone with VStr s => phone_valid s | _ => false end
  else false.

Definition validate_website_url (website : value) : bool :=
  if negb (truthy website) || eq_str website NA then false
  else match website with VStr s => site_reachable s | _ => false end.

(** The body of the loop of [validate_data], on one item. *)
Definition validate_item (settings : dict) (item : dict) : option dict :=
  let validated_item := item in
  let validated_item :=
    if truthy (get_none settings "validate_phone")
       && negb (eq_str (get_none item "phone") NA)
    then if negb (validate_phone_number (get_none item "phone"))
         then <["phone" := VStr INVALID]> validated_item else validated_item
    else validated_item in
  validated_item ←
    (if truthy (get_none settings "validate_email")
        && negb (eq_str (get_none item "email") NA)
     then valid ← validate_email_address (get_none item "email");
          Some (if negb valid then <["email" := VStr INVALID]> validated_item
                else validated_item)
     else Some validated_item);
  let validated_item :=
    if truthy (get_none settings "validate_website")
       && negb (eq_str (get_none item "website") NA)
    then if negb (validate_website_url (get_none item "website"))
         then <["website" := VStr INVALID]> validated_item else validated_item
    else validated_item in
  Some validated_item.

Definition validate_data (data : list dict) (settings : dict) : option (list dict) :=
  mapM (validate_item settings) data.

End Validators.

End Validation.

(** ** [utils/network.py]: ProxyManager, and [test_proxies] of the window *)

Module ProxyManager.

(** [current_proxy_index] starts at 0 and is only ever set to a remainder,
    so it is a natural number; [tor_process] tells whether a Tor process is
    held. *)
Record manager := {
  proxies : list string;
  current_proxy_index : nat;
  tor_process : bool }.

Definition set_proxies (l : list string) (m : manager) : manager :=
  {| proxies := l; current_proxy_index := current_proxy_index m;
     tor_process := tor_process m |}.

(** [get_next_proxy]: the outer [None] stands for the IndexError of
    [self.proxies[self.current_proxy_index]], the inner one for the
    returned [None]. *)
Definition get_next_proxy (m : manager) : option (option string * manager) :=
  match proxies m with
  | [] => Some (None, m)
  | _ =>
      proxy ← proxies m !! current_proxy_index m;
      Some (Some proxy,
            {| proxies := proxies m;
               current_proxy_index :=
                 (current_proxy_index m + 1) mod length (proxies m);
               tor_process := tor_process m |})
  end.

(** [k] calls of [get_next_proxy] in a row, with what they return. *)
Fixpoint get_next_proxies (k : nat) (m : manager)
    : option (list (option string) * manager) :=
  match k with
  | O => Some ([], m)
  | S k' =>
      '(proxy, m) ← get_next_proxy m;
      '(rest, m) ← get_next_proxies k' m;
      Some (proxy :: rest, m)
  end.

(** [[line.strip() for line in f if line.strip()]] *)
Definition proxy_lines (lines : list string) : list string :=
  omap (fun line => let l := strip line in
                    if String.eqb l "" then None else Some l) lines.

Definition tor_address : string := "127.0.0.1:9050".

(** [load_proxies]: [file] holds the lines of the proxy file when a file is
    given and exists, [fetched] the addresses of the free list when the
    request for it succeeds; [tor_available] is the constant
    [TOR_AVAILABLE]. *)
Definition load_proxies (file fetched : option (list string)) (tor_available : bool)
    (m : manager) : bool * manager :=
  let m :=
    match file with
    | Some lines => set_proxies (proxy_lines lines) m
    | None =>
        match fetched with
        | Some addresses => set_proxies addresses m
        | None => m
        end
    end in
  let m := if tor_available then set_proxies (proxies m ++ [tor_address]) m else m in
  ((0 <? length (proxies m))%nat, m).

(** [test_proxies] of the main window; [works] holds the outcome of
    [test_proxy] for each proxy, in the order of the list ([false] where
    the list of outcomes is short). *)
Fixpoint working_proxies (l : list string) (works : list bool) : list string :=
  match l, works with
  | proxy :: l', w :: works' =>
      if w then proxy :: working_proxies l' works' else working_proxies l' works'
  | _, _ => []
  end.

Definition test_proxies (works : list bool) (m : manager) : manager :=
  match proxies m with
  | [] => m
  | _ =>
      match working_proxies (proxies m) works with
      | [] => m
      | working => set_proxies working m
      end
  end.

End ProxyManager.

(** ** [core/web_scraping.py]: the links of a result page *)

Module WebScraping.







End WebScraping.

(** ** [ui/main_window.py]: refreshing, cleaning and validating the table *)

Module WindowOps.
Import DataProcessor MainWindow Validation.

(** [clear_data] *)
Definition clear_data (w : window) : window :=
  {| unique_entries := ∅; collected_data := [] |}.

(** [add_real_time_data] on each record in turn; the first call that raises
    ends the loop ([None]). *)
Fixpoint add_all (w : window) (data : list dict) : option window :=
  match data with
  | [] => Some w
  | d :: rest => w' ← add_real_time_data d w; add_all w' rest
  end.

(** [refresh_table] *)
Definition refresh_table (w : window) : option window :=
  let current_data := collected_data w in
  add_all (clear_data w) current_data.

(** The loop of [clean_data]. *)
Fixpoint clean_loop (unique_entries : gset (string * string))
    (cleaned_data : list dict) (cleaned_count : Z) (data : list dict)
    : option (gset (string * string) * list dict * Z) :=
  match data with
  | [] => Some (unique_entries, cleaned_data, cleaned_count)
  | d :: rest =>
      cleaned_entry ← clean_data_entry d;
      unique_key ← unique_key cleaned_entry;
      if decide (unique_key ∈ unique_entries)
      then clean_loop unique_entries cleaned_data cleaned_count rest
      else clean_loop ({[unique_key]} ∪ unique_entries)
                      (cleaned_data ++ [cleaned_entry]) (cleaned_count + 1) rest
  end.

(** What [clean_data] tells the user at its end. *)
Record cleaning_report := { total_entries : Z; removed_duplicates : Z }.

(** [clean_data]: the window it leaves and its report; no report when there
    is no data; [None] when a cleaning raises. *)
Definition clean_data (w : window) : option (window * option cleaning_report) :=
  match collected_data w with
  | [] => Some (w, None)
  | _ =>
      '(unique_entries, cleaned_data, cleaned_count) ←
        clean_loop ∅ [] 0 (collected_data w);
      w ← refresh_table {| unique_entries := unique_entries;
                           collected_data := cleaned_data |};
      let removed_count := (Z.of_nat (length (collected_data w)) - cleaned_count)%Z in
      Some (w, Some {| total_entries := cleaned_count;
                       removed_duplicates := removed_count |})
  end.

Section WindowValidators.
Variable phone_valid : string -> bool.
Variable site_reachable : string -> bool.

(** The body of the loop of the window's [validate_data], on one record:
    the marker is written into the record itself. *)
Definition validate_entry (settings : dict) (data : dict) : option dict :=
  let data' :=
    if truthy (get_none settings "validate_phone")
       && negb (eq_str (get_none data "phone") NA)
    then if match get_none data "phone" with VStr s => phone_valid s | _ => false end
         then data else <["phone" := VStr INVALID]> data
    else data in
  data' ←
    (if truthy (get_none settings "validate_email")
        && negb (eq_str (get_none data "email") NA)
     then email ← as_str (get_none data "email");
          Some (if EmailExtractor.validate_email email then data'
                else <["email" := VStr INVALID]> data')
     else Some data');
  Some (if truthy (get_none settings "validate_website")
           && negb (eq_str (get_none data "website") NA)
        then if match get_none data "website" with
                | VStr s => site_reachable s
                | _ => false
                end
             then data' else <["website" := VStr INVALID]> data'
        else data').

(** [validate_data] of the window: the records are marked, then the table
    is refreshed; [None] when a step raises. *)
Definition validate_data (settings : dict) (w : window) : option window :=
  match collected_data w with
  | [] => Some w
  | _ =>
      marked ← mapM (validate_entry settings) (collected_data w);
      refresh_table {| unique_entries := unique_entries w; collected_data := marked |}
  end.

End WindowValidators.

End WindowOps.

(** ** Notions about whole runs of the collector *)

Module RunNotions.
Import DataCollectorThread.

(** The records sent to the table as they arrive, and the number of skip
    reports among the signals. *)
Definition shown (c : collector) : list dict :=
  omap (fun s => match s with real_time_update data => Some data | _ => None end)
       (signals c).

Definition skip_reports (c : collector) : nat :=
  length (omap (fun s => match s with
                         | entry_skipped entry _ _ => Some entry
                         | _ => None
                         end) (signals c)).

(** A signal that carries neither a record nor a skip report. *)
Definition plain (s : signal) : Prop :=
  match s with
  | real_time_update _ | data_collected _ | entry_skipped _ _ _ => False
  | _ => True
  end.

(** The steps of the thread among the events. *)
Definition thread_steps (events : list event) : nat :=
  length (omap (fun e => match e with thread o => Some o | _ => None end) events).

(** The thread is in the loop over the places of the API. *)
Definition in_api (p : phase) : bool :=
  match p with InApi _ _ => true | _ => false end.

(** The fields of a record handed over by the thread, and those of a record
    after cleaning. *)
Definition record_fields : list string :=
  ["name"; "phone"; "website"; "email"; "instagram"; "address"; "hours";
   "image_path"; "products_services"; "country"; "location"; "state";
   "search_query"].

Definition cleaned_fields : list string :=
  ["name"; "phone"; "email"; "website"; "instagram"; "address"; "country";
   "state"; "location"; "hours"; "products_services"; "image_path"].

(** The counters agree with the signals emitted so far, up to their values
    [s0] and [n0] at the start. *)
Definition tallied (s0 : Z) (c : collector) : Prop :=
  shown c = emitted c /\
  skipped_count c = (s0 + Z.of_nat (skip_reports c))%Z.

(** Without the API path every record handed over is counted. *)
Definition counted (n0 : Z) (c : collector) : Prop :=
  api_key c = false /\ in_api (position c) = false /\
  collected_count c = (n0 + Z.of_nat (length (emitted c)))%Z.

(** With the API path the counter can only lag behind. *)
Definition at_most_counted (n0 : Z) (c : collector) : Prop :=
  (collected_count c <= n0 + Z.of_nat (length (emitted c)))%Z.

(** Every record handed over so far has exactly the fields [record_fields]. *)
Definition fielded (c : collector) : Prop :=
  Forall (fun data : dict => dom data = list_to_set record_fields) (emitted c).

(** The passes the loop can still make: each pass that does not leave the
    loop uses up attempts or counts an error. *)
Definition passes_left (c : collector) : nat :=
  (Z.to_nat (max_to_process c - processed_count c)
   + Z.to_nat (3 - consecutive_errors c))%nat.

(** A bound on the steps the thread still takes on the scraping path. *)
Definition steps_left (c : collector) : nat :=
  match position c with
  | AtStart => passes_left c + 2
  | AtLoopTop => passes_left c + 1
  | _ => 0
  end.


(** The steps the thread still takes on the API path. *)
Definition api_steps_left (c : collector) : nat :=
  match position c with
  | InApi places _ => length places + 1
  | _ => 0
  end.

(** On the scraping path with the connection up, every step of the thread
    brings the end nearer and no other event moves it away. *)
Definition scraping (c : collector) : Prop :=
  internet_connected c = true /\
  match position c with
  | AtStart => api_key c = false
  | AtLoopTop | Exited => True
  | _ => False
  end.

(** The thread is on the API path, or has left [run] through it. *)
Definition on_api_path (c : collector) : Prop :=
  in_api (position c) = true \/ (position c = Exited /\ finished ∈ signals c).

(** A signal of the scraping path: the start of the web driver or of a
    batch. *)
Definition of_scraping (s : signal) : Prop :=
  match s with
  | status_updated InitializingDriver | status_updated (ProcessingBatch _) => True
  | _ => False
  end.

(** What holds of a run on the API path. *)
Definition api_only (c : collector) : Prop :=
  on_api_path c /\ Forall (fun s => ~ of_scraping s) (signals c) /\
  collected_count c = 0%Z.

End RunNotions.

(** ** Notions about the window *)

Module WindowNotions.
Import DataProcessor MainWindow Validation.

(** The records of the window are cleaned and filed under [keys]. *)
Definition settled (w : window) (keys : list (string * string)) : Prop :=
  tidy w keys /\
  Forall (fun data => clean_data_entry data = Some data) (collected_data w).

(** None of the three validated fields holds the marker. *)
Definition unmarked (data : dict) : Prop :=
  get_none data "phone" <> VStr INVALID /\
  get_none data "email" <> VStr INVALID /\
  get_none data "website" <> VStr INVALID.

(** A record with the marker in some of the three fields. *)
Definition marked (fp fe fw : bool) (d : dict) : dict :=
  (if fw then <["website" := VStr INVALID]> else id)
    ((if fe then <["email" := VStr INVALID]> else id)
       ((if fp then <["phone" := VStr INVALID]> else id) d)).

(** The six fields of a record that the cleaning reads as strings. *)
Definition main_fields (data : dict) (name phone email website instagram address : value)
    : Prop :=
  data !! "name" = Some name /\ data !! "phone" = Some phone /\
  data !! "email" = Some email /\ data !! "website" = Some website /\
  data !! "instagram" = Some instagram /\ data !! "address" = Some address.

End WindowNotions.

(** ** More concrete inputs *)

Module FurtherInputs.
Import EntryWorker DataCollectorThread MainWindow Inputs ProxyManager.

(** Ten passes of a run: the seven of [alternating_events], then three over
    eight shops. *)
Definition ten_passes : list event := (alternating_events ++ skipping_events)%list.

(** What the thread sees when the API answers with four places. *)
Definition api_answer : observation :=
  {| api_places := four_places; driver_ready := true; results := None;
     load_more := false; results_again := None; rotated := false |}.

(** A manager of three proxies that has handed out two of them. *)
Definition rotated_manager : manager :=
  {| proxies := ["10.0.0.1:8080"; "10.0.0.2:8080"; "10.0.0.3:8080"];
     current_proxy_index := 2; tor_process := false |}.

(** Two items, one with a well-formed e-mail address and one without. *)
Definition mail_entries : list dict :=
  [ <["email" := VStr "jane@shop.com"]> (<["name" := VStr "Cafe Luna"]> ∅);
    <["email" := VStr "jane at shop"]> (<["name" := VStr "Bar Sol"]> ∅) ].

(** Settings that switch on the validation of e-mails only. *)
Definition mail_settings : dict := <["validate_email" := VBool true]> ∅.

(** A window whose table holds [three_entries] as they are. *)
Definition raw_window : window :=
  {| unique_entries := ∅; collected_data := three_entries |}.

(** The detail view of a shop whose website link has no [href]. *)
Definition no_href_page : detail_page :=
  {| h1_headline := Some "Cafe Luna"; h1_any := None; phone_label := None;
     tel_href := None; website_link := Some None; other_link := None;
     site_emails := Some []; found_instagram := None;
     address_label := Some (Some "Copy address 1 Main St");
     body_medium := None; found_hours := NA; found_image_path := NA;
     found_products_services := NA |}.

(** The record that a signal of a worker carries, if any. *)
Definition handed_over (r : worker_signal) : option dict :=
  match r with data_ready data => Some data | _ => None end.

End FurtherInputs.

#[local] Arguments String.append : simpl nomatch.

(** * Properties *)

(** ** Strings *)

Module PyStrFacts.

Ltac by_char c := destruct c as [[] [] [] [] [] [] [] []]; vm_compute; reflexivity.

Lemma is_space_lower_char c : is_space (lower_char c) = is_space c.
Proof. by_char c. Qed.

Lemma lower_char_idem c : lower_char (lower_char c) = lower_char c.
Proof. by_char c. Qed.

Lemma app_nil_r (s : string) : s ++ "" = s.
Proof. induction s as [|c s IH]; simpl; congruence. Qed.

Lemma app_assoc (a b c : string) : (a ++ b) ++ c = a ++ (b ++ c).
Proof. induction a as [|x a IH]; simpl; congruence. Qed.

Lemma lower_idem s : lower (lower s) = lower s.
Proof. induction s as [|c s IH]; simpl; [|rewrite lower_char_idem, IH]; reflexivity. Qed.

Lemma lstrip_idem s : lstrip (lstrip s) = lstrip s.
Proof.
  induction s as [|c s IH]; simpl; [reflexivity|].
  destruct (is_space c) eqn:E; [exact IH|]. simpl. now rewrite E.
Qed.

(** A right-stripped string stays so when its first character goes. *)
Lemma rstrip_tail c s : rstrip (String c s) = String c s -> rstrip s = s.
Proof.
  simpl. destruct (rstrip s) as [|d r] eqn:E.
  - destruct (is_space c); [discriminate|]. intros [= <-]. reflexivity.
  - intros [= <-]. reflexivity.
Qed.

Lemma rstrip_idem s : rstrip (rstrip s) = rstrip s.
Proof.
  induction s as [|c s IH]; simpl; [reflexivity|].
  destruct (rstrip s) as [|d r] eqn:E.
  - destruct (is_space c) eqn:Ec; simpl; [reflexivity|now rewrite Ec].
  - change (rstrip (String c (String d r))) with
      (match rstrip (String d r) with
       | "" => if is_space c then "" else String c ""
       | x => String c x end).
    now rewrite IH.
Qed.

Lemma rstrip_lstrip s : rstrip (lstrip s) = lstrip (rstrip s).
Proof.
  induction s as [|c s IH]; simpl; [reflexivity|].
  destruct (is_space c) eqn:Ec.
  - rewrite IH. destruct (rstrip s) as [|d r]; simpl; now rewrite ?Ec.
  - simpl. destruct (rstrip s) as [|d r]; simpl; now rewrite Ec.
Qed.

Lemma strip_idem s : strip (strip s) = strip s.
Proof.
  unfold strip. rewrite rstrip_lstrip, rstrip_idem, lstrip_idem. reflexivity.
Qed.

Lemma rstrip_strip s : rstrip (strip s) = strip s.
Proof. unfold strip. now rewrite rstrip_lstrip, rstrip_idem. Qed.

Lemma lstrip_lower s : lstrip (lower s) = lower (lstrip s).
Proof.
  induction s as [|c s IH]; simpl; [reflexivity|].
  rewrite is_space_lower_char. destruct (is_space c); [exact IH|reflexivity].
Qed.

Lemma rstrip_lower s : rstrip (lower s) = lower (rstrip s).
Proof.
  induction s as [|c s IH]; simpl; [reflexivity|].
  rewrite IH, is_space_lower_char.
  destruct (rstrip s); simpl; [destruct (is_space c)|]; reflexivity.
Qed.

Lemma strip_lower s : strip (lower s) = lower (strip s).
Proof. unfold strip. now rewrite rstrip_lower, lstrip_lower. Qed.

(** Appending a right-stripped string to a non-empty right-stripped one. *)
Lemma rstrip_app p x :
  p <> "" -> rstrip p = p -> rstrip x = x -> rstrip (p ++ x) = p ++ x.
Proof.
  induction p as [|c p IH]; [congruence|]. intros _ Hp Hx.
  destruct p as [|d p].
  - simpl in *. rewrite Hx. destruct x; [|reflexivity].
    destruct (is_space c); [discriminate|reflexivity].
  - assert (Hd : rstrip (String d p ++ x) = String d p ++ x).
    { apply IH; [discriminate| |exact Hx]. exact (rstrip_tail _ _ Hp). }
    change (rstrip (String c (String d p) ++ x)) with
      (match rstrip (String d p ++ x) with
       | "" => if is_space c then "" else String c ""
       | r => String c r end).
    rewrite Hd. reflexivity.
Qed.

Lemma spaceless_snoc w c : spaceless w -> is_space c = false -> spaceless (w ++ String c "").
Proof.
  unfold spaceless. induction w as [|d w IH]; simpl; intros Hw Hc.
  - now rewrite Hc.
  - apply orb_false_iff in Hw as [-> Hw]. simpl. now apply IH.
Qed.

Lemma snoc_nonempty (w : string) c : w ++ String c "" <> "".
Proof. destruct w; discriminate. Qed.

Lemma split_go_words w s :
  spaceless w -> Forall word (split_go w s).
Proof.
  revert w. induction s as [|c s IH]; intros w Hw; simpl.
  - destruct w; constructor; [split; [discriminate|exact Hw]|constructor].
  - destruct (is_space c) eqn:Ec.
    + destruct w.
      * apply IH. reflexivity.
      * constructor; [split; [discriminate|exact Hw]|]. apply IH. reflexivity.
    + apply IH. now apply spaceless_snoc.
Qed.

Lemma split_words s : Forall word (split s).
Proof. apply split_go_words. reflexivity. Qed.

(** Reading a whole word moves it to the accumulator. *)
Lemma split_go_app acc w rest :
  spaceless w -> split_go acc (w ++ rest) = split_go (acc ++ w) rest.
Proof.
  revert acc. induction w as [|c w IH]; intros acc Hw; simpl.
  - now rewrite app_nil_r.
  - unfold spaceless in Hw. simpl in Hw. apply orb_false_iff in Hw as [Hc Hw].
    rewrite Hc, IH by exact Hw. now rewrite app_assoc.
Qed.

Lemma split_join ws : Forall word ws -> split (join " " ws) = ws.
Proof.
  induction 1 as [|w ws [Hne Hw] Hws IH]; [reflexivity|].
  unfold split in *. destruct ws as [|w2 ws].
  - simpl. rewrite <- (app_nil_r w) at 1. rewrite split_go_app by exact Hw.
    simpl. destruct w; [congruence|reflexivity].
  - change (join " " (w :: w2 :: ws)) with (w ++ " " ++ join " " (w2 :: ws)).
    rewrite split_go_app by exact Hw.
    destruct w as [|c w]; [congruence|].
    change (String c w :: split_go "" (join " " (w2 :: ws)) = String c w :: w2 :: ws).
    now rewrite IH.
Qed.

Lemma split_lstrip s : split (lstrip s) = split s.
Proof.
  unfold split. induction s as [|c s IH]; simpl; [reflexivity|].
  destruct (is_space c) eqn:Ec; [exact IH|]. simpl. now rewrite Ec.
Qed.

Lemma split_go_blank w s :
  rstrip s = "" -> split_go w s = match w with "" => [] | _ => [w] end.
Proof.
  revert w. induction s as [|c s IH]; intros w; simpl; [reflexivity|].
  destruct (rstrip s) eqn:E; [|discriminate].
  destruct (is_space c); [|discriminate]. intros _.
  rewrite (IH "" eq_refl). destruct w; reflexivity.
Qed.

Lemma split_go_rstrip w s : split_go w (rstrip s) = split_go w s.
Proof.
  revert w. induction s as [|c s IH]; intros w; [reflexivity|].
  simpl. destruct (rstrip s) as [|d r] eqn:E.
  - destruct (is_space c) eqn:Ec; simpl.
    + rewrite (split_go_blank "" s E). destruct w; reflexivity.
    + rewrite Ec. simpl. rewrite (split_go_blank _ s E).
      destruct (w ++ String c "") eqn:E'; [|reflexivity].
      now destruct (snoc_nonempty w c).
  - simpl. destruct (is_space c) eqn:Ec; rewrite <- !IH; simpl; reflexivity.
Qed.

Lemma split_strip s : split (strip s) = split s.
Proof. unfold strip. rewrite split_lstrip. apply split_go_rstrip. Qed.

(** Collapsing the spaces of a string twice is collapsing them once. *)
Lemma collapse_idem s :
  join " " (split (strip (join " " (split (strip s))))) = join " " (split (strip s)).
Proof. now rewrite split_strip, split_join by apply split_words. Qed.

Lemma filter_length p s : (String.length (filter_chars p s) <= String.length s)%nat.
Proof. induction s as [|c s IH]; simpl; [lia|destruct (p c); simpl; lia]. Qed.

Lemma filter_idem p s : filter_chars p (filter_chars p s) = filter_chars p s.
Proof.
  induction s as [|c s IH]; simpl; [reflexivity|].
  destruct (p c) eqn:E; simpl; [rewrite E, IH|]; auto.
Qed.

Lemma filter_app p a b : filter_chars p (a ++ b) = filter_chars p a ++ filter_chars p b.
Proof. induction a as [|c a IH]; simpl; [reflexivity|]. destruct (p c); simpl; now rewrite IH. Qed.

Lemma slice_from_all s : slice_from 0 s = s.
Proof. destruct s; reflexivity. Qed.

End PyStrFacts.

(** ** Cleaning and de-duplication *)

Module DataProcessorFacts.
Import PyStrFacts DataProcessor.

Lemma clean_data_entry_eq data :
  clean_data_entry data =
    name ← clean_spaced (get data "name" (VStr NA));
    phone ← clean_phone (get data "phone" (VStr NA));
    email ← clean_email (get data "email" (VStr NA));
    website ← clean_website (get data "website" (VStr NA));
    instagram ← clean_instagram (get data "instagram" (VStr NA));
    address ← clean_spaced (get data "address" (VStr NA));
    Some (cleaned_of name phone email website instagram address
            (clean_other (get data "country" (VStr NA)))
            (clean_other (get data "state" (VStr NA)))
            (clean_other (get data "location" (VStr NA)))
            (clean_other (get data "hours" (VStr NA)))
            (clean_other (get data "products_services" (VStr NA)))
            (clean_other (get data "image_path" (VStr NA)))).
Proof. reflexivity. Qed.

Lemma get_cleaned_of n p e w i a c s l h ps ip dflt :
  let d := cleaned_of n p e w i a c s l h ps ip in
  get d "name" dflt = n /\ get d "phone" dflt = p /\ get d "email" dflt = e /\
  get d "website" dflt = w /\ get d "instagram" dflt = i /\
  get d "address" dflt = a /\ get d "country" dflt = c /\ get d "state" dflt = s /\
  get d "location" dflt = l /\ get d "hours" dflt = h /\
  get d "products_services" dflt = ps /\ get d "image_path" dflt = ip.
Proof. repeat split; reflexivity. Qed.

Lemma eq_str_true v s : eq_str v s = true -> v = VStr s.
Proof.
  destruct v; simpl; try discriminate. intros H. apply String.eqb_eq in H. now subst.
Qed.

(** A cleaner that keeps "N/A" and maps any other string by [f] leaves its
    own results alone as soon as [f] does. *)
Lemma guarded_idem (f : string -> string) v v' :
  (forall s, f (f s) = f s) ->
  (if eq_str v NA then Some v else s ← as_str v; Some (VStr (f s))) = Some v' ->
  (if eq_str v' NA then Some v' else s ← as_str v'; Some (VStr (f s))) = Some v'.
Proof.
  intros Hf. destruct (eq_str v NA) eqn:E.
  - intros [= <-]. now rewrite E.
  - destruct v as [s| | |]; simpl; try discriminate. intros [= <-]. simpl.
    destruct (String.eqb (f s) NA); [reflexivity|]. now rewrite Hf.
Qed.

Lemma clean_spaced_idem v v' : clean_spaced v = Some v' -> clean_spaced v' = Some v'.
Proof.
  apply (guarded_idem (fun s => join " " (split (strip s)))).
  intros s. apply collapse_idem.
Qed.

Lemma clean_email_idem v v' : clean_email v = Some v' -> clean_email v' = Some v'.
Proof.
  apply (guarded_idem (fun s => lower (strip s))).
  intros s. now rewrite strip_lower, strip_idem, lower_idem.
Qed.

Lemma phone_chars_idem s : phone_chars (phone_chars s) = phone_chars s.
Proof. apply filter_idem. Qed.

Lemma last_n_whole s n : String.length s = n -> last_n n s = s.
Proof. intros <-. unfold last_n. rewrite Nat.sub_diag. apply slice_from_all. Qed.

Lemma with_country_code_idem s :
  with_country_code (with_country_code s) = with_country_code s.
Proof.
  unfold with_country_code. set (phone := phone_chars s).
  assert (Hp : forall x, phone_chars ("+234" ++ x) = "+234" ++ phone_chars x)
    by (intros x; reflexivity).
  destruct (negb (String.eqb phone "") && negb (startswith phone "+")
            && (10 <=? String.length phone)%nat) eqn:C.
  - destruct (String.length phone =? 10)%nat eqn:L.
    + apply Nat.eqb_eq in L. rewrite (last_n_whole _ _ L), Hp.
      unfold phone. rewrite phone_chars_idem. reflexivity.
    + rewrite Hp. unfold phone. rewrite phone_chars_idem. reflexivity.
  - unfold phone in *. rewrite phone_chars_idem, C. reflexivity.
Qed.

Lemma clean_phone_idem v v' : clean_phone v = Some v' -> clean_phone v' = Some v'.
Proof. apply (guarded_idem with_country_code), with_country_code_idem. Qed.

Lemma strip_scheme p w :
  p <> "" -> rstrip p = p -> lstrip (p ++ w) = p ++ w -> rstrip w = w ->
  strip (p ++ w) = p ++ w.
Proof. intros Hp Hr Hl Hw. unfold strip. now rewrite rstrip_app. Qed.

Lemma prefix_nil s : String.prefix "" s = true.
Proof. destruct s; reflexivity. Qed.

Lemma has_scheme_https s : has_scheme ("https://" ++ s) = true.
Proof. unfold has_scheme, startswith. cbn. now rewrite prefix_nil. Qed.

Lemma has_scheme_instagram s : has_scheme ("https://instagram.com/" ++ s) = true.
Proof. apply (has_scheme_https ("instagram.com/" ++ s)). Qed.

Lemma clean_website_idem v v' : clean_website v = Some v' -> clean_website v' = Some v'.
Proof.
  apply (guarded_idem (fun s => if has_scheme (strip s) then strip s
                                else "https://" ++ strip s)).
  intros s. destruct (has_scheme (strip s)) eqn:S.
  - now rewrite strip_idem, S.
  - rewrite (strip_scheme "https://") by
      (try discriminate; try reflexivity; apply rstrip_strip).
    now rewrite has_scheme_https.
Qed.

Lemma rstrip_slice_from_1 s : rstrip s = s -> rstrip (slice_from 1 s) = slice_from 1 s.
Proof. destruct s as [|c s]; [reflexivity|]. apply rstrip_tail. Qed.

Lemma clean_instagram_idem v v' :
  clean_instagram v = Some v' -> clean_instagram v' = Some v'.
Proof.
  apply (guarded_idem (fun s =>
           if has_scheme (strip s) then strip s
           else if startswith (strip s) "@"
                then "https://instagram.com/" ++ slice_from 1 (strip s)
                else "https://instagram.com/" ++ strip s)).
  intros s. destruct (has_scheme (strip s)) eqn:S.
  - now rewrite strip_idem, S.
  - destruct (startswith (strip s) "@");
      rewrite (strip_scheme "https://instagram.com/") by
        (try discriminate; try reflexivity;
         try apply rstrip_slice_from_1; apply rstrip_strip);
      now rewrite has_scheme_instagram.
Qed.

Lemma clean_other_idem v : clean_other (clean_other v) = clean_other v.
Proof.
  destruct v as [s| | |]; try reflexivity. simpl.
  destruct (String.eqb s NA) eqn:E; simpl; [now rewrite E|].
  destruct (String.eqb (strip s) NA) eqn:E'; [reflexivity|now rewrite strip_idem].
Qed.

(** C9.  [clean_data_entry] is idempotent: cleaning the result of a cleaning
    gives that result again, every field included; when the first cleaning
    raises (a field that must be a string is not one), so does the
    composition. *)
Theorem clean_data_entry_idempotent (data : dict) :
  clean_data_entry data ≫= clean_data_entry = clean_data_entry data.
Proof.
  rewrite (clean_data_entry_eq data).
  destruct (clean_spaced (get data "name" (VStr NA))) as [n|] eqn:Hn; [|reflexivity].
  destruct (clean_phone (get data "phone" (VStr NA))) as [p|] eqn:Hp; [|reflexivity].
  destruct (clean_email (get data "email" (VStr NA))) as [e|] eqn:He; [|reflexivity].
  destruct (clean_website (get data "website" (VStr NA))) as [w|] eqn:Hw; [|reflexivity].
  destruct (clean_instagram (get data "instagram" (VStr NA))) as [i|] eqn:Hi;
    [|reflexivity].
  destruct (clean_spaced (get data "address" (VStr NA))) as [a|] eqn:Ha; [|reflexivity].
  cbn [mbind option_bind].
  rewrite clean_data_entry_eq.
  match goal with
  | |- context [get (cleaned_of ?n ?p ?e ?w ?i ?a ?c ?s ?l ?h ?ps ?ip) _ ?dflt] =>
      destruct (get_cleaned_of n p e w i a c s l h ps ip dflt)
        as (-> & -> & -> & -> & -> & -> & -> & -> & -> & -> & -> & ->)
  end.
  rewrite (clean_spaced_idem _ _ Hn), (clean_phone_idem _ _ Hp),
    (clean_email_idem _ _ He), (clean_website_idem _ _ Hw),
    (clean_instagram_idem _ _ Hi), (clean_spaced_idem _ _ Ha).
  cbn [mbind option_bind]. now rewrite !clean_other_idem.
Qed.

(** A cleaner of a string field accepts every string and a missing field. *)
Lemma guarded_total (f : string -> string) data k :
  str_or_absent data k ->
  is_Some (if eq_str (get data k (VStr NA)) NA then Some (get data k (VStr NA))
           else s ← as_str (get data k (VStr NA)); Some (VStr (f s))).
Proof.
  unfold str_or_absent, get. destruct (data !! k) as [v|]; simpl.
  - intros [s Hs]. destruct v; try discriminate. simpl.
    destruct (String.eqb _ NA); eauto.
  - eauto.
Qed.

(** X4.  A dictionary whose six main fields are strings (or absent) is
    cleaned without an exception. *)
Theorem clean_data_entry_total data :
  Forall (str_or_absent data)
    ["name"; "phone"; "email"; "website"; "instagram"; "address"] ->
  is_Some (clean_data_entry data).
Proof.
  intros H. repeat (apply Forall_cons in H as [? H]).
  rewrite clean_data_entry_eq.
  assert (is_Some (clean_spaced (get data "name" (VStr NA)))) as [? ->]
    by (apply (guarded_total (fun s => join " " (split (strip s)))); assumption).
  assert (is_Some (clean_phone (get data "phone" (VStr NA)))) as [? ->]
    by (apply (guarded_total with_country_code); assumption).
  assert (is_Some (clean_email (get data "email" (VStr NA)))) as [? ->]
    by (apply (guarded_total (fun s => lower (strip s))); assumption).
  assert (is_Some (clean_website (get data "website" (VStr NA)))) as [? ->]
    by (apply (guarded_total (fun s => if has_scheme (strip s) then strip s
                                       else "https://" ++ strip s)); assumption).
  assert (is_Some (clean_instagram (get data "instagram" (VStr NA)))) as [? ->]
    by (apply (guarded_total (fun s =>
           if has_scheme (strip s) then strip s
           else if startswith (strip s) "@"
                then "https://instagram.com/" ++ slice_from 1 (strip s)
                else "https://instagram.com/" ++ strip s)); assumption).
  assert (is_Some (clean_spaced (get data "address" (VStr NA)))) as [? ->]
    by (apply (guarded_total (fun s => join " " (split (strip s)))); assumption).
  cbn [mbind option_bind]. eauto.
Qed.

(** C8.  A phone other than "N/A" whose digits-and-plus form does not start
    with '+' and has at least 10 characters comes back with "+234" in
    front (of its last 10 characters when it has exactly 10, of the whole
    otherwise); a shorter one comes back as its digits-and-plus form, with
    no country code. *)
Theorem clean_data_entry_phone (data cleaned : dict) (phone : string) :
  clean_data_entry data = Some cleaned ->
  data !! "phone" = Some (VStr phone) ->
  phone <> "N/A" ->
  let digits := phone_chars phone in
  (startswith digits "+" = false -> (10 <= String.length digits)%nat ->
   cleaned !! "phone" =
     Some (VStr ("+234" ++ (if (String.length digits =? 10)%nat
                            then last_n 10 digits else digits))))
  /\ ((String.length digits < 10)%nat -> cleaned !! "phone" = Some (VStr digits)).
Proof.
  intros Hc Hd Hne digits. rewrite clean_data_entry_eq in Hc.
  assert (Hg : get data "phone" (VStr NA) = VStr phone) by (unfold get; now rewrite Hd).
  rewrite Hg in Hc.
  assert (Hp : clean_phone (VStr phone) = Some (VStr (with_country_code phone))).
  { unfold clean_phone, eq_str, NA. apply String.eqb_neq in Hne. now rewrite Hne. }
  rewrite Hp in Hc.
  destruct (clean_spaced (get data "name" (VStr NA))) as [n|]; [|discriminate].
  cbn [mbind option_bind] in Hc.
  destruct (clean_email _) as [e|]; [|discriminate].
  destruct (clean_website _) as [w|]; [|discriminate].
  destruct (clean_instagram _) as [i|]; [|discriminate].
  destruct (clean_spaced _) as [a|]; [|discriminate].
  cbn [mbind option_bind] in Hc. injection Hc as <-.
  change (cleaned_of n (VStr (with_country_code phone)) e w i a _ _ _ _ _ _ !! "phone")
    with (Some (VStr (with_country_code phone))).
  unfold with_country_code. fold digits. split.
  - intros Hs Hl. rewrite Hs. apply Nat.leb_le in Hl as Hl'. rewrite Hl'.
    assert (Hn : String.eqb digits "" = false)
      by (destruct digits; [simpl in Hl; lia|reflexivity]).
    rewrite Hn. cbn [negb andb].
    destruct (String.length digits =? 10)%nat; reflexivity.
  - intros Hl. apply Nat.leb_gt in Hl. rewrite Hl, andb_false_r. reflexivity.
Qed.
End DataProcessorFacts.

Module RemoveDuplicatesFacts.
Import DataProcessor.

Lemma sorted_shift (idx : list nat) :
  StronglySorted lt idx -> StronglySorted lt (S <$> idx).
Proof.
  induction 1 as [|i idx Hs IH Hall]; simpl; constructor; [exact IH|].
  apply Forall_fmap. eapply Forall_impl; [exact Hall|]. simpl. lia.
Qed.

Lemma lookup_shift (data : list dict) item (idx : list nat) out :
  Forall2 (fun i x => data !! i = Some x) idx out ->
  Forall2 (fun i x => (item :: data) !! i = Some x) (S <$> idx) out.
Proof. induction 1; simpl; constructor; auto. Qed.

(** The loop of [remove_duplicates], started with any set of keys already
    seen. *)
Lemma remove_duplicates_go_spec (data : list dict) :
  forall (seen : gset (string * string)) keys,
  mapM unique_key data = Some keys ->
  exists out idx kout,
    remove_duplicates_go seen data = Some out /\
    sublist out data /\
    Forall2 (fun i item => data !! i = Some item) idx out /\
    StronglySorted lt idx /\
    (forall i, i ∈ idx <->
       exists k, keys !! i = Some k /\ (k ∉ seen) /\ (k ∉ take i keys)) /\
    mapM unique_key out = Some kout /\ NoDup kout /\
    (forall k, k ∈ kout -> (k ∉ seen)).
Proof.
  induction data as [|item rest IH]; intros seen keys Hk.
  - injection Hk as <-. exists [], [], []. repeat split; try constructor.
    + intros H. inversion H.
    + intros (k & H & _). discriminate.
    + intros k H. inversion H.
  - simpl in Hk.
    destruct (unique_key item) as [k|] eqn:Hkey; [|discriminate].
    destruct (mapM unique_key rest) as [keys'|] eqn:Hrest; [|discriminate].
    cbn in Hk. injection Hk as <-. simpl. rewrite Hkey. cbn [mbind option_bind].
    destruct (decide (k ∈ seen)) as [Hin|Hout].
    + destruct (IH seen keys' eq_refl)
        as (out & idx & kout & Hgo & Hsub & Hidx & Hsort & Hfirst & Hkout & Hnd & Hfresh).
      exists out, (S <$> idx), kout. rewrite Hgo.
      repeat split; auto using sublist_cons, lookup_shift, sorted_shift.
      * intros Hi. apply list_elem_of_fmap in Hi as (i' & -> & Hi').
        apply Hfirst in Hi' as (k0 & Hl & Hs & Ht). exists k0. simpl.
        repeat split; auto. rewrite not_elem_of_cons. split; [congruence|exact Ht].
      * intros (k0 & Hl & Hs & Ht). destruct i as [|i']; simpl in *.
        { congruence. }
        apply list_elem_of_fmap. exists i'. split; [reflexivity|].
        apply Hfirst. exists k0. rewrite not_elem_of_cons in Ht. tauto.
    + destruct (IH ({[k]} ∪ seen) keys' eq_refl)
        as (out & idx & kout & Hgo & Hsub & Hidx & Hsort & Hfirst & Hkout & Hnd & Hfresh).
      exists (item :: out), (0%nat :: (S <$> idx)), (k :: kout). rewrite Hgo.
      cbn [mbind option_bind]. repeat split.
      * now apply sublist_skip.
      * constructor; [reflexivity|now apply lookup_shift].
      * constructor; [now apply sorted_shift|]. apply Forall_fmap, Forall_forall.
        intros; simpl; lia.
      * intros Hi. apply elem_of_cons in Hi as [->|Hi].
        { exists k. simpl. repeat split; auto. apply not_elem_of_nil. }
        apply list_elem_of_fmap in Hi as (i' & -> & Hi').
        apply Hfirst in Hi' as (k0 & Hl & Hs & Ht). exists k0. simpl.
        apply not_elem_of_union in Hs as [Hs1 Hs2].
        apply not_elem_of_singleton in Hs1.
        rewrite not_elem_of_cons. repeat split; auto.
      * intros (k0 & Hl & Hs & Ht). destruct i as [|i']; simpl in *.
        { apply elem_of_cons. now left. }
        apply elem_of_cons. right. apply list_elem_of_fmap. exists i'.
        split; [reflexivity|]. apply Hfirst. exists k0.
        rewrite not_elem_of_cons in Ht. repeat split; [tauto| |tauto].
        apply not_elem_of_union. split; [apply not_elem_of_singleton|]; tauto.
      * simpl. rewrite Hkey, Hkout. reflexivity.
      * constructor; [|exact Hnd]. intros Hk. apply Hfresh in Hk.
        apply Hk, elem_of_union_l, elem_of_singleton. reflexivity.
      * intros k0 Hk0. apply elem_of_cons in Hk0 as [->|Hk0]; [exact Hout|].
        apply Hfresh in Hk0. intros Hs. apply Hk0, elem_of_union_r, Hs.
Qed.

(** C10.  On a list whose entries all have a key (string name and
    address), [remove_duplicates] returns a sublist [out] of the input made of
    the entries at the positions [idx], in increasing order, where [idx]
    holds exactly the positions whose key occurs at no earlier position;
    the keys of [out] are pairwise different. *)
Theorem remove_duplicates_first_occurrences (data : list dict)
    (keys : list (string * string)) :
  mapM unique_key data = Some keys ->
  exists out idx kout,
    remove_duplicates data = Some out /\
    sublist out data /\
    Forall2 (fun i item => data !! i = Some item) idx out /\
    StronglySorted lt idx /\
    (forall i, i ∈ idx <-> exists k, keys !! i = Some k /\ (k ∉ take i keys)) /\
    mapM unique_key out = Some kout /\ NoDup kout.
Proof.
  intros Hk.
  destruct (remove_duplicates_go_spec data ∅ keys Hk)
    as (out & idx & kout & Hgo & Hsub & Hidx & Hsort & Hfirst & Hkout & Hnd & _).
  exists out, idx, kout. repeat split; auto.
  - intros Hi. apply Hfirst in Hi as (k & ? & _ & ?). eauto.
  - intros (k & ? & ?). apply Hfirst. exists k. repeat split; auto.
    apply not_elem_of_empty.
Qed.

End RemoveDuplicatesFacts.

(** ** The e-mail harvester *)

Module EmailExtractorFacts.
Import Regex EmailExtractor Inputs.

(** None of the five patterns matches inside [jane (at) shop.com]. *)
Lemma spaced_at_no_match :
  map (fun pattern => findall pattern "jane (at) shop.com") email_patterns
  = [[]; []; []; []; []].
Proof. vm_compute. reflexivity. Qed.

(** The same address without the spaces, and the spaced form with [(a)],
    are both harvested. *)
Lemma unspaced_at_harvested : scan_text "jane(at)shop.com" [] = ["jane@shop.com"].
Proof. vm_compute. reflexivity. Qed.

Lemma spaced_a_harvested : scan_text "jane (a) shop.com" [] = ["jane@shop.com"].
Proof. vm_compute. reflexivity. Qed.

(** C5.  On a page reading [jane (at) shop.com] the harvester finds no
    address: [extract_emails] returns ["N/A"], not ["jane@shop.com"]. *)
Theorem extract_emails_spaced_at (urljoin : string -> string -> string) :
  scan_text "jane (at) shop.com" [] = [] /\
  extract_emails spaced_at_site urljoin "http://shop.com" 2 = ["N/A"].
Proof. split; vm_compute; reflexivity. Qed.

End EmailExtractorFacts.

(** ** The address fallbacks of the worker *)

Module EntryWorkerFacts.
Import EntryWorker Inputs.

Lemma first_selector_some e ok selectors t :
  first_selector e ok selectors = Some t ->
  exists selector, In selector selectors /\ strip <$> find e selector = Some t.
Proof.
  induction selectors as [|selector rest IH]; simpl; [discriminate|].
  destruct (find e selector) as [t'|] eqn:E.
  - destruct (ok (strip t')).
    + intros [= <-]. exists selector. rewrite E. auto.
    + intros H. destruct (IH H) as (s & ? & ?). eauto.
  - intros H. destruct (IH H) as (s & ? & ?). eauto.
Qed.

Lemma find_first {A} (f : A -> bool) (before : list A) (x : A) (rest : list A) :
  Forall (fun y => f y = false) before -> f x = true ->
  List.find f (before ++ x :: rest)%list = Some x.
Proof.
  intros Hb Hx. induction Hb as [|y before Hy _ IH]; simpl.
  - now rewrite Hx.
  - now rewrite Hy.
Qed.

Lemma find_nowhere {A} (f : A -> bool) (l : list A) :
  Forall (fun y => f y = false) l -> List.find f l = None.
Proof.
  intros Hl. induction Hl as [|y l Hy _ IH]; simpl; [reflexivity|now rewrite Hy].
Qed.

(** Before the click, the lines after the first are searched in order, and
    the first with a digit or with more than three tokens is taken,
    whatever the lines after it look like; without such a line the address
    stays "N/A". *)
Lemma preclick_takes_first_loose_line e name text first before line rest :
  elem_text e = Some text ->
  strip text <> "" -> strip text <> "Results" -> strip text <> name ->
  nonempty_lines (strip text) = (first :: before ++ line :: rest)%list ->
  Forall (fun l => address_like l = false) before ->
  address_like line = true ->
  address_from_text e name NA = line.
Proof.
  intros Ht H1 H2 H3 Hl Hb Hx. unfold address_from_text. rewrite Ht. cbn zeta.
  apply String.eqb_neq in H1, H2, H3. rewrite H1, H2, H3, Hl. cbn [negb andb tail].
  rewrite (find_first _ _ _ _ Hb Hx).
  destruct (1 <? _)%nat eqn:E; [reflexivity|].
  apply Nat.ltb_ge in E. simpl in E. rewrite length_app in E. simpl in E. lia.
Qed.

Lemma preclick_without_loose_line e name text :
  elem_text e = Some text ->
  Forall (fun l => address_like l = false) (tail (nonempty_lines (strip text))) ->
  address_from_text e name NA = NA.
Proof.
  intros Ht Hl. unfold address_from_text. rewrite Ht. cbn zeta.
  rewrite (find_nowhere _ _ Hl).
  destruct (_ && _); [destruct (_ <? _)%nat|]; reflexivity.
Qed.

(** On the detail view, the first text that is not empty, has a digit and
    has more than three tokens is taken. *)
Lemma detail_takes_first_strict_text p texts before text rest :
  address_label p = None -> body_medium p = Some texts ->
  map strip texts = (before ++ text :: rest)%list ->
  Forall (fun t => address_text_ok t = false) before ->
  address_text_ok text = true ->
  extract_address p = VStr text.
Proof.
  intros Hl Hm Ht Hb Hx. unfold extract_address.
  now rewrite Hl, Hm, Ht, (find_first _ _ _ _ Hb Hx).
Qed.

(** What the two fallbacks accept: an address other than "N/A" found before
    the click comes from one of the address selectors or is a line with a
    digit OR more than three tokens; on the detail view an address other
    than "N/A" comes from the address button or is a non-empty text with a
    digit AND more than three tokens. *)
Lemma address_fallback_filters :
  (forall e : result_element,
     let address := info_address (extract_info_from_result e) in
     address <> NA ->
     (exists selector, In selector address_selectors /\
                       strip <$> find e selector = Some address)
     \/ (any_char is_digit address || (3 <? length (split address))%nat = true))
  /\
  (forall (p : detail_page) (address : string),
     extract_address p = VStr address ->
     address <> NA ->
     (exists label, address_label p = Some label)
     \/ (negb (String.eqb address "") && any_char is_digit address
         && (3 <? length (split address))%nat = true)).
Proof.
  split.
  - intros e. unfold extract_info_from_result. cbn zeta. cbn [info_address].
    set (name := if String.eqb _ "Unknown" then _ else _).
    set (ok := fun t => negb (String.eqb t "") && negb (String.eqb t name)).
    assert (Htext : forall a, address_from_text e name NA = a -> a <> NA ->
                              address_like a = true).
    { intros a <-. unfold address_from_text.
      destruct (elem_text e) as [text|]; [|congruence]. cbn zeta.
      destruct (_ && _); [|congruence].
      destruct (1 <? _)%nat; [|congruence].
      destruct (List.find address_like _) as [line|] eqn:Hf; [|congruence].
      apply find_some in Hf as [_ Hf]. intros _. exact Hf. }
    destruct (first_selector e ok address_selectors) as [t|] eqn:Hsel;
      cbn [default from_option id].
    + apply first_selector_some in Hsel.
      destruct (String.eqb t NA) eqn:Ht; [|auto].
      apply String.eqb_eq in Ht. subst t. intros Hne. right. now apply Htext.
    + rewrite String.eqb_refl. intros Hne. right. now apply Htext.
  - intros p address. unfold extract_address.
    destruct (address_label p) as [label|]; [eauto|].
    destruct (body_medium p) as [texts|]; [|congruence].
    destruct (List.find address_text_ok _) as [text|] eqn:Hf; [|congruence].
    apply find_some in Hf as [_ Hf]. intros [= <-] _. right. exact Hf.
Qed.

(** Lines that pass one half of the filter only are taken before the
    click: [Suite 5] (a digit, two tokens) and a line of five words without
    digit; a digit in the first line does not count. *)
Lemma preclick_accepts_short_line :
  info_address (extract_info_from_result suite_element) = "Suite 5" /\
  (3 <? length (split "Suite 5"))%nat = false /\
  address_text_ok "Suite 5" = false /\
  info_address (extract_info_from_result wordy_element) = "Open every day until late" /\
  any_char is_digit "Open every day until late" = false /\
  info_address (extract_info_from_result numbered_name_element) = NA.
Proof. vm_compute. repeat split; reflexivity. Qed.

(** C6.  The fallback before the click does not apply the filter of the
    claim.  On a result element that shows a name, the rating [4.5 stars]
    and the address [12 Allen Avenue Ikeja Lagos], it takes the rating as
    the address: the rating has a digit but only two tokens, so it fails
    the filter, while the line after it passes the filter and is never
    looked at.  The fallback of the detail view, given the same two texts,
    applies the filter and takes the address.  (The first line is the name
    and is not searched: a digit there gives no address.) *)
Theorem preclick_fallback_takes_rating_line :
  info_address (extract_info_from_result rated_element) = "4.5 stars" /\
  any_char is_digit "4.5 stars" = true /\
  (3 <? length (split "4.5 stars"))%nat = false /\
  any_char is_digit "12 Allen Avenue Ikeja Lagos"
    && (3 <? length (split "12 Allen Avenue Ikeja Lagos"))%nat = true /\
  extract_address rated_page = VStr "12 Allen Avenue Ikeja Lagos" /\
  info_address (extract_info_from_result numbered_name_element) = NA.
Proof. vm_compute. repeat split; reflexivity. Qed.

End EntryWorkerFacts.

(** ** The collection loop *)

Module CollectorFacts.
Import EntryWorker DataCollectorThread Inputs.
Local Close Scope string_scope.

(** Reading a field of an updated state. *)
Ltac fields :=
  cbn [emit goto set_is_running set_is_paused set_internet_connected add_counts
       search_query location state country num_entries api_key proxy_manager
       skip_missing_social is_running is_paused request_count collected_count
       skipped_count processed_count max_to_process internet_connected
       consecutive_errors position signals] in *.

Lemma emitted_emit s c :
  emitted (emit s c) =
  emitted c ++ match s with data_collected data => [data] | _ => [] end.
Proof. unfold emitted. simpl. rewrite omap_app. destruct s; reflexivity. Qed.


(** *** How the state changes

    [grows c c']: the configuration is kept, no counter goes down, no
    signal is withdrawn, the attempt budget stays respected, and, when
    entries without website and Instagram are to be skipped, every record
    emitted on the way from [c] to [c'] is complete. *)

Lemma grows_refl c : grows c c.
Proof. unfold grows. repeat split; auto; reflexivity. Qed.

Lemma grows_trans c1 c2 c3 : grows c1 c2 -> grows c2 c3 -> grows c1 c3.
Proof.
  unfold grows.
  intros (En & Em & Es & ? & ? & ? & ? & ? & Hb & Hc)
         (En' & Em' & Es' & ? & ? & ? & ? & ? & Hb' & Hc').
  repeat split;
    [congruence|congruence|congruence|lia|lia|lia|lia
    |now transitivity (signals c2)|auto|].
  intros Hs d Hd. rewrite Es in Hc'. destruct (Hc' Hs d Hd); auto.
Qed.

Lemma grows_emit s c :
  (forall data, s = data_collected data -> skip_missing_social c = true -> complete data) ->
  grows c (emit s c).
Proof.
  intros Hs. unfold grows. fields. repeat split; try lia; auto.
  - now apply prefix_app_r.
  - intros Hf d. rewrite emitted_emit. intros [?|Hd]%elem_of_app; [auto|].
    destruct s; try (now apply elem_of_nil in Hd).
    apply list_elem_of_singleton in Hd as ->. right. eauto.
Qed.

Lemma grows_same c c' :
  num_entries c' = num_entries c -> max_to_process c' = max_to_process c ->
  skip_missing_social c' = skip_missing_social c ->
  (collected_count c <= collected_count c')%Z ->
  processed_count c' = processed_count c ->
  (skipped_count c <= skipped_count c')%Z ->
  (consecutive_errors c <= consecutive_errors c')%Z ->
  signals c' = signals c ->
  grows c c'.
Proof.
  intros ? ? ? ? Hp ? ? Hs. unfold grows, emitted. rewrite Hs, Hp.
  repeat split; auto; try lia.
Qed.

Lemma grows_goto p c : grows c (goto p c).
Proof. apply grows_same; fields; auto; lia. Qed.

Lemma grows_set_is_running b c : grows c (set_is_running b c).
Proof. apply grows_same; fields; auto; lia. Qed.

Lemma grows_set_is_paused b c : grows c (set_is_paused b c).
Proof. apply grows_same; fields; auto; lia. Qed.

Lemma grows_set_internet_connected b c : grows c (set_internet_connected b c).
Proof. apply grows_same; fields; auto; lia. Qed.

(** Counting requests, accepted and skipped entries and failed batches. *)
Lemma grows_add_counts r n s e c :
  (0 <= n)%Z -> (0 <= s)%Z -> (0 <= e)%Z -> grows c (add_counts r n s 0 e c).
Proof. intros. apply grows_same; fields; auto; lia. Qed.

(** Counting a batch that fits the budget. *)
Lemma grows_add_processed p c :
  (0 <= p)%Z -> (processed_count c + p <= max_to_process c)%Z ->
  grows c (add_counts 0 0 0 p 0 c).
Proof.
  intros. unfold grows, emitted. fields. repeat split; auto; try lia.
Qed.

Create HintDb grows.
#[local] Hint Resolve grows_goto grows_set_is_running
  grows_set_is_paused grows_set_internet_connected : grows.
#[local] Hint Extern 2 (grows _ (add_counts _ _ _ 0 _ _)) =>
  apply grows_add_counts; lia : grows.
#[local] Hint Extern 2 (grows _ (emit _ _)) =>
  apply grows_emit; discriminate : grows.

Ltac grow :=
  cbn zeta;
  repeat (eapply grows_trans; [|solve [eauto with grows nocore]]);
  try apply grows_refl.

(** The four keys added to a record leave its website and Instagram alone. *)
Lemma complete_tag c data : complete data -> complete (tag c data).
Proof.
  unfold complete, tag, get_none, get.
  now rewrite !lookup_insert_ne by discriminate.
Qed.

Lemma grows_handle_data_ready data c :
  (skip_missing_social c = true -> complete data) ->
  grows c (handle_data_ready data c).
Proof.
  intros Hc. unfold handle_data_ready. cbn zeta.
  eapply grows_trans; [|solve [eauto with grows nocore]].
  eapply grows_trans; [|solve [eauto with grows nocore]].
  eapply grows_trans; [|apply grows_emit; fields; intros ? [= <-] ?;
                         apply complete_tag; auto].
  grow.
Qed.

Lemma eq_str_false v s : eq_str v s = false -> v <> VStr s.
Proof. intros H ->. simpl in H. now rewrite String.eqb_refl in H. Qed.

(** What a worker hands over when incomplete entries are to be skipped. *)
Lemma report_complete index name address data data' :
  report true index name address data = data_ready data' -> complete data'.
Proof.
  unfold report, complete. cbn [andb].
  destruct (eq_str (get_none data "website") NA) eqn:Ew;
    destruct (eq_str (get_none data "instagram") NA) eqn:Ei;
    cbn [andb]; try discriminate; intros [= <-]; eauto using eq_str_false.
Qed.

Lemma run_complete index e p data :
  EntryWorker.run true index e p = data_ready data -> complete data.
Proof.
  unfold EntryWorker.run. cbn zeta.
  destruct (open_entry e 0 3); [|discriminate].
  destruct (extract_data p) as [d|]; [|discriminate].
  apply report_complete.
Qed.

Lemma grows_deliver_run index e p c :
  grows c (deliver (EntryWorker.run (skip_missing_social c) index e p) c).
Proof.
  destruct (EntryWorker.run _ index e p) as [data| |] eqn:E; simpl.
  - apply grows_handle_data_ready. intros Hs. rewrite Hs in E.
    eapply run_complete, E.
  - unfold handle_entry_skipped. grow.
  - unfold handle_worker_error. grow.
Qed.

Lemma run_batch_snoc batch cand c i :
  foldl (fun '(c, result_index) cand =>
           (deliver (EntryWorker.run (skip_missing_social c) result_index
                       (element cand) (page cand)) c, (result_index + 1)%Z))
        (c, i) (batch ++ [cand]) =
  let '(c', i') := foldl (fun '(c, result_index) cand =>
           (deliver (EntryWorker.run (skip_missing_social c) result_index
                       (element cand) (page cand)) c, (result_index + 1)%Z))
        (c, i) batch in
  (deliver (EntryWorker.run (skip_missing_social c') i' (element cand) (page cand)) c',
   (i' + 1)%Z).
Proof. rewrite foldl_app. simpl. now destruct (foldl _ _ _). Qed.

(** A property kept by the delivery of every worker's signal is kept by a
    whole batch. *)
Lemma run_batch_ind (P : collector -> Prop) batch :
  (forall c index e p,
     P c -> P (deliver (EntryWorker.run (skip_missing_social c) index e p) c)) ->
  forall c, P c -> P (run_batch batch c).
Proof.
  intros Hd c Hc. unfold run_batch.
  generalize (processed_count c) as i.
  induction batch as [|cand batch IH] using rev_ind; intros i; [exact Hc|].
  rewrite run_batch_snoc. specialize (IH i).
  destruct (foldl _ _ _) as [c' i']. simpl in *. now apply Hd.
Qed.

Lemma grows_run_batch batch c : grows c (run_batch batch c).
Proof.
  apply (run_batch_ind (grows c)); [|apply grows_refl].
  intros c' index e p H. eapply grows_trans; [exact H|apply grows_deliver_run].
Qed.

(** The workers of a batch do not touch the number of processed entries. *)
Lemma deliver_processed s c :
  processed_count (deliver s c) = processed_count c /\
  max_to_process (deliver s c) = max_to_process c /\
  proxy_manager (deliver s c) = proxy_manager c.
Proof.
  destruct s; unfold deliver, handle_data_ready, handle_entry_skipped,
    handle_worker_error; cbn zeta; fields; repeat split; lia.
Qed.

Lemma run_batch_processed batch c :
  processed_count (run_batch batch c) = processed_count c /\
  max_to_process (run_batch batch c) = max_to_process c /\
  proxy_manager (run_batch batch c) = proxy_manager c.
Proof.
  apply (run_batch_ind (fun c' => processed_count c' = processed_count c /\
                                  max_to_process c' = max_to_process c /\
                                  proxy_manager c' = proxy_manager c)); [|auto].
  intros c' index e p (<- & <- & <-). apply deliver_processed.
Qed.

Lemma grows_after_loop c : grows c (after_loop c).
Proof.
  unfold after_loop. destruct (_ <? _)%Z; [destruct (skip_missing_social _)|]; grow.
Qed.

#[local] Hint Resolve grows_run_batch grows_after_loop : grows.

Lemma grows_dispatch o found c : grows c (dispatch o found c).
Proof.
  unfold dispatch. cbn zeta.
  destruct (_ <=? 0)%Z eqn:E; [grow|]. apply Z.leb_gt in E.
  set (c1 := run_batch _ _).
  assert (grows c c1) by (subst c1; grow).
  destruct (run_batch_processed
              (take (Z.to_nat (Z.min 4 (Z.min (Z.of_nat (length found) - processed_count c)
                                              (max_to_process c - processed_count c))))
                    (drop (Z.to_nat (processed_count c)) found))
              (emit (status_updated (ProcessingBatch
                 (Z.min 4 (Z.min (Z.of_nat (length found) - processed_count c)
                                 (max_to_process c - processed_count c))))) c))
    as (Hp & Hm & _).
  fields. fold c1 in Hp, Hm.
  assert (grows c1 (add_counts 0 0 0
            (Z.min 4 (Z.min (Z.of_nat (length found) - processed_count c)
                            (max_to_process c - processed_count c))) 0 c1))
    by (apply grows_add_processed; lia).
  destruct (_ && _); grow; eauto using grows_trans.
Qed.

Lemma grows_batch_failed c : grows c (batch_failed c).
Proof. unfold batch_failed. grow. Qed.

#[local] Hint Resolve grows_dispatch grows_batch_failed : grows.

Lemma grows_loop_body o c : grows c (loop_body o c).
Proof.
  unfold loop_body, rate_limit. cbn zeta.
  destruct (results o); [|grow].
  destruct (_ >=? _)%Z; [|grow].
  destruct (negb (load_more o)); [grow|].
  destruct (results_again o); [|grow].
  destruct (_ >=? _)%Z; grow.
Qed.

Lemma grows_api_place pl n c : grows c (fst (api_place pl n c)).
Proof.
  unfold api_place. destruct (place_id pl); [|apply grows_refl].
  destruct (String.eqb _ _); [apply grows_refl|].
  cbn zeta. destruct (bool_decide _); [apply grows_refl|].
  generalize (api_record c pl (details pl)) as data. intros data.
  destruct (skip_missing_social c && eq_str (get_none data "website") NA
            && eq_str (get_none data "instagram") NA) eqn:E; cbn [fst]; [grow|].
  eapply grows_trans; [|solve [eauto with grows nocore]].
  eapply grows_trans; [|solve [eauto with grows nocore]].
  eapply grows_trans; [|apply grows_emit; fields; intros ? [= <-] Hs].
  - grow.
  - rewrite Hs in E. cbn [andb] in E. unfold complete.
    destruct (eq_str (get_none data "website") NA) eqn:Ew;
      [|eauto using eq_str_false].
    cbn [andb] in E. eauto using eq_str_false.
Qed.

#[local] Hint Resolve grows_loop_body : grows.

Lemma grows_thread_step o c : grows c (thread_step o c).
Proof.
  unfold thread_step, start_scraping, api_done.
  destruct (position c); cbn zeta.
  - fields. destruct (api_key c); [destruct (api_places o)|];
      destruct (driver_ready o); grow.
  - destruct places as [|pl rest]; [grow|].
    destruct (_ || _); [grow|].
    pose proof (grows_api_place pl collected_count0 c).
    destruct (api_place _ _ _). simpl in *. grow; try assumption.
  - destruct (loop_condition c); [destruct (negb _)|]; grow.
  - destruct (_ && _); [grow|]. destruct (negb _); grow.
  - grow.
Qed.

Lemma grows_step c e : grows c (step c e).
Proof.
  destruct e; simpl; [apply grows_thread_step| |unfold stop; grow].
  unfold set_connection_status. grow.
Qed.

Lemma grows_exec events : forall c, grows c (exec c events).
Proof.
  induction events as [|e events IH]; intros c; [apply grows_refl|].
  eapply grows_trans; [apply grows_step|apply IH].
Qed.


(** *** The attempt budget and the target *)

(** X1.  The number of processed entries never passes [max_to_process]:
    a run that starts within the attempt budget stays within it. *)
Theorem processed_within_budget c events :
  (processed_count c <= max_to_process c)%Z ->
  (processed_count (exec c events) <= max_to_process (exec c events))%Z.
Proof. intros H. now apply (grows_exec events c). Qed.

(** *** The target *)

Lemma api_place_collected pl n c :
  collected_count (fst (api_place pl n c)) = collected_count c.
Proof.
  unfold api_place. destruct (place_id pl); [|reflexivity].
  destruct (String.eqb _ _); [reflexivity|]. cbn zeta.
  destruct (bool_decide _); [reflexivity|].
  generalize (api_record c pl (details pl)) as data. intros data.
  destruct (_ && _); cbn [fst]; fields; lia.
Qed.

(** C1.  With a target of one entry and four results that are all
    accepted, the first batch hands over four records: [collected_count]
    ends at 4, above [num_entries] = 1 (the attempt budget of 5 is kept). *)
Theorem batch_overshoots_target :
  let c := exec (scraper 1 false)
             [thread (sees (Some four_shops)); thread (sees (Some four_shops))] in
  num_entries c = 1%Z /\ collected_count c = 4%Z /\ length (emitted c) = 4%nat /\
  processed_count c = 4%Z /\ max_to_process c = 5%Z.
Proof. vm_compute. repeat split; reflexivity. Qed.

(** With the same target of one entry, the API path stops after the first
    of four places. *)
Lemma api_path_stops_at_target :
  let c := exec (init "cafe" "Lagos" "Lagos" "Nigeria" 1 true false false) api_events in
  length (emitted c) = 1%nat /\ position c = Exited /\
  last (signals c) = Some finished.
Proof. vm_compute. repeat split; reflexivity. Qed.

(** *** The completeness policy *)


(** *** Failed batches *)

(** X2.  A pass of the loop whose lookup of the results raises leaves the
    number of processed entries as it is, counts one more error and
    returns to the top of the loop. *)
Theorem failed_batch_keeps_processed c o :
  position c = AtLoopTop -> loop_condition c = true ->
  internet_connected c = true -> results o = None ->
  processed_count (thread_step o c) = processed_count c /\
  consecutive_errors (thread_step o c) = (consecutive_errors c + 1)%Z /\
  position (thread_step o c) = AtLoopTop.
Proof.
  intros Hp Hl Hi Hr. unfold thread_step. rewrite Hp, Hl, Hi. cbn [negb].
  unfold loop_body. cbn zeta. rewrite Hr. unfold batch_failed, rate_limit.
  fields. repeat split; auto; lia.
Qed.

(** The error counter is never reset. *)
Lemma errors_never_decrease c events :
  (consecutive_errors c <= consecutive_errors (exec c events))%Z.
Proof. apply (grows_exec events c). Qed.

(** C4.  In a run whose first, third and fifth batch fail and whose
    second and fourth succeed, the loop is left after the fifth: the
    counter stands at 3 although no two failures were consecutive, with 8
    of 10 entries collected and 8 of the 50 attempts used; the run ends
    with [finished]. *)
Theorem three_scattered_failures_stop_the_run :
  let c := exec (scraper 10 false) alternating_events in
  batch_log c = [false; true; false; true; false] /\
  consecutive_errors c = 3%Z /\ position c = Exited /\
  collected_count c = 8%Z /\ processed_count c = 8%Z /\ max_to_process c = 50%Z /\
  last (signals c) = Some finished.
Proof. vm_compute. repeat split; reflexivity. Qed.

(** *** Loss of the connection *)




(** A batch is dispatched as soon as the loop is entered with the
    connection up and results left. *)
Lemma dispatch_advances o found c :
  (processed_count c < Z.of_nat (length found))%Z ->
  (processed_count c < max_to_process c)%Z ->
  (processed_count c < processed_count (dispatch o found c))%Z.
Proof.
  intros Hf Hm. unfold dispatch. cbn zeta.
  set (batch_size := Z.min 4 _).
  assert (0 < batch_size)%Z by (subst batch_size; lia).
  destruct (batch_size <=? 0)%Z eqn:E; [apply Z.leb_le in E; lia|].
  destruct (run_batch_processed
              (take (Z.to_nat batch_size) (drop (Z.to_nat (processed_count c)) found))
              (emit (status_updated (ProcessingBatch batch_size)) c)) as (Hp & _ & _).
  fields. destruct (_ && _); fields; rewrite Hp; lia.
Qed.



End CollectorFacts.

(** ** The window that receives the records *)

Module MainWindowFacts.
Import DataProcessor EntryWorker DataCollectorThread MainWindow Inputs.
Local Close Scope string_scope.

(** C2, as the claim states it, fails: the same shop listed twice is
    handed over twice; the two records emitted by the run have the same
    key. *)
Lemma twin_records_emitted :
  let c := exec (scraper 10 false) twin_events in
  collected_count c = 2%Z /\
  omap dedup_key (emitted c)
  = [("cafe luna"%string, "1 main st"%string); ("cafe luna"%string, "1 main st"%string)].
Proof. vm_compute. split; reflexivity. Qed.

Lemma tidy_add data w keys :
  tidy w keys ->
  exists keys', tidy (default w (add_real_time_data data w)) keys' /\
    (forall key, key ∈ keys -> key ∈ keys') /\
    (forall key, dedup_key data = Some key -> key ∈ keys').
Proof.
  intros (Hf & Hn & Hk). unfold add_real_time_data, dedup_key.
  destruct (clean_data_entry data) as [cleaned|]; cbn [mbind option_bind default];
    [|exists keys; repeat split; auto; try apply Hk; discriminate].
  destruct (unique_key cleaned) as [key|] eqn:E; cbn [mbind option_bind default];
    [|exists keys; repeat split; auto; try apply Hk; discriminate].
  destruct (decide (key ∈ unique_entries w)) as [Hin|Hout]; cbn [default].
  - exists keys. repeat split; auto; try apply Hk.
    intros ? [= <-]. now apply Hk.
  - exists (keys ++ [key]). repeat split; cbn [collected_data unique_entries].
    + apply Forall2_app; [exact Hf|]. repeat constructor. exact E.
    + apply NoDup_app. repeat split; [exact Hn| |apply NoDup_singleton].
      intros k Hk1 Hk2%list_elem_of_singleton. subst k. now apply Hout, Hk.
    + intros [H%Hk|H%list_elem_of_singleton]%elem_of_app.
      * now apply elem_of_union_r.
      * subst. apply elem_of_union_l, elem_of_singleton. reflexivity.
    + intros [H%elem_of_singleton|H%Hk]%elem_of_union; apply elem_of_app;
        [right; now apply list_elem_of_singleton|now left].
    + intros k ?. apply elem_of_app. now left.
    + intros k [= <-]. apply elem_of_app. right. now apply list_elem_of_singleton.
Qed.

Lemma tidy_receive stream : forall w keys,
  tidy w keys ->
  exists keys', tidy (receive w stream) keys' /\
    (forall data key, data ∈ stream -> dedup_key data = Some key -> key ∈ keys').
Proof.
  induction stream as [|data stream IH]; intros w keys Hw.
  - exists keys. split; [exact Hw|]. intros ? ? H. now apply elem_of_nil in H.
  - destruct (tidy_add data w keys Hw) as (keys1 & H1 & Hsub & Hd).
    destruct (IH _ _ H1) as (keys2 & H2 & Hs).
    assert (Hmono : forall key, key ∈ keys1 -> key ∈ keys2).
    { clear -H1 H2. revert keys1 H1 keys2 H2.
      generalize (default w (add_real_time_data data w)) as w1.
      induction stream as [|d stream IH]; intros w1 keys1 H1 keys2 H2 key Hk.
      - destruct H1 as (_ & _ & E1), H2 as (_ & _ & E2). apply E2, E1, Hk.
      - destruct (tidy_add d w1 keys1 H1) as (keys3 & H3 & Hsub & _).
        eapply (IH _ keys3 H3 keys2 H2). now apply Hsub. }
    exists keys2. split; [exact H2|].
    intros d key [->|Hin]%elem_of_cons Hkey; [apply Hmono, Hd, Hkey|eauto].
Qed.

(** C2, amended.  The records a run emits are filed by the window under
    the key of their cleaned form: the records the window keeps have
    pairwise different keys, and the key of every emitted record is among
    them. *)
Theorem retained_records_distinct (c : collector) (events : list event) :
  let w := receive new_window (emitted (exec c events)) in
  exists keys,
    Forall2 (fun data key => unique_key data = Some key) (collected_data w) keys /\
    NoDup keys /\
    (forall data key,
       data ∈ emitted (exec c events) -> dedup_key data = Some key -> key ∈ keys).
Proof.
  destruct (tidy_receive (emitted (exec c events)) new_window []) as (keys & (Hf & Hn & _) & Hk).
  - repeat split; [constructor|constructor| |]; intros H;
      [now apply elem_of_nil in H|now apply not_elem_of_empty in H].
  - exists keys. auto.
Qed.

End MainWindowFacts.

(** ** Regular expressions *)

Module RegexFacts.
Import Regex RegexOps RegexSemantics PyStrFacts.

Lemma after_app prev w1 w2 : after prev (w1 ++ w2) = after (after prev w1) w2.
Proof. revert prev; induction w1 as [|c w1 IH]; intros prev; simpl; [reflexivity|apply IH]. Qed.

Lemma length_app (a b : string) :
  String.length (a ++ b) = (String.length a + String.length b)%nat.
Proof. induction a as [|c a IH]; simpl; [reflexivity|now rewrite IH]. Qed.

(** The matcher finds only what the expression denotes. *)
Lemma match_re_sound r : forall (R : Type) prev s (k : option ascii -> string -> option R) x,
  match_re r prev s k = Some x ->
  exists w rest, s = w ++ rest /\ denotes r prev w rest /\ k (after prev w) rest = Some x.
Proof.
  induction r as [p| | | |r1 IH1 r2 IH2|r1 IH1]; intros R prev s k x H; simpl in H.
  - destruct s as [|c s]; [discriminate|].
    destruct (p c) eqn:Hp; [|discriminate].
    exists (String c ""), s. repeat split; [now constructor|exact H].
  - destruct (xorb _ _) eqn:Hx; [|discriminate].
    exists "", s. repeat split; [now constructor|exact H].
  - destruct prev; [discriminate|].
    exists "", s. repeat split; [constructor|exact H].
  - destruct (_ || _) eqn:Hx; [|discriminate].
    exists "", s. repeat split; [|exact H].
    constructor. apply orb_true_iff in Hx as [Hx|Hx]; apply String.eqb_eq in Hx; auto.
  - apply IH1 in H as (w1 & rest1 & -> & D1 & H).
    apply IH2 in H as (w2 & rest & -> & D2 & H).
    exists (w1 ++ w2), rest. rewrite app_assoc, after_app.
    repeat split; [now constructor|exact H].
  - revert H. generalize (String.length s) at 1. intros n; revert prev s x.
    induction n as [|n IHn]; intros prev s x H.
    + exists "", s. repeat split; [constructor|exact H].
    + destruct (match_re r1 prev s _) as [y|] eqn:E.
      * injection H as ->.
        apply IH1 in E as (w1 & rest1 & -> & D1 & E).
        destruct (_ <? _)%nat eqn:L; [|discriminate].
        apply IHn in E as (w2 & rest & -> & D2 & E).
        exists (w1 ++ w2), rest. rewrite app_assoc, after_app.
        repeat split; [|exact E].
        constructor; auto. intros ->. apply Nat.ltb_lt in L. simpl in L. lia.
      * exists "", s. repeat split; [constructor|exact H].
Qed.

(** The matcher finds a match whenever the expression denotes one that the
    continuation accepts. *)
Lemma match_re_complete r : forall prev w rest,
  denotes r prev w rest ->
  forall (R : Type) (k : option ascii -> string -> option R),
  is_Some (k (after prev w) rest) -> is_Some (match_re r prev (w ++ rest) k).
Proof.
  induction r as [p| | | |r1 IH1 r2 IH2|r1 IH1]; intros prev w rest D R k Hk.
  - inversion D as [? ? c ? Hp| | | | | |]; subst. simpl. rewrite Hp. exact Hk.
  - inversion D as [|? ? Hx| | | | |]; subst. simpl. rewrite Hx. exact Hk.
  - inversion D; subst. exact Hk.
  - inversion D as [| | |? ? Hx| | |]; subst. simpl.
    replace (_ || _) with true; [exact Hk|].
    symmetry; apply orb_true_iff. destruct Hx as [->| ->]; auto.
  - inversion D as [| | | |? ? ? w1 w2 ? D1 D2| |]; subst. simpl. rewrite app_assoc.
    apply IH1; [assumption|]. apply IH2; [assumption|].
    now rewrite <- after_app.
  - simpl.
    assert (G : forall n, (String.length w <= n)%nat ->
      is_Some ((fix rounds (n : nat) (prev : option ascii) (s : string) : option R :=
         match n with
         | O => k prev s
         | S n' =>
             match match_re r1 prev s (fun prev' s' =>
                     if (String.length s' <? String.length s)%nat
                     then rounds n' prev' s' else None) with
             | Some x => Some x
             | None => k prev s
             end
         end) n prev (w ++ rest))).
    { remember (Star r1) as rs eqn:Ers.
      induction D as [| | | | |r prev rest|r prev w1 w2 rest Hne D1 _ D2 IHD]; try discriminate;
        injection Ers as ->; intros n Hn.
      - destruct n as [|n]; [exact Hk|].
        destruct (match_re r1 prev _ _); [eauto|exact Hk].
      - destruct n as [|n].
        { destruct w1; [congruence|simpl in Hn; lia]. }
        rewrite app_assoc.
        match goal with
        | |- is_Some (match match_re r1 prev _ ?k' with _ => _ end) =>
            destruct (IH1 _ _ _ D1 R k') as [y Hy]; [|rewrite Hy; eauto]
        end.
        cbv beta.
        replace (_ <? _)%nat with true.
        + apply IHD; [reflexivity|now rewrite <- after_app|].
          rewrite length_app in Hn. destruct w1; [congruence|simpl in Hn; lia].
        + symmetry; apply Nat.ltb_lt. rewrite !length_app.
          destruct w1; [congruence|simpl; lia]. }
    apply G. rewrite length_app. lia.
Qed.

Lemma matches_denotes r s :
  matches r s = true <-> exists w rest, s = w ++ rest /\ denotes r None w rest.
Proof.
  unfold matches, match_here. split.
  - destruct (match_re _ _ _ _) as [x|] eqn:E; [|discriminate]. intros _.
    apply match_re_sound in E as (w & rest & -> & D & _). eauto.
  - intros (w & rest & -> & D).
    destruct (match_re_complete _ _ _ _ D _ (fun _ rest => Some rest)) as [x ->]; eauto.
Qed.

End RegexFacts.

Module EmailShapeFacts.
Import Regex RegexOps RegexSemantics PyStrFacts RegexFacts EmailExtractor EmailShape.

Lemma denotes_seq_inv r1 r2 prev w rest :
  denotes (Seq r1 r2) prev w rest <->
  exists w1 w2, w = w1 ++ w2 /\ denotes r1 prev w1 (w2 ++ rest) /\
                denotes r2 (after prev w1) w2 rest.
Proof.
  split.
  - intros D; inversion D; subst; eauto.
  - intros (w1 & w2 & -> & D1 & D2). now constructor.
Qed.

Lemma denotes_class_inv p prev w rest :
  denotes (Class p) prev w rest <-> exists c, w = String c "" /\ p c = true.
Proof.
  split.
  - intros D; inversion D; subst; eauto.
  - intros (c & -> & Hp). now constructor.
Qed.

Lemma denotes_star_class p prev w rest :
  denotes (Star (Class p)) prev w rest <-> all_chars p w = true.
Proof.
  split.
  - intros D. remember (Star (Class p)) as r eqn:Er.
    induction D as [| | | | | |r prev w1 w2 rest Hne D1 _ D2 IH]; try discriminate.
    + reflexivity.
    + injection Er as ->. inversion D1; subst. simpl.
      rewrite IH by reflexivity. now rewrite andb_true_r.
  - revert prev. induction w as [|c w IH]; intros prev H; simpl in H.
    + constructor.
    + apply andb_true_iff in H as [Hc Hw].
      change (String c w) with (String c "" ++ w).
      constructor; [discriminate|now constructor|now apply IH].
Qed.

Lemma denotes_plus_class p prev w rest :
  denotes (Plus (Class p)) prev w rest <-> w <> "" /\ all_chars p w = true.
Proof.
  unfold Plus. rewrite denotes_seq_inv. split.
  - intros (w1 & w2 & -> & D1 & D2).
    apply denotes_class_inv in D1 as (c & -> & Hc).
    apply denotes_star_class in D2. simpl. rewrite Hc, D2. split; [discriminate|reflexivity].
  - intros [Hne H]. destruct w as [|c w]; [congruence|]. simpl in H.
    apply andb_true_iff in H as [Hc Hw].
    exists (String c ""), w. repeat split; [now constructor|now apply denotes_star_class].
Qed.

Lemma denotes_lit c prev w rest : denotes (lit c) prev w rest <-> w = String c "".
Proof.
  unfold lit. rewrite denotes_class_inv. split.
  - intros (x & -> & Hx). apply Ascii.eqb_eq in Hx. now subst.
  - intros ->. exists c. split; [reflexivity|apply Ascii.eqb_refl].
Qed.

Lemma all_chars_app p a b : all_chars p (a ++ b) = all_chars p a && all_chars p b.
Proof. induction a as [|c a IH]; simpl; [reflexivity|]. now rewrite IH, andb_assoc. Qed.

Lemma validate_email_shape s : validate_email s = true <-> email_shaped s.
Proof.
  unfold validate_email. rewrite matches_denotes. cbn [seq_of]. split.
  - intros (w & rest & -> & D).
    apply denotes_seq_inv in D as (w0 & wa & -> & D0 & D).
    inversion D0; subst; clear D0. cbn [after] in D.
    apply denotes_seq_inv in D as (l & wb & -> & Dl & D).
    apply denotes_plus_class in Dl as [Hl1 Hl2].
    apply denotes_seq_inv in D as (a & wc & -> & Da & D).
    apply denotes_lit in Da as ->.
    apply denotes_seq_inv in D as (d & wd & -> & Dd & D).
    apply denotes_plus_class in Dd as [Hd1 Hd2].
    apply denotes_seq_inv in D as (a & we & -> & Da & D).
    apply denotes_lit in Da as ->.
    apply denotes_seq_inv in D as (t1 & wf & -> & D1 & D).
    apply denotes_class_inv in D1 as (c1 & -> & H1).
    apply denotes_seq_inv in D as (t2 & wg & -> & D2 & D).
    apply denotes_class_inv in D2 as (c2 & -> & H2).
    apply denotes_seq_inv in D as (t & wh & -> & Dt & D).
    apply denotes_star_class in Dt.
    inversion D as [| | |? ? Hrest| | |]; subst; clear D.
    exists l, d, (String c1 (String c2 t)), rest.
    repeat split; auto.
    + simpl. rewrite !app_assoc. simpl. rewrite ?app_assoc. simpl.
      rewrite ?app_nil_r. reflexivity.
    + simpl; lia.
    + simpl. now rewrite H1, H2, Dt.
  - intros (l & d & t & nl & -> & Hl1 & Hl2 & Hd1 & Hd2 & Ht1 & Ht2 & Hnl).
    destruct t as [|c1 [|c2 t]]; try (simpl in Ht1; lia).
    simpl in Ht2. apply andb_true_iff in Ht2 as [H1 Ht2].
    apply andb_true_iff in Ht2 as [H2 Ht].
    exists (l ++ "@" ++ d ++ "." ++ String c1 (String c2 t)), nl. split.
    { repeat (rewrite app_assoc || (progress simpl)). reflexivity. }
    change (l ++ "@" ++ d ++ "." ++ String c1 (String c2 t))
      with ("" ++ l ++ "@" ++ d ++ "." ++ String c1 "" ++ String c2 "" ++ t).
    apply denotes_seq; [constructor|].
    apply denotes_seq; [now apply denotes_plus_class|].
    apply denotes_seq; [now apply denotes_lit|].
    apply denotes_seq; [now apply denotes_plus_class|].
    apply denotes_seq; [now apply denotes_lit|].
    apply denotes_seq; [now apply denotes_class_inv; eauto|].
    apply denotes_seq; [now apply denotes_class_inv; eauto|].
    rewrite <- (app_nil_r t) at 1.
    apply denotes_seq; [now apply denotes_star_class|].
    now constructor.
Qed.

(** X5.  [validate_email] accepts exactly the texts of the form
    local@domain.tld: a non-empty local part of letters, digits and
    [._%+-], a non-empty domain of letters, digits, dots and hyphens, a dot
    and at least two letters; since [$] also matches before a newline at
    the end, one newline may follow. *)
Theorem validate_email_accepts (s : string) :
  validate_email s = true <-> email_shaped s.
Proof. apply validate_email_shape. Qed.

End EmailShapeFacts.

(** ** What the e-mail harvester returns *)

Module HarvestFacts.
Import Regex RegexSemantics RegexFacts EmailExtractor EmailShape EmailShapeFacts PyStrFacts.

Lemma lower_app a b : lower (a ++ b) = lower a ++ lower b.
Proof. induction a as [|c a IH]; simpl; [reflexivity|now rewrite IH]. Qed.

Lemma lower_length s : String.length (lower s) = String.length s.
Proof. induction s as [|c s IH]; simpl; [reflexivity|now rewrite IH]. Qed.

Lemma lower_nonempty s : s <> "" -> lower s <> "".
Proof. destruct s; [congruence|discriminate]. Qed.

Lemma all_chars_lower p s :
  (forall c, p c = true -> p (lower_char c) = true) ->
  all_chars p s = true -> all_chars p (lower s) = true.
Proof.
  intros Hp. induction s as [|c s IH]; simpl; [reflexivity|].
  intros H. apply andb_true_iff in H as [Hc Hs]. now rewrite (Hp _ Hc), IH.
Qed.

Lemma local_class_lower c : local_class c = true -> local_class (lower_char c) = true.
Proof. destruct c as [[] [] [] [] [] [] [] []]; vm_compute; auto. Qed.

Lemma domain_class_lower c : domain_class c = true -> domain_class (lower_char c) = true.
Proof. destruct c as [[] [] [] [] [] [] [] []]; vm_compute; auto. Qed.

Lemma is_alpha_az_lower c : is_alpha_az c = true -> is_alpha_az (lower_char c) = true.
Proof. destruct c as [[] [] [] [] [] [] [] []]; vm_compute; auto. Qed.

(** Lowering the case of a valid address gives a valid address. *)
Lemma validate_email_lower s :
  validate_email s = true -> validate_email (lower s) = true.
Proof.
  rewrite !validate_email_shape.
  intros (l & d & t & nl & -> & Hl1 & Hl2 & Hd1 & Hd2 & Ht1 & Ht2 & Hnl).
  exists (lower l), (lower d), (lower t), nl.
  rewrite !lower_app. repeat split.
  - destruct Hnl as [->| ->]; reflexivity.
  - now apply lower_nonempty.
  - now apply all_chars_lower; [apply local_class_lower|].
  - now apply lower_nonempty.
  - now apply all_chars_lower; [apply domain_class_lower|].
  - now rewrite lower_length.
  - now apply all_chars_lower; [apply is_alpha_az_lower|].
  - exact Hnl.
Qed.

Lemma harvested_set_add e emails :
  validate_email e = true -> lower e = e -> harvested emails ->
  harvested (set_add e emails).
Proof.
  intros Hv Hl [Hn Hf]. unfold set_add. destruct (bool_decide (e ∈ emails)) eqn:E.
  - split; assumption.
  - apply bool_decide_eq_false in E. split.
    + apply NoDup_app. repeat split; [exact Hn| |apply NoDup_singleton].
      intros x Hx Hx'. apply list_elem_of_singleton in Hx'. now subst.
    + apply Forall_app. split; [exact Hf|]. constructor; [auto|constructor].
Qed.

Lemma harvested_scan_text text emails : harvested emails -> harvested (scan_text text emails).
Proof.
  unfold scan_text. generalize email_patterns as patterns.
  intros patterns. revert emails.
  induction patterns as [|pattern patterns IH]; intros emails H; [exact H|].
  simpl. apply IH. generalize (findall pattern text) as found. intros found.
  revert emails H. induction found as [|email found IHf]; intros emails H; [exact H|].
  simpl. apply IHf. destruct (validate_email (clean_match email)) eqn:Ev; [|exact H].
  apply harvested_set_add; [now apply validate_email_lower|apply lower_idem|exact H].
Qed.

Section CrawlFacts.
Variable fetch : string -> option page.
Variable urljoin : string -> string -> string.

Lemma harvested_crawl max_pages : forall emails visited_urls urls_to_visit,
  harvested emails ->
  harvested (crawl fetch urljoin max_pages emails visited_urls urls_to_visit).
Proof.
  induction max_pages as [|n IH]; intros emails visited urls H; [exact H|].
  simpl. destruct urls as [|url urls]; [exact H|].
  destruct (bool_decide _); [now apply IH|].
  destruct (fetch url) as [p|]; [|now apply IH].
  apply IH. now apply harvested_scan_text.
Qed.

End CrawlFacts.

(** X6.  [extract_emails] never returns an empty list and never the same address
    twice; what it returns is the placeholder alone, or addresses in lower
    case that [validate_email] accepts. *)
Theorem extract_emails_result (fetch : string -> option page)
    (urljoin : string -> string -> string) (url : string) (max_pages : nat) :
  let emails := extract_emails fetch urljoin url max_pages in
  emails <> [] /\ NoDup emails /\
  (emails = [NA] \/
   Forall (fun e => validate_email e = true /\ lower e = e) emails).
Proof.
  intros emails. subst emails. unfold extract_emails.
  destruct (harvested_crawl fetch urljoin max_pages [] [] [url]) as [Hn Hf].
  { split; constructor. }
  destruct (crawl _ _ _ _ _ _) as [|e l].
  - repeat split; [discriminate|apply NoDup_singleton|now left].
  - repeat split; [discriminate|exact Hn|now right].
Qed.

(** X7.  When the first page cannot be fetched, or no page may be visited,
    [extract_emails] returns the placeholder. *)
Theorem extract_emails_unreachable (fetch : string -> option page)
    (urljoin : string -> string -> string) (url : string) (max_pages : nat) :
  fetch url = None \/ max_pages = 0%nat ->
  extract_emails fetch urljoin url max_pages = [NA].
Proof.
  intros [H| ->]; [|reflexivity]. unfold extract_emails.
  destruct max_pages as [|n]; [reflexivity|]. simpl. rewrite H.
  destruct n; reflexivity.
Qed.

End HarvestFacts.

(** ** Cleaning of texts *)

Module DataExtractorFacts.
Import Regex RegexOps RegexSemantics RegexFacts DataExtractor PyStrFacts.

(** [\s+] at the front of a text takes all the spaces there. *)
Lemma spaces_here prev c s :
  match_here spaces prev (String c s) = if is_space c then Some (lstrip s) else None.
Proof.
  unfold match_here, spaces, Plus. simpl. destruct (is_space c); [|reflexivity].
  match goal with
  | |- ?f (String.length s) (Some c) s = _ =>
      assert (H : forall n prev s, (String.length s <= n)%nat ->
                                   f n prev s = Some (lstrip s))
  end.
  { clear. induction n as [|n IH]; intros prev s Hn.
    - destruct s; [reflexivity|simpl in Hn; lia].
    - destruct s as [|c s]; [reflexivity|]. simpl.
      destruct (is_space c); [|reflexivity].
      replace (String.length s <? S (String.length s))%nat with true
        by (symmetry; apply Nat.ltb_lt; lia).
      rewrite IH by (simpl in Hn; lia). reflexivity. }
  apply H. lia.
Qed.

Lemma spaces_here_nil prev : match_here spaces prev "" = None.
Proof. reflexivity. Qed.

Lemma lstrip_length s : (String.length (lstrip s) <= String.length s)%nat.
Proof. induction s as [|c s IH]; simpl; [lia|]. destruct (is_space c); simpl; lia. Qed.

(** The character before a text does not matter to the substitution. *)
Lemma sub_spaces_prev s : forall k prev prev',
  sub_go spaces " " k prev s = sub_go spaces " " k prev' s.
Proof.
  induction s as [|c s IH]; intros k prev prev'.
  - simpl. destruct k; reflexivity.
  - cbn [sub_go]. destruct k; [|apply IH]. rewrite !spaces_here. reflexivity.
Qed.

(** Skipping the spaces already replaced. *)
Lemma sub_spaces_skip s : forall prev,
  sub_go spaces " " (String.length s - String.length (lstrip s)) prev s
  = sub_go spaces " " 0 prev (lstrip s).
Proof.
  induction s as [|c s IH]; intros prev; [reflexivity|].
  cbn [lstrip]. destruct (is_space c) eqn:Ec.
  - pose proof (lstrip_length s).
    replace (String.length (String c s) - String.length (lstrip s))%nat
      with (S (String.length s - String.length (lstrip s))) by (simpl; lia).
    cbn [sub_go]. rewrite IH. apply sub_spaces_prev.
  - now rewrite Nat.sub_diag.
Qed.

Lemma sub_spaces_cons c s :
  sub spaces " " (String c s) =
  if is_space c then String " " (sub spaces " " (lstrip s))
  else String c (sub spaces " " s).
Proof.
  unfold sub. cbn [sub_go]. rewrite spaces_here. destruct (is_space c) eqn:Ec.
  - pose proof (lstrip_length s).
    replace (String.length (String c s) - String.length (lstrip s))%nat
      with (S (String.length s - String.length (lstrip s))) by (simpl; lia).
    rewrite sub_spaces_skip. simpl. f_equal. apply sub_spaces_prev.
  - f_equal. apply sub_spaces_prev.
Qed.

Lemma rstrip_app_blank w y : rstrip y = "" -> rstrip (w ++ y) = rstrip w.
Proof. intros Hy. induction w as [|c w IH]; simpl; [exact Hy|now rewrite IH]. Qed.

Lemma rstrip_app_more w y : rstrip y <> "" -> rstrip (w ++ y) = w ++ rstrip y.
Proof.
  intros Hy. induction w as [|c w IH]; simpl; [reflexivity|]. rewrite IH.
  destruct (w ++ rstrip y) eqn:E; [|reflexivity].
  destruct w; simpl in E; [congruence|discriminate].
Qed.

Lemma spaceless_rstrip w : spaceless w -> rstrip w = w.
Proof.
  unfold spaceless. induction w as [|c w IH]; simpl; [reflexivity|].
  intros H. apply orb_false_iff in H as [Hc Hw]. rewrite IH by exact Hw.
  destruct w; [now rewrite Hc|reflexivity].
Qed.

Lemma join_words_nil ws : Forall word ws -> join " " ws = "" -> ws = [].
Proof.
  intros H. destruct H as [|w ws [Hne _] _]; [reflexivity|].
  destruct ws; simpl; [intros; congruence|].
  destruct w; [congruence|discriminate].
Qed.

Lemma join_cons w ws : ws <> [] -> join " " (w :: ws) = w ++ " " ++ join " " ws.
Proof. destruct ws; [congruence|reflexivity]. Qed.

(** A text that does not begin with a space is not changed at its front. *)
Lemma sub_spaces_lstrip s : lstrip (sub spaces " " (lstrip s)) = sub spaces " " (lstrip s).
Proof.
  destruct (lstrip s) as [|c t] eqn:E; [reflexivity|].
  assert (Hc : is_space c = false).
  { clear -E. induction s as [|d s IH]; [discriminate|]. simpl in E.
    destruct (is_space d) eqn:Ed; [auto|]. injection E as -> _. exact Ed. }
  rewrite sub_spaces_cons, Hc. simpl. now rewrite Hc.
Qed.

Lemma lstrip_rstrip_fixed x : lstrip x = x -> lstrip (rstrip x) = rstrip x.
Proof.
  destruct x as [|c x]; [reflexivity|]. simpl.
  destruct (is_space c) eqn:Ec.
  - intros H. exfalso. pose proof (lstrip_length x) as Hl. rewrite H in Hl. simpl in Hl. lia.
  - intros _. destruct (rstrip x); simpl; now rewrite Ec.
Qed.

(** The substitution and the splitting see the same words. *)
Lemma sub_spaces_words n : forall s w,
  (String.length s < n)%nat -> spaceless w ->
  (w <> "" -> rstrip (w ++ sub spaces " " s) = join " " (split_go w s)) /\
  strip (sub spaces " " s) = join " " (split s).
Proof.
  induction n as [|n IH]; intros s w Hn Hw; [lia|].
  destruct s as [|c s].
  - split; [|reflexivity]. intros Hne. unfold sub. simpl.
    rewrite app_nil_r, spaceless_rstrip by exact Hw. now destruct w.
  - simpl in Hn. rewrite sub_spaces_cons. unfold split. cbn [split_go].
    destruct (is_space c) eqn:Ec.
    + pose proof (lstrip_length s) as Hl.
      destruct (IH (lstrip s) "" ltac:(lia) eq_refl) as [_ Hb].
      rewrite split_lstrip in Hb. unfold split in Hb.
      assert (Hx : strip (sub spaces " " (lstrip s)) = rstrip (sub spaces " " (lstrip s))).
      { unfold strip. apply lstrip_rstrip_fixed, sub_spaces_lstrip. }
      rewrite Hx in Hb. split.
      * intros Hne. destruct w as [|d w]; [congruence|].
        destruct (split_go "" s) as [|w2 ws] eqn:Es.
        -- simpl in Hb. rewrite rstrip_app_blank; [now apply spaceless_rstrip|].
           simpl. now rewrite Hb.
        -- rewrite join_cons by discriminate.
           assert (Hj : join " " (w2 :: ws) <> "").
           { intros Ej. apply join_words_nil in Ej; [discriminate|].
             rewrite <- Es. now apply split_go_words. }
           revert Hb Hj. generalize (join " " (w2 :: ws)) as J. intros J Hb Hj.
           assert (Hr : rstrip (String " " (sub spaces " " (lstrip s))) = String " " J).
           { simpl. rewrite Hb. destruct J; [congruence|reflexivity]. }
           rewrite rstrip_app_more by (rewrite Hr; discriminate).
           now rewrite Hr.
      * rewrite <- Hb. unfold strip in *. rewrite Hb in Hx.
        change (rstrip (String " " (sub spaces " " (lstrip s))))
          with (match rstrip (sub spaces " " (lstrip s)) with
                | "" => ""
                | r => String " " r
                end).
        rewrite Hb.
        destruct (join " " (split_go "" s)) as [|a s0]; [reflexivity|].
        change (lstrip (String a s0) = String a s0). rewrite <- Hb. rewrite Hb. exact Hx.
    + destruct (IH s (w ++ String c "") ltac:(lia) (spaceless_snoc _ _ Hw Ec)) as [Ha _].
      specialize (Ha (snoc_nonempty w c)). rewrite app_assoc in Ha. simpl in Ha.
      split; [intros _; exact Ha|].
      destruct (IH s (String c "") ltac:(lia)) as [Ha' _].
      { unfold spaceless. simpl. now rewrite Ec. }
      specialize (Ha' ltac:(discriminate)).
      change (String c "" ++ sub spaces " " s) with (String c (sub spaces " " s)) in Ha'.
      change ("" ++ String c "") with (String c "").
      unfold strip. rewrite Ha'.
      assert (Hhead : exists t, join " " (split_go (String c "") s) = String c t).
      { rewrite <- Ha'. simpl. destruct (rstrip (sub spaces " " s)); eauto.
        rewrite Ec. eauto. }
      destruct Hhead as [t ->]. simpl. now rewrite Ec.
Qed.

Lemma clean_text_str s : clean_text (VStr s) = Some (join " " (split s)).
Proof.
  unfold clean_text.
  assert (E : as_str (if truthy (VStr s) then VStr s else VStr "") = Some s)
    by (destruct s; reflexivity).
  rewrite E. cbn [mbind option_bind]. f_equal.
  apply (sub_spaces_words (S (String.length s)) s ""); [lia|reflexivity].
Qed.

(** X8.  [clean_text] returns the words of a text joined by single spaces, as the
    cleaning of names and addresses in [clean_data_entry] does; [None]
    gives the empty text, and cleaning a cleaned text changes nothing. *)
Theorem clean_text_collapses (s : string) :
  clean_text (VStr s) = Some (join " " (split s)) /\
  clean_text VNone = Some "" /\
  (s <> NA -> DataProcessor.clean_spaced (VStr s) = VStr <$> clean_text (VStr s)) /\
  (forall t, clean_text (VStr s) = Some t -> clean_text (VStr t) = Some t).
Proof.
  repeat split.
  - apply clean_text_str.
  - intros Hs. rewrite clean_text_str. unfold DataProcessor.clean_spaced.
    replace (eq_str (VStr s) NA) with false
      by (symmetry; apply String.eqb_neq; exact Hs).
    simpl. now rewrite split_strip.
  - intros t. rewrite !clean_text_str. intros [= <-].
    now rewrite split_join by apply split_words.
Qed.

End DataExtractorFacts.

(** ** Validation *)

Module ValidationFacts.
Import DataProcessor Validation EmailShape EmailShapeFacts.

Section ValidationLemmas.
Variable phone_valid : string -> bool.
Variable site_reachable : string -> bool.

#[local] Abbreviation validate_item := (validate_item phone_valid site_reachable).
#[local] Abbreviation validate_data := (validate_data phone_valid site_reachable).

(** What one item becomes: the item itself, with the marker in some of the
    three fields. *)
Lemma validate_item_marks settings item validated :
  validate_item settings item = Some validated ->
  exists p e w : bool,
    validated =
    (if w then <["website" := VStr INVALID]> else id)
      ((if e then <["email" := VStr INVALID]> else id)
         ((if p then <["phone" := VStr INVALID]> else id) item)).
Proof.
  unfold Validation.validate_item. cbn zeta.
  set (phone := if _ && _ then _ else item).
  assert (Hp : exists p : bool, phone = (if p then <["phone" := VStr INVALID]> else id) item).
  { subst phone. destruct (_ && _); [destruct (negb _)|];
      [exists true|exists false|exists false]; reflexivity. }
  destruct Hp as [p ->].
  destruct (truthy (get_none settings "validate_email") && _).
  - destruct (validate_email_address _) as [valid|]; [|discriminate]. simpl.
    destruct (truthy (get_none settings "validate_website") && _);
      [destruct (negb (validate_website_url _ _))|]; destruct valid; simpl;
      intros [= <-];
      first [now exists p, true, true | now exists p, true, false
            | now exists p, false, true | now exists p, false, false].
  - simpl. destruct (truthy (get_none settings "validate_website") && _);
      [destruct (negb (validate_website_url _ _))|]; intros [= <-];
      first [now exists p, false, true | now exists p, false, false].
Qed.

Lemma validate_item_other settings item validated k :
  validate_item settings item = Some validated ->
  k <> "phone" -> k <> "email" -> k <> "website" ->
  validated !! k = item !! k.
Proof.
  intros H Hp He Hw. apply validate_item_marks in H as (p & e & w & ->).
  destruct w, e, p; simpl; rewrite ?lookup_insert_ne by congruence; reflexivity.
Qed.

Lemma validate_item_key settings item validated :
  validate_item settings item = Some validated ->
  unique_key validated = unique_key item.
Proof.
  intros H. unfold unique_key, get.
  rewrite !(validate_item_other _ _ _ _ H) by discriminate. reflexivity.
Qed.

End ValidationLemmas.

(** De-duplication commutes with any change of the items that keeps their
    keys. *)
Lemma remove_duplicates_go_map (f : dict -> option dict) data : forall out seen,
  mapM f data = Some out ->
  (forall x y, x ∈ data -> f x = Some y -> unique_key y = unique_key x) ->
  remove_duplicates_go seen out = remove_duplicates_go seen data ≫= mapM f.
Proof.
  induction data as [|x data IH]; intros out seen Hm Hk.
  - injection Hm as <-. reflexivity.
  - simpl in Hm. destruct (f x) as [y|] eqn:Ey; [|discriminate]. simpl in Hm.
    destruct (mapM f data) as [out'|] eqn:Eo; [|discriminate]. injection Hm as <-.
    assert (Hy : unique_key y = unique_key x) by (apply Hk; [left|exact Ey]).
    assert (Hk' : forall x0 y0, x0 ∈ data -> f x0 = Some y0 ->
                                unique_key y0 = unique_key x0)
      by (intros; apply Hk; [now right|assumption]).
    cbn [remove_duplicates_go]. rewrite Hy.
    destruct (unique_key x) as [key|]; [|reflexivity]. cbn [mbind option_bind].
    destruct (decide (key ∈ seen)); [now apply IH|].
    rewrite (IH out' _ eq_refl Hk').
    destruct (remove_duplicates_go _ data) as [kept|]; [|reflexivity].
    cbn [mbind option_bind]. simpl. rewrite Ey. simpl.
    destruct (mapM f kept); reflexivity.
Qed.

Lemma validate_item_email phone_valid site_reachable settings item validated :
  validate_item phone_valid site_reachable settings item = Some validated ->
  truthy (get_none settings "validate_email") = true ->
  get_none validated "email" = VStr NA \/
  get_none validated "email" = VStr INVALID \/
  exists s, get_none validated "email" = VStr s /\ email_shaped s.
Proof.
  intros H Hs. pose proof (validate_item_marks _ _ _ _ _ H) as (p & e & w & Hv).
  assert (Hg : get_none validated "email" =
               if e then VStr INVALID else get_none item "email").
  { subst validated. unfold get_none, get.
    destruct w, e, p; simpl;
      rewrite ?lookup_insert_ne by discriminate; rewrite ?lookup_insert_eq; reflexivity. }
  revert H. unfold validate_item. cbn zeta. rewrite Hs. cbn [andb].
  destruct (eq_str (get_none item "email") NA) eqn:En; cbn [negb].
  - intros H. apply DataProcessorFacts.eq_str_true in En.
    destruct e; [right; left|left]; now rewrite Hg.
  - unfold validate_email_address. rewrite En, orb_false_r.
    destruct (truthy (get_none item "email")) eqn:Et; cbn [negb].
    + destruct (get_none item "email") as [s| | |] eqn:Ee; try discriminate.
      cbn [as_str mbind option_bind].
      destruct (EmailExtractor.validate_email s) eqn:Ev.
      * intros _. destruct e; [right; left; now rewrite Hg|].
        right; right. exists s. rewrite Hg. split; [reflexivity|].
        now apply validate_email_shape.
      * cbn [negb]. intros H. right; left. unfold get_none, get.
        destruct (_ && _) in H; [destruct (negb _) in H|]; injection H as <-;
          rewrite ?lookup_insert_ne by discriminate; now rewrite lookup_insert_eq.
    + cbn [mbind option_bind negb]. intros H. right; left. unfold get_none, get.
      destruct (_ && _) in H; [destruct (negb _) in H|]; injection H as <-;
        rewrite ?lookup_insert_ne by discriminate; now rewrite lookup_insert_eq.
Qed.

(** X9.  [validate_data] changes nothing but the three validated fields, so the
    key of every item is kept, and it does not matter whether duplicates
    are removed before or after it. *)
Theorem validate_data_keeps_keys (phone_valid site_reachable : string -> bool)
    (data : list dict) (settings : dict) (out : list dict) :
  validate_data phone_valid site_reachable data settings = Some out ->
  Forall2 (fun item validated =>
             unique_key validated = unique_key item /\
             forall k, k <> "phone" -> k <> "email" -> k <> "website" ->
                       validated !! k = item !! k) data out /\
  remove_duplicates out =
  remove_duplicates data ≫=
    (fun kept => validate_data phone_valid site_reachable kept settings).
Proof.
  intros H. split.
  - unfold validate_data in H. apply mapM_Some_1 in H.
    eapply Forall2_impl; [exact H|]. intros item validated Hi. cbn beta in Hi. split.
    + eapply validate_item_key, Hi.
    + intros k. eapply validate_item_other, Hi.
  - apply remove_duplicates_go_map; [exact H|].
    intros x y _ Hy. eapply validate_item_key, Hy.
Qed.

(** X10.  With the validation of e-mails switched on, every e-mail field that
    [validate_data] returns is the placeholder, the marker, or an address of
    the form local@domain.tld. *)
Theorem validate_data_emails (phone_valid site_reachable : string -> bool)
    (data : list dict) (settings : dict) (out : list dict) :
  validate_data phone_valid site_reachable data settings = Some out ->
  truthy (get_none settings "validate_email") = true ->
  Forall (fun validated =>
            get_none validated "email" = VStr NA \/
            get_none validated "email" = VStr INVALID \/
            exists s, get_none validated "email" = VStr s /\ email_shaped s) out.
Proof.
  intros H Hs. unfold validate_data in H. apply mapM_Some_1 in H.
  induction H as [|item validated data out Hi _ IH]; constructor; [|exact IH].
  eapply validate_item_email; eauto.
Qed.

End ValidationFacts.

(** ** The rotation of proxies *)

Module ProxyManagerFacts.
Import ProxyManager.
Local Close Scope string_scope.

Lemma get_next_proxy_some m proxy :
  proxies m !! current_proxy_index m = Some proxy ->
  get_next_proxy m =
  Some (Some proxy,
        {| proxies := proxies m;
           current_proxy_index := (current_proxy_index m + 1) mod length (proxies m);
           tor_process := tor_process m |}).
Proof.
  intros H. unfold get_next_proxy. destruct (proxies m) eqn:E; [discriminate|].
  rewrite H. reflexivity.
Qed.

(** Calls that do not pass the end of the list return its next entries. *)
Lemma get_next_proxies_run k : forall l i t,
  (i + k <= length l)%nat -> (i < length l)%nat \/ k = 0%nat ->
  get_next_proxies k {| proxies := l; current_proxy_index := i; tor_process := t |}
  = Some (Some <$> take k (drop i l),
          {| proxies := l;
             current_proxy_index :=
               match k with O => i | S _ => (i + k) mod length l end;
             tor_process := t |}).
Proof.
  induction k as [|k IH]; intros l i t Hk Hi; [reflexivity|].
  destruct Hi as [Hi|]; [|discriminate].
  destruct (lookup_lt_is_Some_2 l i Hi) as [x Hx].
  cbn [get_next_proxies]. rewrite (get_next_proxy_some _ x) by exact Hx.
  cbn [mbind option_bind proxies current_proxy_index tor_process].
  rewrite (drop_S _ _ _ Hx). cbn [take fmap list_fmap].
  destruct (decide (i + 1 < length l)%nat) as [Hlt|Hge].
  - rewrite (Nat.mod_small (i + 1)) by exact Hlt.
    rewrite IH; [|lia|left; lia]. cbn [mbind option_bind].
    replace (S i) with (i + 1)%nat by lia.
    destruct k; [now rewrite Nat.mod_small by lia|].
    replace (i + 1 + S k)%nat with (i + S (S k))%nat by lia. reflexivity.
  - assert (k = 0%nat) by lia. subst k. cbn [get_next_proxies mbind option_bind take].
    reflexivity.
Qed.

Lemma get_next_proxies_app k1 k2 m :
  get_next_proxies (k1 + k2) m =
  '(r1, m1) ← get_next_proxies k1 m;
  '(r2, m2) ← get_next_proxies k2 m1;
  Some (r1 ++ r2, m2).
Proof.
  revert m. induction k1 as [|k1 IH]; intros m.
  - simpl. destruct (get_next_proxies k2 m) as [[r2 m2]|]; reflexivity.
  - simpl. destruct (get_next_proxy m) as [[p m']|]; [|reflexivity]. simpl.
    rewrite IH. destruct (get_next_proxies k1 m') as [[r1 m1]|]; [|reflexivity]. simpl.
    destruct (get_next_proxies k2 m1) as [[r2 m2]|]; reflexivity.
Qed.

(** X13.  As many calls of [get_next_proxy] as there are proxies return every
    proxy once, from the current one on and round the end of the list, and
    leave the manager as it was. *)
Theorem get_next_proxy_round (m : manager) :
  (current_proxy_index m < length (proxies m))%nat ->
  get_next_proxies (length (proxies m)) m
  = Some (Some <$> (drop (current_proxy_index m) (proxies m)
                    ++ take (current_proxy_index m) (proxies m)), m).
Proof.
  destruct m as [l i t]. cbn [proxies current_proxy_index]. intros Hi.
  replace (length l) with ((length l - i) + i)%nat at 1 by lia.
  rewrite get_next_proxies_app.
  rewrite get_next_proxies_run by (try left; lia). cbn [mbind option_bind].
  replace (match (length l - i)%nat with
           | O => i
           | S _ => ((i + (length l - i)) mod length l)%nat
           end) with 0%nat.
  2:{ destruct (length l - i)%nat eqn:E; [lia|].
      replace (i + S n)%nat with (length l) by lia. now rewrite Nat.Div0.mod_same. }
  rewrite get_next_proxies_run by (try left; lia).
  cbn [mbind option_bind]. rewrite drop_0, fmap_app.
  rewrite (take_ge (drop i l)) by (rewrite length_drop; lia).
  repeat f_equal. destruct i; [reflexivity|]. simpl. now rewrite Nat.mod_small by lia.
Qed.

(** X14.  Neither [test_proxies] nor [load_proxies] sets [current_proxy_index]
    back: when the list they leave is not empty but no longer than the
    index, the next [get_next_proxy] raises an IndexError. *)
Theorem stale_index_raises (m m' : manager) :
  (exists works, m' = test_proxies works m) \/
  (exists file fetched tor_available,
     m' = snd (load_proxies file fetched tor_available m)) ->
  proxies m' <> [] ->
  (length (proxies m') <= current_proxy_index m)%nat ->
  get_next_proxy m' = None.
Proof.
  intros Hm Hne Hlen.
  assert (Hi : current_proxy_index m' = current_proxy_index m).
  { destruct Hm as [[works ->]|(file & fetched & tor & ->)].
    - unfold test_proxies. destruct (proxies m); [reflexivity|].
      destruct (working_proxies _ _); reflexivity.
    - unfold load_proxies. cbn zeta. destruct file as [lines|], fetched as [l|], tor;
        reflexivity. }
  unfold get_next_proxy. rewrite Hi, (lookup_ge_None_2 _ _ Hlen).
  destruct (proxies m'); [congruence|reflexivity].
Qed.

End ProxyManagerFacts.

(** ** The links of a result page *)

Module WebScrapingFacts.
Import WebScraping.
Local Close Scope string_scope.




End WebScrapingFacts.

(** ** Whole runs of the collector *)

Module RunFacts.
Import EntryWorker DataCollectorThread Inputs RunNotions CollectorFacts.
Local Close Scope string_scope.

(** *** Properties kept by every step

    A property of the collector that survives the plain signals, the
    changes of flags and position, the counting of requests, batches and
    errors, the two slots for the workers' results and the steps of the API
    path is kept by every run. *)

Section Kept.
Variable P : collector -> Prop.
Hypothesis P_emit : forall s c, plain s -> P c -> P (emit s c).
Hypothesis P_goto : forall p c, in_api p = false -> P c -> P (goto p c).
Hypothesis P_is_running : forall b c, P c -> P (set_is_running b c).
Hypothesis P_is_paused : forall b c, P c -> P (set_is_paused b c).
Hypothesis P_internet_connected : forall b c, P c -> P (set_internet_connected b c).
Hypothesis P_add_counts : forall r p e c, P c -> P (add_counts r 0 0 p e c).
Hypothesis P_data_ready : forall skip index e p data c,
  EntryWorker.run skip index e p = data_ready data -> P c -> P (handle_data_ready data c).
Hypothesis P_entry_skipped : forall entry name address c,
  P c -> P (handle_entry_skipped entry name address c).
Hypothesis P_api : forall o c,
  (position c = AtStart /\ api_key c = true /\ api_places o <> []) \/
  in_api (position c) = true ->
  P c -> P (thread_step o c).

Ltac keep :=
  cbn zeta;
  repeat first
    [ assumption
    | apply P_emit; [exact I|]
    | apply P_goto; [reflexivity|]
    | apply P_is_running | apply P_is_paused | apply P_internet_connected
    | apply P_add_counts ].

Lemma kept_deliver_run skip index e p c :
  P c -> P (deliver (EntryWorker.run skip index e p) c).
Proof.
  intros H. destruct (EntryWorker.run skip index e p) as [data| |] eqn:E; simpl.
  - eapply P_data_ready; eauto.
  - now apply P_entry_skipped.
  - unfold handle_worker_error. apply P_emit; [exact I|exact H].
Qed.

Lemma kept_run_batch batch c : P c -> P (run_batch batch c).
Proof. apply run_batch_ind. intros; now apply kept_deliver_run. Qed.

Lemma kept_after_loop c : P c -> P (after_loop c).
Proof.
  intros H. unfold after_loop.
  destruct (_ <? _)%Z; [destruct (skip_missing_social _)|]; keep.
Qed.

Lemma kept_dispatch o found c : P c -> P (dispatch o found c).
Proof.
  intros H. unfold dispatch. cbn zeta.
  destruct (_ <=? 0)%Z; [now apply kept_after_loop|].
  match goal with |- context [run_batch ?b ?c0] =>
    assert (H1 : P (run_batch b c0)) by (apply kept_run_batch; keep);
    revert H1; generalize (run_batch b c0)
  end.
  intros c1 H1. destruct (_ && _); keep.
Qed.

Lemma kept_batch_failed c : P c -> P (batch_failed c).
Proof. intros H. unfold batch_failed. keep. Qed.

Lemma kept_loop_body o c : P c -> P (loop_body o c).
Proof.
  intros H. unfold loop_body, rate_limit. cbn zeta.
  assert (H1 : P (add_counts 1 0 0 0 0 c)) by keep.
  revert H1. generalize (add_counts 1 0 0 0 0 c). clear H c. intros c H.
  destruct (results o); [|now apply kept_batch_failed].
  destruct (_ >=? _)%Z; [|now apply kept_dispatch].
  destruct (negb (load_more o)); [apply kept_after_loop; keep|].
  destruct (results_again o); [|apply kept_batch_failed; keep].
  destruct (_ >=? _)%Z; [apply kept_after_loop; keep|apply kept_dispatch; keep].
Qed.

Lemma kept_start_scraping o c : P c -> P (start_scraping o c).
Proof. intros H. unfold start_scraping. destruct (driver_ready o); keep. Qed.

Lemma kept_thread_step o c : P c -> P (thread_step o c).
Proof.
  intros H. destruct (position c) eqn:Ep.
  - destruct (api_key c) eqn:Ek; [destruct (api_places o) eqn:Ea|].
    + unfold thread_step. rewrite Ep. cbn zeta. fields. rewrite Ek, Ea.
      apply kept_start_scraping; keep.
    + apply P_api; [left; rewrite Ea; auto|exact H].
    + unfold thread_step. rewrite Ep. cbn zeta. fields. rewrite Ek.
      apply kept_start_scraping; keep.
  - apply P_api; [right; now rewrite Ep|exact H].
  - unfold thread_step. rewrite Ep.
    destruct (loop_condition c); [destruct (negb _)|];
      [keep|now apply kept_loop_body|now apply kept_after_loop].
  - unfold thread_step. rewrite Ep.
    destruct (_ && _); [exact H|]. destruct (negb _); [now apply kept_after_loop|keep].
  - unfold thread_step. now rewrite Ep.
Qed.

Lemma kept_step c e : P c -> P (step c e).
Proof.
  intros H. destruct e; simpl.
  - now apply kept_thread_step.
  - unfold set_connection_status. keep.
  - unfold stop. keep.
Qed.

Lemma kept_exec events : forall c, P c -> P (exec c events).
Proof.
  induction events as [|e events IH]; intros c H; [exact H|].
  apply IH, kept_step, H.
Qed.

End Kept.

(** The part of a step that belongs to the API path, from what the
    handling of one place keeps. *)
Lemma kept_api (P : collector -> Prop) :
  (forall s c, plain s -> P c -> P (emit s c)) ->
  (forall p c, P c -> P (goto p c)) ->
  (forall pl n c, P c -> P (fst (api_place pl n c))) ->
  forall o c,
    (position c = AtStart /\ api_key c = true /\ api_places o <> []) \/
    in_api (position c) = true ->
    P c -> P (thread_step o c).
Proof.
  intros P_emit P_goto P_place o c [(Ep & Ek & Ea)|Ep] H; unfold thread_step.
  - rewrite Ep. cbn zeta. fields. rewrite Ek.
    destruct (api_places o); [congruence|].
    apply P_goto. repeat (apply P_emit; [exact I|]). exact H.
  - destruct (position c) as [|places n| | |]; try discriminate.
    destruct places as [|pl rest].
    { unfold api_done. apply P_goto. repeat (apply P_emit; [exact I|]). exact H. }
    destruct (_ || _).
    { unfold api_done. apply P_goto. repeat (apply P_emit; [exact I|]). exact H. }
    pose proof (P_place pl n c H) as H1.
    destruct (api_place pl n c) as [c1 n1]. simpl in H1. now apply P_goto.
Qed.

End RunFacts.

Module TallyFacts.
Import EntryWorker DataCollectorThread Inputs RunNotions CollectorFacts RunFacts.
Local Close Scope string_scope.

Lemma shown_emit s c :
  shown (emit s c) =
  shown c ++ match s with real_time_update data => [data] | _ => [] end.
Proof. unfold shown. simpl. rewrite omap_app. now destruct s. Qed.

Lemma skip_reports_emit s c :
  skip_reports (emit s c) =
  (skip_reports c + match s with entry_skipped _ _ _ => 1 | _ => 0 end)%nat.
Proof.
  unfold skip_reports. simpl. rewrite omap_app, length_app. now destruct s.
Qed.

(** *** Counters and signals *)

Ltac tally :=
  unfold tallied, handle_data_ready, handle_entry_skipped, tag in *; cbn zeta;
  unfold shown, emitted, skip_reports in *; fields;
  rewrite ?omap_app, ?length_app; simpl;
  rewrite ?app_nil_r, ?Nat.add_0_r, <- ?app_assoc; simpl.

Lemma tallied_api_place s0 pl n c : tallied s0 c -> tallied s0 (fst (api_place pl n c)).
Proof.
  intros H. unfold api_place.
  destruct (place_id pl); [|exact H].
  destruct (String.eqb _ _); [exact H|].
  cbn zeta. destruct (bool_decide _); [exact H|].
  generalize (api_record c pl (details pl)) as data. intros data.
  destruct H as [H1 H2].
  destruct (_ && _); cbn [fst]; tally; (split; [congruence|lia]).
Qed.

Lemma tallied_emit s0 s c : plain s -> tallied s0 c -> tallied s0 (emit s c).
Proof.
  intros Hs [H1 H2]. destruct s; try contradiction; tally; (split; [congruence|lia]).
Qed.

Lemma tallied_exec s0 events c : tallied s0 c -> tallied s0 (exec c events).
Proof.
  apply kept_exec.
  - apply tallied_emit.
  - intros p c0 _ H. exact H.
  - intros b c0 H. exact H.
  - intros b c0 H. exact H.
  - intros b c0 H. exact H.
  - intros r p e c0 [H1 H2]. tally. split; [congruence|lia].
  - intros skip index e p data c0 _ [H1 H2]. tally. split; [congruence|lia].
  - intros entry name address c0 [H1 H2]. tally. split; [congruence|lia].
  - apply kept_api.
    + apply tallied_emit.
    + intros p c0 H. exact H.
    + apply tallied_api_place.
Qed.

Lemma counted_exec n0 events c : counted n0 c -> counted n0 (exec c events).
Proof.
  apply kept_exec.
  - intros s c0 Hs (H1 & H2 & H3). destruct s; try contradiction;
      unfold counted, emitted in *; fields; rewrite omap_app, app_nil_r; auto.
  - intros p c0 Hp (H1 & H2 & H3). unfold counted, emitted in *. fields. auto.
  - intros b c0 H. exact H.
  - intros b c0 H. exact H.
  - intros b c0 H. exact H.
  - intros r p e c0 (H1 & H2 & H3). unfold counted, emitted in *. fields.
    repeat split; auto. lia.
  - intros skip index e p data c0 _ (H1 & H2 & H3).
    unfold counted, emitted, handle_data_ready in *. cbn zeta. fields.
    rewrite !omap_app, length_app. simpl. rewrite ?app_nil_r, length_app. simpl.
    repeat split; auto. lia.
  - intros entry name address c0 (H1 & H2 & H3).
    unfold counted, emitted, handle_entry_skipped in *. fields.
    rewrite omap_app, app_nil_r. repeat split; auto. lia.
  - intros o c0 [(_ & Hk & _)|Hp] (H1 & H2 & H3); congruence.
Qed.

Lemma at_most_counted_emit n0 s c :
  plain s -> at_most_counted n0 c -> at_most_counted n0 (emit s c).
Proof.
  intros Hs H. destruct s; try contradiction;
    unfold at_most_counted, emitted in *; fields; rewrite omap_app, app_nil_r; auto.
Qed.

Lemma at_most_counted_exec n0 events c :
  at_most_counted n0 c -> at_most_counted n0 (exec c events).
Proof.
  apply kept_exec.
  - apply at_most_counted_emit.
  - intros p c0 Hp H. exact H.
  - intros b c0 H. exact H.
  - intros b c0 H. exact H.
  - intros b c0 H. exact H.
  - intros r p e c0 H. unfold at_most_counted, emitted in *. fields. lia.
  - intros skip index e p data c0 _ H.
    unfold at_most_counted, emitted, handle_data_ready in *. cbn zeta. fields.
    rewrite !omap_app, length_app. simpl. rewrite ?app_nil_r, length_app. simpl. lia.
  - intros entry name address c0 H.
    unfold at_most_counted, emitted, handle_entry_skipped in *. fields.
    rewrite omap_app, app_nil_r. lia.
  - apply kept_api.
    + apply at_most_counted_emit.
    + intros p c0 H. exact H.
    + intros pl n c0 H. unfold api_place.
      destruct (place_id pl); [|exact H].
      destruct (String.eqb _ _); [exact H|].
      cbn zeta. destruct (bool_decide _); [exact H|].
      generalize (api_record c0 pl (details pl)) as data. intros data.
      destruct (_ && _); cbn [fst]; unfold at_most_counted, emitted in *; fields;
        rewrite ?omap_app, ?length_app; simpl; rewrite ?app_nil_r, ?length_app; simpl; lia.
Qed.

(** X16.  The signals of a run agree with its counters: every record sent to the
    table is also handed over as collected, in the same order; the number of
    skipped entries is the number of skip reports; the number of collected
    entries is never more than the number of records handed over, and is
    equal to it when no API key is used. *)
Theorem counters_match_signals (search_query location state country : string)
    (num_entries : Z) (api_key proxy_manager skip_missing_social : bool)
    (events : list event) :
  let c := exec (init search_query location state country num_entries
                      api_key proxy_manager skip_missing_social) events in
  shown c = emitted c /\
  skipped_count c = Z.of_nat (skip_reports c) /\
  (collected_count c <= Z.of_nat (length (emitted c)))%Z /\
  (api_key = false -> collected_count c = Z.of_nat (length (emitted c))).
Proof.
  intros c. subst c.
  set (c0 := init _ _ _ _ _ _ _ _).
  destruct (tallied_exec 0 events c0) as [H1 H2]; [split; reflexivity|].
  pose proof (at_most_counted_exec 0 events c0) as H3.
  repeat split; [exact H1|rewrite H2; lia|apply H3; unfold at_most_counted; simpl; lia|].
  intros ->.
  destruct (counted_exec 0 events c0) as (_ & _ & H4); [repeat split|].
  rewrite H4. lia.
Qed.

End TallyFacts.

Module FieldFacts.
Import DataProcessor EntryWorker DataCollectorThread Inputs RunNotions CollectorFacts RunFacts.

Ltac closed_set := refine (bool_decide_unpack _ _); vm_compute; exact I.

Lemma extract_data_fields p data :
  extract_data p = Some data ->
  dom data = list_to_set ["name"; "phone"; "website"; "email"; "instagram"; "address";
                          "hours"; "image_path"; "products_services"].
Proof.
  unfold extract_data. cbn zeta.
  destruct (if _ && _ then _ else _) as [email|]; [|discriminate].
  simpl. intros [= <-]. rewrite !dom_insert_L, dom_empty_L. closed_set.
Qed.

Lemma with_seed_fields entry_name entry_address (data : dict) :
  "name" ∈ dom data -> "address" ∈ dom data ->
  dom (with_seed entry_name entry_address data) = dom data.
Proof.
  intros Hn Ha. unfold with_seed. cbn zeta.
  assert (Hin : forall (k : string) (D : gset string), k ∈ D -> {[k]} ∪ D = D).
  { intros k D Hk. apply set_eq. intros x. rewrite elem_of_union, elem_of_singleton.
    split; [intros [->|]; assumption|auto]. }
  destruct (_ || _ || _); destruct (_ || _); rewrite ?dom_insert_L, ?Hin; auto.
  rewrite Hin; auto.
Qed.

Lemma run_fields skip index e p data :
  EntryWorker.run skip index e p = data_ready data ->
  dom data = list_to_set ["name"; "phone"; "website"; "email"; "instagram"; "address";
                          "hours"; "image_path"; "products_services"].
Proof.
  unfold EntryWorker.run. cbn zeta. destruct (open_entry _ _ _); [|discriminate].
  destruct (extract_data p) as [d|] eqn:E; [|discriminate].
  apply extract_data_fields in E. unfold report.
  destruct (_ && _ && _); [discriminate|]. intros [= <-].
  rewrite with_seed_fields; [exact E| |]; rewrite E; closed_set.
Qed.

Lemma tag_fields c (data : dict) :
  dom (tag c data) =
  ({["search_query"]} ∪ {["state"]} ∪ {["location"]} ∪ {["country"]}) ∪ dom data.
Proof.
  unfold tag. rewrite !dom_insert_L. apply set_eq. intros x.
  rewrite !elem_of_union, !elem_of_singleton. tauto.
Qed.

Lemma api_record_fields c pl det :
  dom (api_record c pl det) = list_to_set record_fields.
Proof.
  unfold api_record. cbn zeta. rewrite !dom_insert_L, tag_fields, dom_empty_L.
  closed_set.
Qed.

Lemma fielded_emit s c : plain s -> fielded c -> fielded (emit s c).
Proof.
  intros Hs H. unfold fielded. rewrite emitted_emit.
  destruct s; try contradiction; now rewrite app_nil_r.
Qed.

Lemma fielded_exec events c : fielded c -> fielded (exec c events).
Proof.
  apply kept_exec.
  - apply fielded_emit.
  - intros p c0 _ H. exact H.
  - intros b c0 H. exact H.
  - intros b c0 H. exact H.
  - intros b c0 H. exact H.
  - intros r p e c0 H. exact H.
  - intros skip index e p data c0 E H. apply run_fields in E.
    unfold fielded, handle_data_ready, emitted in *. cbn zeta. fields.
    rewrite !omap_app. simpl. rewrite app_nil_r, <- app_assoc. simpl.
    apply Forall_app. split; [exact H|].
    constructor; [|constructor]. rewrite tag_fields, E. closed_set.
  - intros entry name address c0 H. unfold fielded, handle_entry_skipped in *.
    rewrite emitted_emit, app_nil_r. exact H.
  - apply kept_api.
    + apply fielded_emit.
    + intros p c0 H. exact H.
    + intros pl n c0 H. unfold api_place.
      destruct (place_id pl); [|exact H].
      destruct (String.eqb _ _); [exact H|].
      cbn zeta. destruct (bool_decide _); [exact H|].
      pose proof (api_record_fields c0 pl (details pl)) as Hd. revert Hd.
      generalize (api_record c0 pl (details pl)) as data. intros data Hd.
      destruct (_ && _); cbn [fst]; unfold fielded, emitted in *; fields;
        rewrite !omap_app; simpl; rewrite ?app_nil_r, <- ?app_assoc; simpl;
        [exact H|].
      apply Forall_app. split; [exact H|]. constructor; [exact Hd|constructor].
Qed.

Lemma clean_data_entry_fields data cleaned :
  clean_data_entry data = Some cleaned -> dom cleaned = list_to_set cleaned_fields.
Proof.
  rewrite DataProcessorFacts.clean_data_entry_eq.
  destruct (clean_spaced (get data "name" (VStr NA))) as [n|];
    cbn [mbind option_bind]; [|discriminate].
  destruct (clean_phone (get data "phone" (VStr NA))) as [p|];
    cbn [mbind option_bind]; [|discriminate].
  destruct (clean_email (get data "email" (VStr NA))) as [e|];
    cbn [mbind option_bind]; [|discriminate].
  destruct (clean_website (get data "website" (VStr NA))) as [w|];
    cbn [mbind option_bind]; [|discriminate].
  destruct (clean_instagram (get data "instagram" (VStr NA))) as [i|];
    cbn [mbind option_bind]; [|discriminate].
  destruct (clean_spaced (get data "address" (VStr NA))) as [a|];
    cbn [mbind option_bind]; [|discriminate].
  intros [= <-]. unfold cleaned_of. rewrite !dom_insert_L, dom_empty_L.
  closed_set.
Qed.

(** X17.  Every record the thread hands over, by workers or from the API, has
    exactly the thirteen fields of [record_fields]; the cleaning done by the
    window keeps twelve of them and drops [search_query]. *)
Theorem record_fields_kept :
  (forall (search_query location state country : string) (num_entries : Z)
          (api_key proxy_manager skip_missing_social : bool)
          (events : list event) (data : dict),
     data ∈ emitted (exec (init search_query location state country num_entries
                                api_key proxy_manager skip_missing_social) events) ->
     dom data = list_to_set record_fields)
  /\
  (forall data cleaned : dict,
     clean_data_entry data = Some cleaned ->
     dom cleaned = list_to_set cleaned_fields /\ cleaned !! "search_query" = None).
Proof.
  split.
  - intros q l s co n k pm skip events data Hin.
    assert (H : fielded (exec (init q l s co n k pm skip) events))
      by (apply fielded_exec; constructor).
    unfold fielded in H. rewrite Forall_forall in H. apply H, Hin.
  - intros data cleaned H. apply clean_data_entry_fields in H. split; [exact H|].
    apply not_elem_of_dom. rewrite H. closed_set.
Qed.

End FieldFacts.

Module EndFacts.
Import EntryWorker DataCollectorThread Inputs RunNotions CollectorFacts RunFacts.
Local Close Scope string_scope.

(** *** The end of a run *)

(** What the workers of a batch leave alone. *)
Lemma deliver_same s c :
  position (deliver s c) = position c /\
  internet_connected (deliver s c) = internet_connected c /\
  consecutive_errors (deliver s c) = consecutive_errors c /\
  is_running (deliver s c) = is_running c /\
  api_key (deliver s c) = api_key c.
Proof.
  destruct s; unfold deliver, handle_data_ready, handle_entry_skipped,
    handle_worker_error; cbn zeta; fields; repeat split; lia.
Qed.

Lemma run_batch_same batch c :
  position (run_batch batch c) = position c /\
  internet_connected (run_batch batch c) = internet_connected c /\
  consecutive_errors (run_batch batch c) = consecutive_errors c /\
  is_running (run_batch batch c) = is_running c /\
  api_key (run_batch batch c) = api_key c.
Proof.
  apply (run_batch_ind (fun c' => position c' = position c /\
                                  internet_connected c' = internet_connected c /\
                                  consecutive_errors c' = consecutive_errors c /\
                                  is_running c' = is_running c /\
                                  api_key c' = api_key c)); [|auto 6].
  intros c' index e p (<- & <- & <- & <- & <-). apply deliver_same.
Qed.

Lemma after_loop_exited c : position (after_loop c) = Exited.
Proof. reflexivity. Qed.

(** A dispatched batch uses up attempts and stays in the loop. *)
Lemma dispatch_pass o found c :
  (processed_count c < Z.of_nat (length found))%Z ->
  (processed_count c < max_to_process c)%Z ->
  let c' := dispatch o found c in
  position c' = position c /\ internet_connected c' = internet_connected c /\
  consecutive_errors c' = consecutive_errors c /\
  max_to_process c' = max_to_process c /\
  (processed_count c < processed_count c')%Z.
Proof.
  intros Hf Hm c'. pose proof (dispatch_advances o found c Hf Hm) as Ha.
  subst c'. revert Ha. unfold dispatch. cbn zeta.
  set (batch_size := Z.min 4 _).
  assert (0 < batch_size)%Z by (subst batch_size; lia).
  destruct (batch_size <=? 0)%Z eqn:E; [apply Z.leb_le in E; lia|].
  set (batch := take _ _).
  destruct (run_batch_same batch (emit (status_updated (ProcessingBatch batch_size)) c))
    as (Hp & Hi & He & _).
  destruct (run_batch_processed batch
              (emit (status_updated (ProcessingBatch batch_size)) c)) as (_ & Hx & _).
  revert Hp Hi He Hx. generalize (run_batch batch
              (emit (status_updated (ProcessingBatch batch_size)) c)).
  intros c1. fields. intros Hp Hi He Hx.
  destruct (_ && _); fields; intros Ha; repeat split; auto; lia.
Qed.

(** One pass with the connection up leaves the loop or uses up a pass. *)
Lemma loop_pass o c :
  position c = AtLoopTop -> internet_connected c = true ->
  let c' := thread_step o c in
  position c' = Exited \/
  position c' = AtLoopTop /\ internet_connected c' = true /\
  (passes_left c' < passes_left c)%nat.
Proof.
  intros Hp Hi c'. subst c'. unfold thread_step. rewrite Hp, Hi. cbn [negb].
  destruct (loop_condition c) eqn:Hl; [|now left].
  unfold loop_condition in Hl.
  apply andb_true_iff in Hl as [Hl He]. apply Z.ltb_lt in He.
  apply andb_true_iff in Hl as [Hl _]. apply andb_true_iff in Hl as [_ Hl].
  apply Z.ltb_lt in Hl.
  unfold loop_body, rate_limit. cbn zeta.
  assert (Hf : position (batch_failed (add_counts 1 0 0 0 0 c)) = AtLoopTop /\
               internet_connected (batch_failed (add_counts 1 0 0 0 0 c)) = true /\
               (passes_left (batch_failed (add_counts 1 0 0 0 0 c)) < passes_left c)%nat).
  { unfold batch_failed. fields. repeat split; auto.
    unfold passes_left. fields. lia. }
  assert (Hf' : forall s,
            position (batch_failed (emit s (add_counts 1 0 0 0 0 c))) = AtLoopTop /\
            internet_connected (batch_failed (emit s (add_counts 1 0 0 0 0 c))) = true /\
            (passes_left (batch_failed (emit s (add_counts 1 0 0 0 0 c)))
             < passes_left c)%nat).
  { intros s. unfold batch_failed. fields. repeat split; auto.
    unfold passes_left. fields. lia. }
  assert (Hd : forall found c1,
            position c1 = AtLoopTop -> internet_connected c1 = true ->
            max_to_process c1 = max_to_process c ->
            processed_count c1 = processed_count c ->
            consecutive_errors c1 = consecutive_errors c ->
            (processed_count c1 >=? Z.of_nat (length found))%Z = false ->
            position (dispatch o found c1) = AtLoopTop /\
            internet_connected (dispatch o found c1) = true /\
            (passes_left (dispatch o found c1) < passes_left c)%nat).
  { intros found c1 H1 H2 H3 H4 H5 H6.
    assert (processed_count c1 < Z.of_nat (length found))%Z.
    { destruct (Z.geb_spec (processed_count c1) (Z.of_nat (length found))); [discriminate|lia]. }
    destruct (dispatch_pass o found c1) as (Ha & Hb & Hc & Hm & Hq); [lia|lia|].
    repeat split; [congruence|congruence|].
    unfold passes_left. lia. }
  destruct (results o) as [found|]; [|now right].
  match goal with
  | |- context [if (?a >=? ?b)%Z then _ else _] => destruct (a >=? b)%Z eqn:E
  end.
  - destruct (negb (load_more o)); [left; apply after_loop_exited|].
    destruct (results_again o) as [found'|]; [|right; apply Hf'].
    match goal with
    | |- context [if (?a >=? ?b)%Z then _ else _] => destruct (a >=? b)%Z eqn:E'
    end; [left; apply after_loop_exited|].
    right. apply Hd; fields; auto; lia.
  - right. apply Hd; fields; auto; lia.
Qed.

Lemma start_scraping_steps o c :
  position c = AtStart -> internet_connected c = true ->
  let c' := start_scraping o c in
  internet_connected c' = true /\
  (position c' = Exited \/ position c' = AtLoopTop /\ passes_left c' = passes_left c).
Proof.
  intros Hp Hi. unfold start_scraping. cbn zeta.
  destruct (driver_ready o); fields; auto.
Qed.

(** A step of the thread changes none of the flags set from outside. *)
Lemma thread_step_flags o c :
  internet_connected (thread_step o c) = internet_connected c /\
  is_running (thread_step o c) = is_running c /\
  api_key (thread_step o c) = api_key c.
Proof.
  apply (kept_thread_step
           (fun c' => internet_connected c' = internet_connected c /\
                      is_running c' = is_running c /\ api_key c' = api_key c)).
  - intros s c0 _ H. exact H.
  - intros p c0 _ H. exact H.
  - intros b c0 H. exact H.
  - intros r p e c0 H. exact H.
  - intros skip index e p data c0 _ H. exact H.
  - intros entry name address c0 H. exact H.
  - apply kept_api.
    + intros s c0 _ H. exact H.
    + intros p c0 H. exact H.
    + intros pl n c0 H. unfold api_place.
      destruct (place_id pl); [|exact H].
      destruct (String.eqb _ _); [exact H|].
      cbn zeta. destruct (bool_decide _); [exact H|].
      generalize (api_record c0 pl (details pl)) as data. intros data.
      destruct (_ && _); exact H.
  - auto.
Qed.

Lemma scraping_thread_step o c :
  scraping c ->
  scraping (thread_step o c) /\
  (steps_left c = 0%nat \/ (steps_left (thread_step o c) < steps_left c)%nat).
Proof.
  intros [Hi Hp]. destruct (thread_step_flags o c) as (Hi' & _ & _).
  unfold scraping. rewrite Hi', Hi.
  destruct (position c) eqn:Ep; try contradiction.
  - assert (E : thread_step o c
                = start_scraping o (emit (status_updated Initializing) c)).
    { unfold thread_step. rewrite Ep. cbn zeta. fields. now rewrite Hp. }
    destruct (start_scraping_steps o (emit (status_updated Initializing) c))
      as (_ & [Hx|[Hx Hm]]); auto; rewrite <- E in *;
      unfold steps_left; rewrite Hx, Ep; repeat split; auto; right;
      [|rewrite Hm; unfold passes_left; fields]; lia.
  - destruct (loop_pass o c Ep Hi) as [Hx|(Hx & _ & Hm)];
      unfold steps_left; rewrite Hx, Ep; repeat split; auto; right; lia.
  - unfold thread_step, steps_left. rewrite Ep. repeat split; auto. rewrite Ep. exact I.
Qed.

Lemma thread_steps_cons e events :
  thread_steps (e :: events) =
  (match e with thread _ => 1 | _ => 0 end + thread_steps events)%nat.
Proof. now destruct e. Qed.

Lemma scraping_exec events : forall c,
  scraping c -> Forall (fun e => e <> connection false) events ->
  (steps_left c <= thread_steps events)%nat ->
  position (exec c events) = Exited.
Proof.
  induction events as [|e events IH]; intros c Hs Hf Hn.
  - change (thread_steps []) with 0%nat in Hn. destruct Hs as [_ Hp].
    unfold steps_left in Hn. simpl.
    destruct (position c); try contradiction; try reflexivity; lia.
  - apply Forall_cons in Hf as [He Hf]. rewrite thread_steps_cons in Hn.
    change (exec c (e :: events)) with (exec (step c e) events).
    destruct e as [o|b|].
    + destruct (scraping_thread_step o c Hs) as [Hs' [H0|H1]].
      * apply IH; [exact Hs'|exact Hf|].
        change (step c (thread o)) with (thread_step o c).
        destruct Hs as [_ Hp]. unfold steps_left in *.
        destruct (position c) eqn:Ep; try contradiction; try lia.
        unfold thread_step. rewrite Ep. rewrite Ep. lia.
      * apply IH; [exact Hs'|exact Hf|]. change (step c (thread o)) with (thread_step o c). lia.
    + destruct b; [|congruence]. apply IH; [|exact Hf|].
      * destruct Hs as [Hi Hp]. unfold set_connection_status, scraping. fields. auto.
      * unfold steps_left, passes_left in *. simpl. fields. lia.
    + apply IH; [exact Hs|exact Hf|].
      unfold steps_left, passes_left in *. simpl. fields. lia.
Qed.

(** X18.  A run without API key whose connection stays up ends: after at most
    [5 * num_entries + 5] steps of the thread it has left [run]. *)
Theorem scraping_run_ends (search_query location state country : string)
    (num_entries : Z) (proxy_manager skip_missing_social : bool)
    (events : list event) :
  Forall (fun e => e <> connection false) events ->
  (Z.to_nat (5 * num_entries) + 5 <= thread_steps events)%nat ->
  position (exec (init search_query location state country num_entries
                       false proxy_manager skip_missing_social) events) = Exited.
Proof.
  intros Hf Hn. apply scraping_exec; [split; reflexivity|exact Hf|].
  unfold steps_left, passes_left. simpl. lia.
Qed.

(** *** Stopping *)




(** *** The API path *)

Lemma api_place_only pl n c :
  Forall (fun s => ~ of_scraping s) (signals c) ->
  let c' := fst (api_place pl n c) in
  Forall (fun s => ~ of_scraping s) (signals c') /\ position c' = position c.
Proof.
  intros H. unfold api_place.
  destruct (place_id pl); [|auto].
  destruct (String.eqb _ _); [auto|].
  cbn zeta. destruct (bool_decide _); [auto|].
  generalize (api_record c pl (details pl)) as data. intros data.
  destruct (_ && _); cbn [fst]; fields; (split; [|reflexivity]);
    repeat (apply Forall_app; split); auto; repeat constructor; auto.
Qed.

Lemma api_only_step c e :
  api_only c ->
  api_only (step c e) /\
  (api_steps_left (step c e) <= api_steps_left c - match e with thread _ => 1 | _ => 0 end)%nat.
Proof.
  intros (Hp & Hs & Hc). unfold on_api_path in Hp. destruct e as [o|b|]; simpl.
  - unfold thread_step. destruct (position c) as [|places n| | |] eqn:Ep;
      try (destruct Hp as [Hp|[Hp _]]; discriminate).
    + assert (Hd : api_only (api_done c) /\ api_steps_left (api_done c) = 0%nat).
      { unfold api_only, on_api_path, api_done, api_steps_left. fields.
        repeat split; auto.
        - right. split; [reflexivity|]. apply elem_of_app. right. constructor.
        - repeat (apply Forall_app; split); auto; repeat constructor; auto. }
      destruct places as [|pl rest]; [split; [apply Hd|]; destruct Hd as [_ ->]; lia|].
      destruct (_ || _); [split; [apply Hd|]; destruct Hd as [_ ->]; lia|].
      destruct (api_place_only pl n c Hs) as [Hs' Hp'].
      pose proof (api_place_collected pl n c) as Hc'.
      destruct (api_place pl n c) as [c1 n1]. simpl in *.
      unfold api_only, on_api_path, api_steps_left. fields.
      repeat split; auto; [congruence|rewrite Ep; simpl; lia].
    + split; [|unfold api_steps_left; rewrite Ep; lia].
      unfold api_only, on_api_path. rewrite Ep. auto.
  - unfold set_connection_status, api_only, on_api_path, api_steps_left in *. fields.
    repeat split; [| |auto|lia].
    + destruct Hp as [Hp|[Hp Hf]]; [now left|right]. split; [exact Hp|].
      apply elem_of_app. now left.
    + apply Forall_app. split; [exact Hs|]. repeat constructor. auto.
  - unfold stop, api_only, on_api_path, api_steps_left in *. fields.
    repeat split; auto. lia.
Qed.

Lemma api_only_exec events : forall c,
  api_only c ->
  api_only (exec c events) /\
  (api_steps_left c <= thread_steps events -> position (exec c events) = Exited).
Proof.
  induction events as [|e events IH]; intros c H.
  - split; [exact H|]. change (thread_steps []) with 0%nat. simpl.
    destruct H as ([Hp|[Hp _]] & _); [|auto].
    unfold api_steps_left. destruct (position c); try discriminate. lia.
  - change (exec c (e :: events)) with (exec (step c e) events).
    destruct (api_only_step c e H) as [H' Hn].
    destruct (IH _ H') as [H1 H2]. split; [exact H1|].
    rewrite thread_steps_cons. intros Hl. apply H2. destruct e; lia.
Qed.

(** X20.  With an API key and a search that returns at least one place, the run
    stays on the API path: it starts no web driver and no batch, however
    few records the places give; the counter [collected_count] stays at 0;
    and after one step for each place and two more the thread has left
    [run] with the signal [finished]. *)
Theorem api_answer_ends_the_run (search_query location state country : string)
    (num_entries : Z) (proxy_manager skip_missing_social : bool)
    (o : observation) (events : list event) :
  api_places o <> [] ->
  let c := exec (init search_query location state country num_entries
                      true proxy_manager skip_missing_social)
                (thread o :: events) in
  Forall (fun s => ~ of_scraping s) (signals c) /\
  collected_count c = 0%Z /\
  ((length (api_places o) + 1 <= thread_steps events)%nat ->
   position c = Exited /\ finished ∈ signals c).
Proof.
  intros Ho c. subst c.
  change (exec ?c0 (thread o :: events)) with (exec (thread_step o c0) events).
  set (c1 := thread_step o _).
  assert (H1 : api_only c1 /\ api_steps_left c1 = (length (api_places o) + 1)%nat).
  { subst c1. unfold thread_step. simpl.
    destruct (api_places o) as [|pl rest]; [congruence|].
    unfold api_only, on_api_path, api_steps_left. simpl.
    repeat split; auto. }
  destruct H1 as [H1 Hn].
  destruct (api_only_exec events c1 H1) as [(Hp & Hs & Hc) Hx].
  repeat split; auto.
  - apply Hx. lia.
  - destruct Hp as [Hp|[_ Hf]]; [|exact Hf].
    rewrite Hx in Hp by lia. discriminate.
Qed.

End EndFacts.

(** ** Refreshing, cleaning and validating the table *)

Module WindowOpsFacts.
Import DataProcessor MainWindow Validation WindowOps WindowNotions PyStrFacts
  DataProcessorFacts MainWindowFacts.

(** *** Cleaned records *)

(** A cleaned record is left as it is by another cleaning. *)
Lemma clean_data_entry_fixed data cleaned :
  clean_data_entry data = Some cleaned -> clean_data_entry cleaned = Some cleaned.
Proof.
  rewrite (clean_data_entry_eq data).
  destruct (clean_spaced (get data "name" (VStr NA))) as [n|] eqn:Hn; [|discriminate].
  destruct (clean_phone (get data "phone" (VStr NA))) as [p|] eqn:Hp; [|discriminate].
  destruct (clean_email (get data "email" (VStr NA))) as [e|] eqn:He; [|discriminate].
  destruct (clean_website (get data "website" (VStr NA))) as [w|] eqn:Hw; [|discriminate].
  destruct (clean_instagram (get data "instagram" (VStr NA))) as [i|] eqn:Hi;
    [|discriminate].
  destruct (clean_spaced (get data "address" (VStr NA))) as [a|] eqn:Ha; [|discriminate].
  cbn [mbind option_bind]. intros [= <-].
  rewrite clean_data_entry_eq.
  match goal with
  | |- context [get (cleaned_of ?n ?p ?e ?w ?i ?a ?c ?s ?l ?h ?ps ?ip) _ ?dflt] =>
      destruct (get_cleaned_of n p e w i a c s l h ps ip dflt)
        as (-> & -> & -> & -> & -> & -> & -> & -> & -> & -> & -> & ->)
  end.
  rewrite (clean_spaced_idem _ _ Hn), (clean_phone_idem _ _ Hp),
    (clean_email_idem _ _ He), (clean_website_idem _ _ Hw),
    (clean_instagram_idem _ _ Hi), (clean_spaced_idem _ _ Ha).
  cbn [mbind option_bind]. now rewrite !clean_other_idem.
Qed.

(** What a cleaner of a string field returns. *)
Lemma guarded_str (f : string -> string) v v' :
  (if eq_str v NA then Some v else s ← as_str v; Some (VStr (f s))) = Some v' ->
  v' = VStr NA \/ exists s, v = VStr s /\ v' = VStr (f s).
Proof.
  destruct (eq_str v NA) eqn:E.
  - intros [= <-]. left. now apply eq_str_true.
  - destruct v as [s| | |]; try discriminate. simpl. intros [= <-]. eauto.
Qed.

(** *** Refreshing the table *)

Lemma settled_new : settled new_window [].
Proof.
  repeat split; try constructor; intros H; [now apply elem_of_nil in H|].
  now apply elem_of_empty in H.
Qed.

Lemma add_real_time_data_settled data w w' keys :
  add_real_time_data data w = Some w' -> settled w keys ->
  exists keys', settled w' keys'.
Proof.
  intros Ha [Ht Hc]. destruct (tidy_add data w keys Ht) as (keys' & Ht' & _).
  rewrite Ha in Ht'. simpl in Ht'. exists keys'. split; [exact Ht'|].
  unfold add_real_time_data in Ha.
  destruct (clean_data_entry data) as [cleaned|] eqn:Ec; [|discriminate].
  cbn [mbind option_bind] in Ha.
  destruct (unique_key cleaned) as [key|]; [|discriminate].
  cbn [mbind option_bind] in Ha.
  destruct (decide _); injection Ha as <-; [exact Hc|]. simpl.
  apply Forall_app. split; [exact Hc|]. constructor; [|constructor].
  eapply clean_data_entry_fixed, Ec.
Qed.

Lemma receive_settled stream : forall w keys,
  settled w keys -> exists keys', settled (receive w stream) keys'.
Proof.
  induction stream as [|data stream IH]; intros w keys H; [eauto|].
  simpl. destruct (add_real_time_data data w) as [w'|] eqn:E; simpl.
  - destruct (add_real_time_data_settled _ _ _ _ E H) as [keys' H']. eauto.
  - eauto.
Qed.

(** Adding settled records again, in their order, rebuilds the window. *)
Lemma add_all_settled suf : forall pre U kpre ksuf,
  (forall key, key ∈ kpre <-> key ∈ U) ->
  Forall2 (fun data key => unique_key data = Some key) suf ksuf ->
  Forall (fun data => clean_data_entry data = Some data) suf ->
  NoDup (kpre ++ ksuf)%list ->
  exists U',
    add_all {| unique_entries := U; collected_data := pre |} suf
    = Some {| unique_entries := U'; collected_data := (pre ++ suf)%list |} /\
    (forall key, key ∈ (kpre ++ ksuf)%list <-> key ∈ U').
Proof.
  induction suf as [|d suf IH]; intros pre U kpre ksuf HU Hk Hc Hn.
  - inversion Hk; subst. exists U. rewrite !List.app_nil_r. auto.
  - inversion Hk as [|? k ? ksuf' Hd Hk']; subst. inversion Hc as [|? ? Hd' Hc']; subst.
    cbn [add_all]. unfold add_real_time_data. rewrite Hd'. cbn [mbind option_bind].
    rewrite Hd. cbn [mbind option_bind unique_entries collected_data].
    assert (Hnk : k ∉ U).
    { rewrite <- HU. apply NoDup_app in Hn as (_ & Hn & _). intros Hin.
      apply (Hn k Hin). left. }
    destruct (decide (k ∈ U)); [contradiction|]. cbn [mbind option_bind].
    destruct (IH (pre ++ [d])%list ({[k]} ∪ U) (kpre ++ [k])%list ksuf') as (U' & E & HU'); auto.
    + intros key. rewrite elem_of_app, list_elem_of_singleton, elem_of_union,
        elem_of_singleton, HU. tauto.
    + now rewrite <- List.app_assoc.
    + exists U'. rewrite <- List.app_assoc in E, HU'. auto.
Qed.

Lemma refresh_table_settled w keys : settled w keys -> refresh_table w = Some w.
Proof.
  intros [(Hk & Hn & HU) Hc]. unfold refresh_table, clear_data. cbn zeta.
  destruct (add_all_settled (collected_data w) [] ∅ [] keys) as (U' & E & HU'); auto.
  { intros key. rewrite elem_of_nil, elem_of_empty. reflexivity. }
  rewrite E. f_equal. destruct w as [U l]. simpl in *. f_equal.
  apply set_eq. intros key. rewrite <- HU', <- HU. reflexivity.
Qed.

(** X21.  [refresh_table] leaves the table of a window as it is, whatever records
    the window has received: they are cleaned already and filed under
    different keys. *)
Theorem refresh_table_fixpoint (stream : list dict) :
  refresh_table (receive new_window stream) = Some (receive new_window stream).
Proof.
  destruct (receive_settled stream new_window [] settled_new) as [keys H].
  eapply refresh_table_settled, H.
Qed.

(** *** Cleaning the table *)

Lemma add_all_keeps_settled data : forall w w' keys,
  add_all w data = Some w' -> settled w keys -> exists keys', settled w' keys'.
Proof.
  induction data as [|d data IH]; intros w w' keys H Hs.
  - injection H as <-. eauto.
  - simpl in H. destruct (add_real_time_data d w) as [w1|] eqn:E; [|discriminate].
    destruct (add_real_time_data_settled _ _ _ _ E Hs) as [keys1 H1]. eauto.
Qed.

(** The loop of [clean_data] files the records as [add_real_time_data]
    does, and counts the records it keeps. *)
Lemma clean_loop_add_all data : forall U L n,
  n = Z.of_nat (length L) ->
  clean_loop U L n data =
  w ← add_all {| unique_entries := U; collected_data := L |} data;
  Some (unique_entries w, collected_data w, Z.of_nat (length (collected_data w))).
Proof.
  induction data as [|d data IH]; intros U L n Hn; [now subst|].
  cbn [clean_loop add_all]. unfold add_real_time_data.
  destruct (clean_data_entry d) as [cleaned|]; [|reflexivity]. cbn [mbind option_bind].
  destruct (unique_key cleaned) as [key|]; [|reflexivity].
  cbn [mbind option_bind unique_entries collected_data].
  destruct (decide (key ∈ U)); cbn [mbind option_bind]; apply IH; [exact Hn|].
  rewrite length_app. simpl. lia.
Qed.

(** X22.  [clean_data] always reports that no duplicate was removed: it counts
    the table it has just rebuilt, not the one it started from.  The table
    it leaves is the one obtained by adding the old records one by one to
    an empty window, and refreshing it again changes nothing. *)
Theorem clean_data_reports_no_removal (w w' : window) (report : cleaning_report) :
  clean_data w = Some (w', Some report) ->
  removed_duplicates report = 0%Z /\
  total_entries report = Z.of_nat (length (collected_data w')) /\
  add_all new_window (collected_data w) = Some w' /\
  refresh_table w' = Some w'.
Proof.
  unfold clean_data. destruct (collected_data w) as [|d data] eqn:Ed; [discriminate|].
  rewrite clean_loop_add_all by reflexivity.
  change {| unique_entries := ∅; collected_data := [] |} with new_window.
  destruct (add_all new_window (d :: data)) as [w1|] eqn:E; [|discriminate].
  cbn [mbind option_bind].
  destruct (add_all_keeps_settled _ _ _ _ E settled_new) as [keys Hs].
  replace {| unique_entries := unique_entries w1; collected_data := collected_data w1 |}
    with w1 by now destruct w1.
  rewrite (refresh_table_settled _ _ Hs). cbn [mbind option_bind].
  intros [= <- <-]. simpl. repeat split; [lia|eapply refresh_table_settled, Hs].
Qed.

(** *** The window and [remove_duplicates] *)

Lemma add_all_remove_duplicates data : forall cleaned U L,
  mapM clean_data_entry data = Some cleaned ->
  collected_data <$> add_all {| unique_entries := U; collected_data := L |} data
  = (fun kept => (L ++ kept)%list) <$> remove_duplicates_go U cleaned.
Proof.
  induction data as [|d data IH]; intros cleaned U L Hm.
  - injection Hm as <-. simpl. now rewrite List.app_nil_r.
  - simpl in Hm. destruct (clean_data_entry d) as [c|] eqn:Ec; [|discriminate].
    simpl in Hm. destruct (mapM clean_data_entry data) as [cs|] eqn:Em; [|discriminate].
    injection Hm as <-. cbn [add_all remove_duplicates_go]. unfold add_real_time_data.
    rewrite Ec. cbn [mbind option_bind].
    destruct (unique_key c) as [key|]; [|reflexivity].
    cbn [mbind option_bind unique_entries collected_data].
    destruct (decide (key ∈ U)); cbn [mbind option_bind]; [now apply IH|].
    rewrite (IH cs _ _ eq_refl).
    destruct (remove_duplicates_go _ cs) as [kept|]; [|reflexivity].
    simpl. now rewrite <- List.app_assoc.
Qed.

Lemma receive_add_all stream : forall w,
  is_Some (add_all w stream) -> add_all w stream = Some (receive w stream).
Proof.
  induction stream as [|d stream IH]; intros w H; [reflexivity|].
  simpl in *. destruct (add_real_time_data d w) as [w'|]; [|now destruct H].
  simpl in *. now apply IH.
Qed.

(** X23.  When every record of a stream can be cleaned, the table that the window
    builds record by record is what [remove_duplicates] returns for the
    list of the cleaned records. *)
Theorem window_agrees_with_remove_duplicates (stream cleaned : list dict) :
  mapM clean_data_entry stream = Some cleaned ->
  remove_duplicates cleaned = Some (collected_data (receive new_window stream)).
Proof.
  intros Hm. pose proof (add_all_remove_duplicates stream cleaned ∅ [] Hm) as H.
  change {| unique_entries := ∅; collected_data := [] |} with new_window in H.
  assert (Hs : is_Some (add_all new_window stream)).
  { clear H. revert cleaned Hm. generalize new_window.
    induction stream as [|d stream IH]; intros w cleaned Hm; [eauto|].
    simpl in Hm. destruct (clean_data_entry d) as [c|] eqn:Ec; [|discriminate].
    simpl in Hm. destruct (mapM clean_data_entry stream) as [cs|] eqn:Em; [|discriminate].
    simpl. unfold add_real_time_data. rewrite Ec. cbn [mbind option_bind].
    pose proof (clean_data_entry_fixed _ _ Ec) as Hf.
    rewrite clean_data_entry_eq in Hf.
    destruct (clean_spaced (get c "name" (VStr NA))) as [n|] eqn:Hn; [|discriminate].
    destruct (clean_phone _) as [p|]; [|discriminate].
    destruct (clean_email _) as [e|]; [|discriminate].
    destruct (clean_website _) as [ws|]; [|discriminate].
    destruct (clean_instagram _) as [i|]; [|discriminate].
    destruct (clean_spaced (get c "address" (VStr NA))) as [a|] eqn:Ha; [|discriminate].
    assert (Hk : is_Some (unique_key c)).
    { unfold unique_key.
      assert (Hstr : forall k, is_Some (clean_spaced (get c k (VStr NA))) ->
                               is_Some (as_str (get c k (VStr ""))) ).
      { intros k [v Hv]. unfold get in *. destruct (c !! k) as [x|]; simpl in *; [|eauto].
        unfold clean_spaced in Hv. destruct (eq_str x NA) eqn:Ex.
        - apply eq_str_true in Ex. subst x. simpl. eauto.
        - destruct x; try discriminate. simpl. eauto. }
      destruct (Hstr "name") as [sn ->]; [eauto|].
      destruct (Hstr "address") as [sa ->]; [eauto|]. simpl. eauto. }
    destruct Hk as [key ->]. cbn [mbind option_bind].
    destruct (decide _); eapply IH; eauto. }
  rewrite (receive_add_all _ _ Hs) in H. simpl in H. unfold remove_duplicates.
  destruct (remove_duplicates_go ∅ cleaned) as [kept|]; [|discriminate].
  simpl in H. now injection H as ->.
Qed.

(** *** Validating the table *)

(** The fields of a cleaned record are strings that the cleaners keep. *)
Lemma fixed_fields d :
  clean_data_entry d = Some d ->
  exists n p e w i a co st lo h ps ip,
    d = cleaned_of n p e w i a co st lo h ps ip /\
    clean_spaced n = Some n /\ clean_phone p = Some p /\ clean_email e = Some e /\
    clean_website w = Some w /\ clean_instagram i = Some i /\
    clean_spaced a = Some a /\
    clean_other co = co /\ clean_other st = st /\ clean_other lo = lo /\
    clean_other h = h /\ clean_other ps = ps /\ clean_other ip = ip.
Proof.
  intros H. pose proof H as H0. rewrite clean_data_entry_eq in H.
  destruct (clean_spaced (get d "name" (VStr NA))) as [n|] eqn:Hn; [|discriminate].
  destruct (clean_phone (get d "phone" (VStr NA))) as [p|] eqn:Hp; [|discriminate].
  destruct (clean_email (get d "email" (VStr NA))) as [e|] eqn:He; [|discriminate].
  destruct (clean_website (get d "website" (VStr NA))) as [w|] eqn:Hw; [|discriminate].
  destruct (clean_instagram (get d "instagram" (VStr NA))) as [i|] eqn:Hi;
    [|discriminate].
  destruct (clean_spaced (get d "address" (VStr NA))) as [a|] eqn:Ha; [|discriminate].
  cbn [mbind option_bind] in H. injection H as H.
  exists n, p, e, w, i, a.
  eexists _, _, _, _, _, _. split; [symmetry; exact H|].
  repeat split;
    first [ eapply clean_spaced_idem; eassumption | eapply clean_phone_idem; eassumption
          | eapply clean_email_idem; eassumption | eapply clean_website_idem; eassumption
          | eapply clean_instagram_idem; eassumption | apply clean_other_idem ].
Qed.

(** The three markers are not kept by the cleaners, so a cleaned record
    holds none. *)
Lemma fixed_unmarked d : clean_data_entry d = Some d -> unmarked d.
Proof.
  intros H. apply fixed_fields in H
    as (n & p & e & w & i & a & co & st & lo & h & ps & ip & -> & _ & Hp & He & Hw & _).
  unfold unmarked, get_none.
  destruct (get_cleaned_of n p e w i a co st lo h ps ip VNone)
    as (_ & -> & -> & -> & _).
  repeat split; intros ->; discriminate.
Qed.

Lemma get_marked fp fe fw d k dflt :
  get (marked fp fe fw d) k dflt =
  if fw && String.eqb k "website" then VStr INVALID
  else if fe && String.eqb k "email" then VStr INVALID
  else if fp && String.eqb k "phone" then VStr INVALID
  else get d k dflt.
Proof.
  unfold marked, get.
  destruct fw; cbn [andb id].
  { destruct (String.eqb_spec k "website") as [->|Hk];
      [now rewrite lookup_insert_eq|rewrite lookup_insert_ne by congruence].
    destruct fe; cbn [andb id].
    { destruct (String.eqb_spec k "email") as [->|Hk'];
        [now rewrite lookup_insert_eq|rewrite lookup_insert_ne by congruence].
      destruct fp; cbn [andb id]; [|reflexivity].
      destruct (String.eqb_spec k "phone") as [->|Hk''];
        [now rewrite lookup_insert_eq|now rewrite lookup_insert_ne by congruence]. }
    destruct fp; cbn [andb id]; [|reflexivity].
    destruct (String.eqb_spec k "phone") as [->|Hk''];
      [now rewrite lookup_insert_eq|now rewrite lookup_insert_ne by congruence]. }
  destruct fe; cbn [andb id].
  { destruct (String.eqb_spec k "email") as [->|Hk'];
      [now rewrite lookup_insert_eq|rewrite lookup_insert_ne by congruence].
    destruct fp; cbn [andb id]; [|reflexivity].
    destruct (String.eqb_spec k "phone") as [->|Hk''];
      [now rewrite lookup_insert_eq|now rewrite lookup_insert_ne by congruence]. }
  destruct fp; cbn [andb id]; [|reflexivity].
  destruct (String.eqb_spec k "phone") as [->|Hk''];
    [now rewrite lookup_insert_eq|now rewrite lookup_insert_ne by congruence].
Qed.

(** What the cleaning makes of a cleaned record that has been marked. *)
Lemma reclean_marked fp fe fw d :
  clean_data_entry d = Some d ->
  exists c,
    clean_data_entry (marked fp fe fw d) = Some c /\
    unique_key c = unique_key d /\
    get_none c "phone" = (if fp then VStr "" else get_none d "phone") /\
    get_none c "email" = (if fe then VStr "n/a (invalid)" else get_none d "email") /\
    get_none c "website"
    = (if fw then VStr "https://N/A (Invalid)" else get_none d "website").
Proof.
  intros H. apply fixed_fields in H
    as (n & p & e & w & i & a & co & st & lo & h & ps & ip & ->
        & Hn & Hp & He & Hw & Hi & Ha & Hco & Hst & Hlo & Hh & Hps & Hip).
  rewrite clean_data_entry_eq. rewrite !get_marked.
  destruct (get_cleaned_of n p e w i a co st lo h ps ip (VStr NA))
    as (-> & -> & -> & -> & -> & -> & -> & -> & -> & -> & -> & ->).
  cbn [String.eqb Ascii.eqb Bool.eqb andb].
  rewrite !andb_false_r, ?andb_true_r.
  rewrite Hn, Hi, Ha, Hco, Hst, Hlo, Hh, Hps, Hip.
  assert (Ep : clean_phone (if fp then VStr INVALID else p)
               = Some (if fp then VStr "" else p)) by (destruct fp; [reflexivity|exact Hp]).
  assert (Ee : clean_email (if fe then VStr INVALID else e)
               = Some (if fe then VStr "n/a (invalid)" else e))
    by (destruct fe; [reflexivity|exact He]).
  assert (Ew : clean_website (if fw then VStr INVALID else w)
               = Some (if fw then VStr "https://N/A (Invalid)" else w))
    by (destruct fw; [reflexivity|exact Hw]).
  rewrite Ep, Ee, Ew. cbn [mbind option_bind]. eexists. split; [reflexivity|].
  unfold unique_key, get_none.
  match goal with
  | |- context [get (cleaned_of ?n ?p' ?e' ?w' ?i ?a ?c ?s ?l ?h ?ps ?ip) _ _] =>
      destruct (get_cleaned_of n p' e' w' i a c s l h ps ip (VStr ""))
        as (-> & _ & _ & _ & _ & -> & _);
      destruct (get_cleaned_of n p' e' w' i a c s l h ps ip VNone)
        as (_ & -> & -> & -> & _)
  end.
  destruct (get_cleaned_of n p e w i a co st lo h ps ip (VStr ""))
    as (-> & _ & _ & _ & _ & -> & _).
  destruct (get_cleaned_of n p e w i a co st lo h ps ip VNone)
    as (_ & -> & -> & -> & _).
  auto.
Qed.

Lemma validate_entry_marks phone_valid site_reachable settings d :
  is_Some (as_str (get_none d "email")) ->
  exists fp fe fw,
    validate_entry phone_valid site_reachable settings d = Some (marked fp fe fw d).
Proof.
  intros [email He]. unfold validate_entry. cbn zeta. rewrite He.
  cbn [mbind option_bind].
  set (fp := truthy (get_none settings "validate_phone")
             && negb (eq_str (get_none d "phone") NA)
             && negb match get_none d "phone" with
                     | VStr s => phone_valid s
                     | _ => false
                     end).
  set (fe := truthy (get_none settings "validate_email")
             && negb (eq_str (get_none d "email") NA)
             && negb (EmailExtractor.validate_email email)).
  set (fw := truthy (get_none settings "validate_website")
             && negb (eq_str (get_none d "website") NA)
             && negb match get_none d "website" with
                     | VStr s => site_reachable s
                     | _ => false
                     end).
  exists fp, fe, fw. subst fp fe fw. unfold marked.
  destruct (truthy (get_none settings "validate_phone")
            && negb (eq_str (get_none d "phone") NA));
    destruct (truthy (get_none settings "validate_email")
              && negb (eq_str (get_none d "email") NA));
    destruct (truthy (get_none settings "validate_website")
              && negb (eq_str (get_none d "website") NA));
    cbn [andb mbind option_bind];
    repeat match goal with
           | |- context [if ?b then _ else _] => destruct b; cbn [negb id]
           end; reflexivity.
Qed.

(** Adding records that clean to records with new keys files all of them. *)
Lemma add_all_distinct ms : forall cs ks pre U kpre,
  (forall key, key ∈ kpre <-> key ∈ U) ->
  Forall2 (fun m c => clean_data_entry m = Some c) ms cs ->
  Forall2 (fun c key => unique_key c = Some key) cs ks ->
  NoDup (kpre ++ ks)%list ->
  exists U',
    add_all {| unique_entries := U; collected_data := pre |} ms
    = Some {| unique_entries := U'; collected_data := (pre ++ cs)%list |}.
Proof.
  induction ms as [|m ms IH]; intros cs ks pre U kpre HU Hc Hk Hn.
  - inversion Hc; subst. exists U. now rewrite List.app_nil_r.
  - inversion Hc as [|? c ? cs' Hm Hc']; subst.
    inversion Hk as [|? k ? ks' Hd Hk']; subst.
    cbn [add_all]. unfold add_real_time_data. rewrite Hm. cbn [mbind option_bind].
    rewrite Hd. cbn [mbind option_bind unique_entries collected_data].
    assert (Hnk : k ∉ U).
    { rewrite <- HU. apply NoDup_app in Hn as (_ & Hn & _). intros Hin.
      apply (Hn k Hin). left. }
    destruct (decide (k ∈ U)); [contradiction|]. cbn [mbind option_bind].
    destruct (IH cs' ks' (pre ++ [c])%list ({[k]} ∪ U) (kpre ++ [k])%list)
      as (U' & E); auto.
    + intros key. rewrite elem_of_app, list_elem_of_singleton, elem_of_union,
        elem_of_singleton, HU. tauto.
    + now rewrite <- List.app_assoc.
    + exists U'. now rewrite <- List.app_assoc in E.
Qed.

(** X24.  The marker [N/A (Invalid)] that [validate_data] writes into a record
    does not reach the table: the refresh at its end cleans every record
    again, which turns a marked phone into the empty string, a marked
    e-mail into [n/a (invalid)] and a marked website into
    [https://N/A (Invalid)].  No record is lost, and nothing raises. *)
Theorem validate_data_rewrites_markers (phone_valid site_reachable : string -> bool)
    (settings : dict) (stream : list dict) :
  let w := receive new_window stream in
  exists w',
    validate_data phone_valid site_reachable settings w = Some w' /\
    Forall2 (fun d c =>
               unique_key c = unique_key d /\
               (get_none c "phone" = get_none d "phone" \/
                get_none c "phone" = VStr "") /\
               (get_none c "email" = get_none d "email" \/
                get_none c "email" = VStr "n/a (invalid)") /\
               (get_none c "website" = get_none d "website" \/
                get_none c "website" = VStr "https://N/A (Invalid)"))
            (collected_data w) (collected_data w') /\
    Forall unmarked (collected_data w').
Proof.
  intros w. destruct (receive_settled stream new_window [] settled_new)
    as (keys & (Hk & Hn & HU) & Hc). fold w in Hk, Hn, HU, Hc.
  unfold validate_data. destruct (collected_data w) as [|d0 ds0] eqn:Ed.
  { exists w. rewrite Ed. repeat split; constructor. }
  rewrite <- Ed in *. clear Ed d0 ds0.
  assert (H : exists ms cs,
             mapM (validate_entry phone_valid site_reachable settings) (collected_data w)
             = Some ms /\
             Forall2 (fun m c => clean_data_entry m = Some c) ms cs /\
             Forall2 (fun c key => unique_key c = Some key) cs keys /\
             Forall2 (fun d c =>
               unique_key c = unique_key d /\
               (get_none c "phone" = get_none d "phone" \/
                get_none c "phone" = VStr "") /\
               (get_none c "email" = get_none d "email" \/
                get_none c "email" = VStr "n/a (invalid)") /\
               (get_none c "website" = get_none d "website" \/
                get_none c "website" = VStr "https://N/A (Invalid)"))
               (collected_data w) cs /\
             Forall unmarked cs).
  { clear Hn HU. revert keys Hk.
    induction Hc as [|d ds Hd Hc IH]; intros keys Hk.
    - inversion Hk; subst. exists [], []. repeat split; constructor.
    - inversion Hk as [|? k ? keys' Hdk Hk']; subst.
      destruct (IH _ Hk') as (ms & cs & Em & H1 & H2 & H3 & H4).
      destruct (validate_entry_marks phone_valid site_reachable settings d)
        as (fp & fe & fw & Ev).
      { pose proof (fixed_fields _ Hd)
          as (n & p & e & ws & i & a & co & st & lo & h & ps & ip & -> & _ & _ & He & _).
        unfold get_none.
        destruct (get_cleaned_of n p e ws i a co st lo h ps ip VNone)
          as (_ & _ & -> & _).
        apply guarded_str in He as [->|(x & -> & _)]; simpl; eauto. }
      destruct (reclean_marked fp fe fw d Hd) as (c & Ec & Ek & Ep & Ee & Ew).
      exists (marked fp fe fw d :: ms), (c :: cs).
      repeat split.
      + simpl. rewrite Ev. simpl. rewrite Em. reflexivity.
      + constructor; assumption.
      + constructor; [congruence|assumption].
      + constructor; [|assumption]. repeat split; [exact Ek| | |].
        * rewrite Ep. destruct fp; auto.
        * rewrite Ee. destruct fe; auto.
        * rewrite Ew. destruct fw; auto.
      + constructor; [|assumption]. eapply fixed_unmarked, clean_data_entry_fixed, Ec. }
  destruct H as (ms & cs & Em & H1 & H2 & H3 & H4). rewrite Em. cbn [mbind option_bind].
  unfold refresh_table, clear_data. cbn zeta. cbn [collected_data].
  destruct (add_all_distinct ms cs keys [] ∅ []) as (U' & E); auto.
  { intros key. rewrite elem_of_nil, elem_of_empty. reflexivity. }
  rewrite E. eexists. split; [reflexivity|]. simpl. auto.
Qed.

End WindowOpsFacts.

(** ** From the worker to the window *)

Module HandoverFacts.
Import DataProcessor EntryWorker DataCollectorThread MainWindow WindowNotions
  DataProcessorFacts.

Lemma extract_name_str p : exists s, extract_name p = VStr s.
Proof. unfold extract_name. destruct (h1_headline p); [|destruct (h1_any p)]; eauto. Qed.

Lemma extract_phone_str p : exists s, extract_phone p = VStr s.
Proof.
  unfold extract_phone. destruct (phone_label p) as [[phone|]|].
  - destruct (_ && _); [eauto|]. destruct (String.eqb _ _); eauto.
  - eauto.
  - destruct (tel_href p) as [[href|]|]; eauto.
Qed.

Lemma extract_address_str p : exists s, extract_address p = VStr s.
Proof.
  unfold extract_address. destruct (address_label p) as [[address|]|].
  - destruct (_ && _); [eauto|]. destruct (String.eqb _ _); eauto.
  - eauto.
  - destruct (body_medium p); [|eauto]. destruct (List.find _ _); eauto.
Qed.

Lemma extract_website_cases p :
  extract_website p = VNone \/ exists s, extract_website p = VStr s.
Proof.
  unfold extract_website, opt_value.
  destruct (website_link p) as [[s|]|]; [eauto|eauto|].
  destruct (other_link p) as [[s|]|]; eauto.
Qed.

(** The main fields of what [extract_data] returns. *)
Lemma extract_data_main p data :
  extract_data p = Some data ->
  exists name phone email instagram address,
    main_fields data (VStr name) (VStr phone) (VStr email) (extract_website p)
                (VStr instagram) (VStr address).
Proof.
  unfold extract_data. cbn zeta.
  destruct (extract_name_str p) as [name ->].
  destruct (extract_phone_str p) as [phone ->].
  destruct (extract_address_str p) as [address ->].
  generalize (extract_website p) as website. intros website.
  assert (He : forall o : option value,
            (if truthy website && negb (eq_str website NA)
             then emails ← site_emails p;
                  Some match emails with e :: _ => VStr e | [] => VStr NA end
             else Some (VStr NA)) = o ->
            o = None \/ exists s, o = Some (VStr s)).
  { intros o <-. destruct (_ && _); [|eauto].
    destruct (site_emails p) as [[|e l]|]; simpl; eauto. }
  destruct (He _ eq_refl) as [->|[email ->]]; [discriminate|].
  cbn [mbind option_bind].
  assert (Hi : exists s, match found_instagram p with
                         | Some i => VStr i
                         | None => VStr NA
                         end = VStr s) by (destruct (found_instagram p); eauto).
  destruct Hi as [instagram ->].
  generalize (found_products_services p) (found_image_path p) (found_hours p).
  intros ps ip h [= <-].
  exists name, phone, email, instagram, address. vm_compute. auto 7.
Qed.

Lemma with_seed_main entry_name entry_address data n ph em ws ig ad :
  main_fields data (VStr n) ph em ws ig (VStr ad) ->
  exists n' ad',
    main_fields (with_seed (VStr entry_name) (VStr entry_address) data)
                (VStr n') ph em ws ig (VStr ad').
Proof.
  intros (Hn & Hp & He & Hw & Hi & Ha). unfold with_seed. cbn zeta.
  destruct (_ || _ || _).
  - destruct (_ || _).
    + exists entry_name, entry_address. unfold main_fields.
      rewrite ?lookup_insert_eq, ?lookup_insert_ne by discriminate.
      rewrite ?lookup_insert_eq, ?lookup_insert_ne by discriminate. auto 7.
    + exists entry_name, ad. unfold main_fields.
      rewrite ?lookup_insert_eq, ?lookup_insert_ne by discriminate. auto 7.
  - destruct (_ || _).
    + exists n, entry_address. unfold main_fields.
      rewrite ?lookup_insert_eq, ?lookup_insert_ne by discriminate. auto 7.
    + exists n, ad. repeat split; assumption.
Qed.

Lemma tag_main c data n ph em ws ig ad :
  main_fields data n ph em ws ig ad -> main_fields (tag c data) n ph em ws ig ad.
Proof.
  intros (Hn & Hp & He & Hw & Hi & Ha). unfold tag, main_fields.
  rewrite !lookup_insert_ne by discriminate. auto 7.
Qed.

(** What the cleaning does with a record whose other main fields are
    strings: it raises exactly when the website is [None]. *)
Lemma clean_main data n ph em ws ig ad :
  main_fields data (VStr n) (VStr ph) (VStr em) ws (VStr ig) (VStr ad) ->
  (ws = VNone -> clean_data_entry data = None) /\
  (forall s, ws = VStr s ->
     exists cleaned key, clean_data_entry data = Some cleaned /\
                         unique_key cleaned = Some key).
Proof.
  intros (Hn & Hp & He & Hw & Hi & Ha). rewrite clean_data_entry_eq.
  assert (Hg : forall k v, data !! k = Some v -> get data k (VStr NA) = v)
    by (intros k v Hk; unfold get; now rewrite Hk).
  rewrite (Hg _ _ Hn), (Hg _ _ Hp), (Hg _ _ He), (Hg _ _ Hw), (Hg _ _ Hi), (Hg _ _ Ha).
  assert (G : forall (f : string -> string) s,
            exists s', (if eq_str (VStr s) NA then Some (VStr s)
                        else x ← as_str (VStr s); Some (VStr (f x))) = Some (VStr s')).
  { intros f s. destruct (eq_str (VStr s) NA); simpl; eauto. }
  destruct (G (fun s => join " " (split (strip s))) n) as [n' En].
  destruct (G with_country_code ph) as [ph' Ep].
  destruct (G (fun s => lower (strip s)) em) as [em' Ee].
  destruct (G (fun s => if has_scheme (strip s) then strip s
                        else if startswith (strip s) "@"
                             then "https://instagram.com/" ++ slice_from 1 (strip s)
                             else "https://instagram.com/" ++ strip s) ig) as [ig' Ei].
  destruct (G (fun s => join " " (split (strip s))) ad) as [ad' Ea].
  change (clean_spaced (VStr n) = Some (VStr n')) in En.
  change (clean_phone (VStr ph) = Some (VStr ph')) in Ep.
  change (clean_email (VStr em) = Some (VStr em')) in Ee.
  change (clean_instagram (VStr ig) = Some (VStr ig')) in Ei.
  change (clean_spaced (VStr ad) = Some (VStr ad')) in Ea.
  rewrite En, Ep, Ee, Ei, Ea. cbn [mbind option_bind]. split.
  - intros ->. reflexivity.
  - intros s ->.
    destruct (G (fun s => if has_scheme (strip s) then strip s
                          else "https://" ++ strip s) s) as [ws' Ew].
    change (clean_website (VStr s) = Some (VStr ws')) in Ew.
    rewrite Ew. cbn [mbind option_bind]. eexists. exists (lower (strip n'), lower (strip ad')).
    split; [reflexivity|]. unfold unique_key.
    match goal with
    | |- context [get (cleaned_of ?n ?p ?e ?w ?i ?a ?c ?s ?l ?h ?ps ?ip) _ _] =>
        destruct (get_cleaned_of n p e w i a c s l h ps ip (VStr ""))
          as (-> & _ & _ & _ & _ & -> & _)
    end.
    reflexivity.
Qed.

(** X25.  A record that a worker hands over is kept or refused as a duplicate by
    the window, unless the link to the website had no [href]: then its
    website is [None], it is handed over all the same (also when entries
    without website are to be skipped), and the slot of the window raises. *)
Theorem missing_href_raises_in_the_window (skip : bool) (index : Z)
    (e : result_element) (p : detail_page) (data : dict) (c : collector)
    (w : window) :
  EntryWorker.run skip index e p = data_ready data ->
  get_none data "website" = extract_website p /\
  (extract_website p = VNone <-> add_real_time_data (tag c data) w = None).
Proof.
  unfold EntryWorker.run. cbn zeta.
  generalize (info_name (extract_info_from_result e)) as entry_name.
  generalize (info_address (extract_info_from_result e)) as entry_address.
  intros entry_address entry_name.
  destruct (open_entry _ _ _); [|discriminate].
  destruct (extract_data p) as [d|] eqn:E; [|discriminate].
  apply extract_data_main in E as (n & ph & em & ig & ad & Hm).
  destruct (with_seed_main entry_name entry_address d _ _ _ _ _ _ Hm)
    as (n' & ad' & Hm').
  revert Hm'. generalize (with_seed (VStr entry_name) (VStr entry_address) d).
  clear Hm. intros seeded Hm'.
  unfold report. destruct (_ && _ && _); [discriminate|]. intros [= <-]. split.
  - destruct Hm' as (_ & _ & _ & Hw & _). unfold get_none, get. now rewrite Hw.
  - apply (tag_main c) in Hm'. destruct (clean_main _ _ _ _ _ _ _ Hm') as [Hnone Hsome].
    unfold add_real_time_data. split.
    + intros Ew. now rewrite (Hnone Ew).
    + intros H. destruct (extract_website_cases p) as [Ew|[s Ew]]; [exact Ew|].
      destruct (Hsome s Ew) as (cleaned & key & Ec & Ek).
      rewrite Ec in H. cbn [mbind option_bind] in H. rewrite Ek in H.
      cbn [mbind option_bind] in H. destruct (decide _); discriminate.
Qed.

End HandoverFacts.

(** ** Normal forms *)

Module NormalFormFacts.
Import DataProcessor RegexSemantics PyStrFacts DataProcessorFacts RemoveDuplicatesFacts
  EmailShapeFacts WindowOpsFacts.

(** *** [remove_duplicates] once more *)

Lemma remove_duplicates_go_keys data : forall seen out,
  remove_duplicates_go seen data = Some out ->
  exists keys, mapM unique_key data = Some keys.
Proof.
  induction data as [|item data IH]; intros seen out H; [now exists []|].
  simpl in H. destruct (unique_key item) as [key|] eqn:Ek; [|discriminate].
  cbn [mbind option_bind] in H.
  assert (exists keys, mapM unique_key data = Some keys) as [keys Hk].
  { destruct (decide _); [eauto|].
    destruct (remove_duplicates_go _ data) eqn:E; [eauto|discriminate]. }
  exists (key :: keys). simpl. rewrite Ek. simpl. now rewrite Hk.
Qed.

Lemma remove_duplicates_go_fixed out : forall seen kout,
  mapM unique_key out = Some kout -> NoDup kout ->
  (forall k, k ∈ kout -> k ∉ seen) ->
  remove_duplicates_go seen out = Some out.
Proof.
  induction out as [|item out IH]; intros seen kout Hm Hn Hs; [reflexivity|].
  simpl in Hm. destruct (unique_key item) as [key|] eqn:Ek; [|discriminate].
  simpl in Hm. destruct (mapM unique_key out) as [ks|] eqn:Em; [|discriminate].
  injection Hm as <-. apply NoDup_cons in Hn as [Hk Hn].
  simpl. rewrite Ek. cbn [mbind option_bind].
  destruct (decide (key ∈ seen)) as [Hin|_]; [exfalso; apply (Hs key); [left|exact Hin]|].
  rewrite (IH _ ks eq_refl Hn); [reflexivity|].
  intros k Hk' Hin. apply elem_of_union in Hin as [Hin|Hin].
  - apply elem_of_singleton in Hin. subst. contradiction.
  - apply (Hs k); [now right|exact Hin].
Qed.

(** X11.  Removing duplicates from a list without duplicates changes nothing:
    [remove_duplicates] applied to its own result returns it. *)
Theorem remove_duplicates_idempotent (data out : list dict) :
  remove_duplicates data = Some out -> remove_duplicates out = Some out.
Proof.
  unfold remove_duplicates. intros H.
  destruct (remove_duplicates_go_keys _ _ _ H) as [keys Hk].
  destruct (remove_duplicates_go_spec data ∅ keys Hk)
    as (out' & idx & kout & Ho & _ & _ & _ & _ & Hm & Hn & Hs).
  rewrite H in Ho. injection Ho as <-.
  eapply remove_duplicates_go_fixed; eauto.
Qed.

(** *** The forms of the cleaned fields *)

Lemma all_chars_filter p s : all_chars p (filter_chars p s) = true.
Proof.
  induction s as [|c s IH]; simpl; [reflexivity|].
  destruct (p c) eqn:E; simpl; [now rewrite E|exact IH].
Qed.

Lemma all_chars_slice_from p n : forall s,
  all_chars p s = true -> all_chars p (slice_from n s) = true.
Proof.
  induction n as [|n IH]; intros s H; [now destruct s|].
  destruct s as [|c s]; [reflexivity|]. simpl in *.
  apply andb_true_iff in H as [_ H]. now apply IH.
Qed.

Lemma with_country_code_chars s :
  all_chars (fun c => is_decimal c || Ascii.eqb c "+") (with_country_code s) = true.
Proof.
  unfold with_country_code. cbn zeta.
  pose proof (all_chars_filter (fun c => is_decimal c || Ascii.eqb c "+") s) as H.
  fold (phone_chars s) in H.
  destruct (_ && _ && _); [|exact H].
  destruct (_ =? _)%nat.
  - change ("+234" ++ last_n 10 (phone_chars s))
      with (String "+" (String "2" (String "3" (String "4" (last_n 10 (phone_chars s)))))).
    cbn [all_chars]. unfold last_n. rewrite all_chars_slice_from by exact H. reflexivity.
  - change ("+234" ++ phone_chars s)
      with (String "+" (String "2" (String "3" (String "4" (phone_chars s))))).
    cbn [all_chars]. rewrite H. reflexivity.
Qed.

(** X12.  Every field that [clean_data_entry] cleans comes out as a string in the
    form the cleaning aims at, or as the placeholder: names and addresses
    with single spaces between their words, phones made of digits and plus
    signs, e-mail addresses stripped and in lower case, websites and
    Instagram addresses with a scheme in front. *)
Theorem clean_data_entry_normal_forms (data cleaned : dict) :
  clean_data_entry data = Some cleaned ->
  exists name phone email website instagram address : string,
    cleaned !! "name" = Some (VStr name) /\
    cleaned !! "phone" = Some (VStr phone) /\
    cleaned !! "email" = Some (VStr email) /\
    cleaned !! "website" = Some (VStr website) /\
    cleaned !! "instagram" = Some (VStr instagram) /\
    cleaned !! "address" = Some (VStr address) /\
    (name = NA \/ name = join " " (split name)) /\
    (phone = NA \/
     all_chars (fun c => is_decimal c || Ascii.eqb c "+") phone = true) /\
    (email = NA \/ (lower email = email /\ strip email = email)) /\
    (website = NA \/ has_scheme website = true) /\
    (instagram = NA \/ has_scheme instagram = true) /\
    (address = NA \/ address = join " " (split address)).
Proof.
  rewrite clean_data_entry_eq.
  destruct (clean_spaced (get data "name" (VStr NA))) as [n|] eqn:Hn; [|discriminate].
  destruct (clean_phone (get data "phone" (VStr NA))) as [p|] eqn:Hp; [|discriminate].
  destruct (clean_email (get data "email" (VStr NA))) as [e|] eqn:He; [|discriminate].
  destruct (clean_website (get data "website" (VStr NA))) as [w|] eqn:Hw; [|discriminate].
  destruct (clean_instagram (get data "instagram" (VStr NA))) as [i|] eqn:Hi;
    [|discriminate].
  destruct (clean_spaced (get data "address" (VStr NA))) as [a|] eqn:Ha; [|discriminate].
  cbn [mbind option_bind]. intros [= <-].
  assert (Hspaced : forall v v', clean_spaced v = Some v' ->
            exists s, v' = VStr s /\ (s = NA \/ s = join " " (split s))).
  { intros v v' H. apply guarded_str in H as [->|(s & -> & ->)]; [eauto|].
    eexists. split; [reflexivity|]. right.
    now rewrite split_join by apply split_words. }
  apply Hspaced in Hn as (name & -> & Hn). apply Hspaced in Ha as (address & -> & Ha).
  apply guarded_str in Hp. apply guarded_str in He.
  apply guarded_str in Hw. apply guarded_str in Hi.
  assert (exists phone, p = VStr phone /\
            (phone = NA \/
             all_chars (fun c => is_decimal c || Ascii.eqb c "+") phone = true))
    as (phone & -> & Hp').
  { destruct Hp as [->|(s & _ & ->)]; [eauto|].
    eexists. split; [reflexivity|]. right. apply with_country_code_chars. }
  assert (exists email, e = VStr email /\
            (email = NA \/ (lower email = email /\ strip email = email)))
    as (email & -> & He').
  { destruct He as [->|(s & _ & ->)]; [eauto|].
    eexists. split; [reflexivity|]. right.
    split; [apply lower_idem|]. now rewrite strip_lower, strip_idem. }
  assert (exists website, w = VStr website /\ (website = NA \/ has_scheme website = true))
    as (website & -> & Hw').
  { destruct Hw as [->|(s & _ & ->)]; [eauto|].
    eexists. split; [reflexivity|]. right.
    destruct (has_scheme (strip s)) eqn:E; [exact E|apply has_scheme_https]. }
  assert (exists instagram, i = VStr instagram /\
            (instagram = NA \/ has_scheme instagram = true))
    as (instagram & -> & Hi').
  { destruct Hi as [->|(s & _ & ->)]; [eauto|].
    eexists. split; [reflexivity|]. right.
    destruct (has_scheme (strip s)) eqn:E; [exact E|].
    destruct (startswith _ _); apply has_scheme_instagram. }
  exists name, phone, email, website, instagram, address.
  repeat (split; [reflexivity|]). auto 7.
Qed.

End NormalFormFacts.

(** ** Instances of the theorems above on concrete inputs *)

Module Witnesses.
Import DataProcessor EntryWorker DataCollectorThread MainWindow Inputs.
Import DataProcessorFacts RemoveDuplicatesFacts EntryWorkerFacts CollectorFacts
  MainWindowFacts.
Import RegexSemantics EmailShape RunNotions ProxyManager Validation WindowOps WindowNotions
  FurtherInputs.
Import EndFacts ProxyManagerFacts ValidationFacts WindowOpsFacts HarvestFacts HandoverFacts
  NormalFormFacts.

(** Settles a decidable statement about closed terms by evaluation. *)
Ltac by_eval := refine (bool_decide_unpack _ _); vm_compute; exact I.

(** C8 on an entry whose phone has ten digits. *)
Lemma clean_data_entry_phone_witness :
  default ∅ (clean_data_entry lagos_entry) !! "phone" = Some (VStr "+2348031234567").
Proof.
  exact (proj1 (clean_data_entry_phone lagos_entry
                  (default ∅ (clean_data_entry lagos_entry)) "803 123 4567"
                  ltac:(by_eval) ltac:(vm_compute; reflexivity)
                  ltac:(discriminate))
               ltac:(vm_compute; reflexivity) ltac:(vm_compute; lia)).
Defined.

(** C10 on three entries, the third of which repeats the key of the first. *)
Lemma remove_duplicates_first_occurrences_witness :
  exists out idx kout,
    remove_duplicates three_entries = Some out /\
    sublist out three_entries /\
    Forall2 (fun i item => three_entries !! i = Some item) idx out /\
    StronglySorted lt idx /\
    (forall i, i ∈ idx <->
       exists k, three_keys !! i = Some k /\ (k ∉ take i three_keys)) /\
    mapM unique_key out = Some kout /\ NoDup kout.
Proof.
  exact (remove_duplicates_first_occurrences three_entries three_keys
           ltac:(vm_compute; reflexivity)).
Defined.



(** X1 on the run with scattered failures. *)
Lemma processed_within_budget_witness :
  (processed_count (exec (scraper 10 false) alternating_events)
   <= max_to_process (exec (scraper 10 false) alternating_events))%Z.
Proof.
  exact (processed_within_budget (scraper 10 false) alternating_events ltac:(by_eval)).
Defined.

(** X2 on the first pass of a run, with a lookup that raises. *)
Lemma failed_batch_keeps_processed_witness :
  processed_count (thread_step (sees None) (exec (scraper 10 false) [thread (sees None)]))
  = processed_count (exec (scraper 10 false) [thread (sees None)]) /\
  consecutive_errors (thread_step (sees None) (exec (scraper 10 false) [thread (sees None)]))
  = (consecutive_errors (exec (scraper 10 false) [thread (sees None)]) + 1)%Z /\
  position (thread_step (sees None) (exec (scraper 10 false) [thread (sees None)]))
  = AtLoopTop.
Proof.
  exact (failed_batch_keeps_processed
           (exec (scraper 10 false) [thread (sees None)]) (sees None)
           ltac:(vm_compute; reflexivity) ltac:(vm_compute; reflexivity)
           ltac:(vm_compute; reflexivity) ltac:(reflexivity)).
Defined.

(** X4 on an entry with a name and a phone. *)
Lemma clean_data_entry_total_witness : is_Some (clean_data_entry lagos_entry).
Proof.
  exact (clean_data_entry_total lagos_entry
           ltac:(repeat constructor; vm_compute; eauto)).
Defined.

(** C2, amended, on the run over the shop listed twice. *)
Lemma retained_records_distinct_witness :
  exists keys,
    Forall2 (fun data key => unique_key data = Some key)
      (collected_data (receive new_window (emitted (exec (scraper 10 false) twin_events))))
      keys /\
    NoDup keys /\
    (forall data key,
       data ∈ emitted (exec (scraper 10 false) twin_events) ->
       dedup_key data = Some key -> key ∈ keys).
Proof. exact (retained_records_distinct (scraper 10 false) twin_events). Defined.

(** X18 on a run of ten passes for one entry. *)
Lemma scraping_run_ends_witness :
  position (exec (scraper 1 false) ten_passes) = Exited.
Proof.
  exact (scraping_run_ends "cafe" "Lagos" "Lagos" "Nigeria" 1 false false ten_passes
           ltac:(repeat constructor; discriminate) ltac:(vm_compute; lia)).
Defined.


(** X20 on a run with four places from the API. *)
Lemma api_answer_ends_the_run_witness :
  let c := exec (init "cafe" "Lagos" "Lagos" "Nigeria" 10 true false false)
                (thread api_answer :: repeat (thread api_answer) 5) in
  collected_count c = 0%Z /\ position c = Exited /\ finished ∈ signals c.
Proof.
  destruct (api_answer_ends_the_run "cafe" "Lagos" "Lagos" "Nigeria" 10 false false
              api_answer (repeat (thread api_answer) 5) ltac:(discriminate))
    as (_ & Hcount & Hend).
  split; [exact Hcount|]. apply Hend. vm_compute; lia.
Defined.

(** X13 on a manager of three proxies. *)
Lemma get_next_proxy_round_witness :
  get_next_proxies 3 rotated_manager
  = Some ([Some "10.0.0.3:8080"; Some "10.0.0.1:8080"; Some "10.0.0.2:8080"],
          rotated_manager).
Proof. exact (get_next_proxy_round rotated_manager ltac:(vm_compute; lia)). Defined.

(** X14 on the same manager, when only the first proxy passes the test. *)
Lemma stale_index_raises_witness :
  get_next_proxy (test_proxies [true; false; false] rotated_manager) = None.
Proof.
  exact (stale_index_raises rotated_manager
           (test_proxies [true; false; false] rotated_manager)
           (or_introl (ex_intro _ [true; false; false] eq_refl))
           ltac:(discriminate) ltac:(vm_compute; lia)).
Defined.

(** X9 on two items, of which one has a malformed e-mail address. *)
Lemma validate_data_keeps_keys_witness :
  let validate := fun data =>
    Validation.validate_data (fun _ => true) (fun _ => false) data mail_settings in
  remove_duplicates (default [] (validate mail_entries))
  = remove_duplicates mail_entries ≫= validate.
Proof.
  exact (proj2 (validate_data_keeps_keys (fun _ => true) (fun _ => false)
                  mail_entries mail_settings
                  (default [] (Validation.validate_data (fun _ => true) (fun _ => false)
                                 mail_entries mail_settings))
                  ltac:(by_eval))).
Defined.

(** X10 on the same two items. *)
Lemma validate_data_emails_witness :
  Forall (fun validated =>
            get_none validated "email" = VStr NA \/
            get_none validated "email" = VStr INVALID \/
            exists s, get_none validated "email" = VStr s /\ email_shaped s)
         (default [] (Validation.validate_data (fun _ => true) (fun _ => false)
                        mail_entries mail_settings)).
Proof.
  exact (validate_data_emails (fun _ => true) (fun _ => false)
           mail_entries mail_settings
           (default [] (Validation.validate_data (fun _ => true) (fun _ => false)
                          mail_entries mail_settings))
           ltac:(by_eval) ltac:(vm_compute; reflexivity)).
Defined.

(** X22 on a table of three records, one of them a duplicate. *)
Lemma clean_data_reports_no_removal_witness :
  exists w' report,
    clean_data raw_window = Some (w', Some report) /\
    length (collected_data raw_window) = 3%nat /\
    total_entries report = 2%Z /\
    removed_duplicates report = 0%Z /\
    add_all new_window (collected_data raw_window) = Some w' /\
    refresh_table w' = Some w'.
Proof.
  assert (H : clean_data raw_window ≫= snd
              = Some {| total_entries := 2; removed_duplicates := 0 |})
    by (vm_compute; reflexivity).
  destruct (clean_data raw_window) as [[w' [report|]]|] eqn:E; try discriminate H.
  exists w', report. injection H as ->.
  destruct (clean_data_reports_no_removal raw_window w' _ E) as (H0 & _ & Hadd & Hfix).
  repeat split; assumption.
Defined.

(** X23 on three entries, the third a duplicate of the first. *)
Lemma window_agrees_with_remove_duplicates_witness :
  remove_duplicates (default [] (mapM clean_data_entry three_entries))
  = Some (collected_data (receive new_window three_entries)).
Proof.
  assert (H : mapM clean_data_entry three_entries
              = Some (default [] (mapM clean_data_entry three_entries))) by by_eval.
  exact (window_agrees_with_remove_duplicates three_entries
           (default [] (mapM clean_data_entry three_entries)) H).
Defined.

(** X7 on a site that cannot be fetched. *)
Lemma extract_emails_unreachable_witness :
  EmailExtractor.extract_emails (fun _ => None) (fun _ href => href)
    "http://shop.example" 2 = [NA].
Proof.
  exact (extract_emails_unreachable (fun _ => None) (fun _ href => href)
           "http://shop.example" 2 (or_introl eq_refl)).
Defined.

(** A worker that hands over a record signals it as ready. *)
Lemma handed_over_ready r data : handed_over r = Some data -> r = data_ready data.
Proof. destruct r; simpl; congruence. Qed.

(** X25 on a shop whose website link has no [href]. *)
Lemma missing_href_raises_in_the_window_witness :
  let data :=
    default ∅ (handed_over (EntryWorker.run true 0 (shop_element "Cafe Luna") no_href_page)) in
  get_none data "website" = VNone /\
  add_real_time_data (tag (scraper 10 true) data) new_window = None.
Proof.
  intros data.
  assert (H : handed_over (EntryWorker.run true 0 (shop_element "Cafe Luna") no_href_page)
              = Some data) by by_eval.
  destruct (missing_href_raises_in_the_window true 0 (shop_element "Cafe Luna")
              no_href_page data (scraper 10 true) new_window
              (handed_over_ready _ _ H))
    as [Hsite Hraise].
  assert (Hnone : extract_website no_href_page = VNone) by reflexivity.
  split; [now rewrite Hsite|]. apply Hraise, Hnone.
Defined.

(** X11 on three entries, the third a duplicate of the first. *)
Lemma remove_duplicates_idempotent_witness :
  remove_duplicates (default [] (remove_duplicates three_entries))
  = Some (default [] (remove_duplicates three_entries)).
Proof.
  assert (H : remove_duplicates three_entries
              = Some (default [] (remove_duplicates three_entries))) by by_eval.
  exact (remove_duplicates_idempotent three_entries
           (default [] (remove_duplicates three_entries)) H).
Defined.

(** X12 on an entry with a name and a phone. *)
Lemma clean_data_entry_normal_forms_witness :
  exists name phone email website instagram address : string,
    default ∅ (clean_data_entry lagos_entry) !! "name" = Some (VStr name) /\
    default ∅ (clean_data_entry lagos_entry) !! "phone" = Some (VStr phone) /\
    default ∅ (clean_data_entry lagos_entry) !! "email" = Some (VStr email) /\
    default ∅ (clean_data_entry lagos_entry) !! "website" = Some (VStr website) /\
    default ∅ (clean_data_entry lagos_entry) !! "instagram" = Some (VStr instagram) /\
    default ∅ (clean_data_entry lagos_entry) !! "address" = Some (VStr address) /\
    (name = NA \/ name = join " " (split name)) /\
    (phone = NA \/
     all_chars (fun c => is_decimal c || Ascii.eqb c "+") phone = true) /\
    (email = NA \/ (lower email = email /\ strip email = email)) /\
    (website = NA \/ has_scheme website = true) /\
    (instagram = NA \/ has_scheme instagram = true) /\
    (address = NA \/ address = join " " (split address)).
Proof.
  assert (H : clean_data_entry lagos_entry
              = Some (default ∅ (clean_data_entry lagos_entry))) by by_eval.
  exact (clean_data_entry_normal_forms lagos_entry
           (default ∅ (clean_data_entry lagos_entry)) H).
Defined.

End Witnesses.
